(** * target-snowflake: flattening of Singer schemas and records

    A shallow embedding of [target_snowflake/utils/singer_target_utils.py]
    together with the two functions of the [inflection] package and the
    fragment of [re.sub] that the module calls.

    Python values are JSON trees (the module only ever sees the result of
    [json.loads], so no two values share an object); a [dict] is an
    association list in insertion order; [str] is [string], read as a
    sequence of ASCII code points (case mapping and the regular-expression
    classes act on ASCII letters and digits only).  Exceptions are the
    [Error] case of [result].  A function that assigns into its argument
    returns the argument's state after the call next to its result.  The
    interpreter is one where [collections.MutableMapping] still exists
    (Python 3.6 to 3.9, as [setup.py] asks for). *)

From Stdlib Require Import List String Ascii Bool Arith ZArith Lia.
From Stdlib Require Import Permutation Sorted.
Import ListNotations.
Local Open Scope string_scope.
Local Open Scope list_scope.
Local Open Scope nat_scope.

(** ** Python strings *)

Module Str.

Definition is_upper (c : ascii) : bool :=
  let n := nat_of_ascii c in (65 <=? n) && (n <=? 90).

Definition is_lower (c : ascii) : bool :=
  let n := nat_of_ascii c in (97 <=? n) && (n <=? 122).

Definition is_digit (c : ascii) : bool :=
  let n := nat_of_ascii c in (48 <=? n) && (n <=? 57).

Definition lower_char (c : ascii) : ascii :=
  if is_upper c then ascii_of_nat (nat_of_ascii c + 32) else c.

Definition upper_char (c : ascii) : ascii :=
  if is_lower c then ascii_of_nat (nat_of_ascii c - 32) else c.

Fixpoint map (f : ascii -> ascii) (s : string) : string :=
  match s with
  | EmptyString => EmptyString
  | String c s' => String (f c) (map f s')
  end.

(** [s.lower()] and [s.upper()] for a string of ASCII characters, where
    only the letters a-z and A-Z have another case and every character maps
    to one character *)
Definition lower : string -> string := map lower_char.
Definition upper : string -> string := map upper_char.

(** [s.replace(a, b)] for one-character [a] and [b] *)
Definition replace_char (a b : ascii) : string -> string :=
  map (fun c => if Ascii.eqb c a then b else c).

(** [sep.join(l)] *)
Fixpoint join (sep : string) (l : list string) : string :=
  match l with
  | [] => ""
  | [x] => x
  | x :: l' => (x ++ sep ++ join sep l')%string
  end.

(** [s[0:n]] *)
Definition slice0 (n : nat) (s : string) : string := substring 0 n s.

(** [needle in hay] on two strings *)
Fixpoint contains (needle hay : string) : bool :=
  prefix needle hay ||
  match hay with
  | EmptyString => false
  | String _ hay' => contains needle hay'
  end.

(** [s.split(sep)] for a non-empty [sep]: the occurrences of [sep] are
    found left to right and do not overlap.  [skip] counts the characters
    of an occurrence still to be dropped, [cur] is the piece being read. *)
Fixpoint split_from (sep : string) (skip : nat) (cur : string) (s : string)
  : list string :=
  match s with
  | EmptyString => [cur]
  | String c s' =>
      match skip with
      | S n => split_from sep n cur s'
      | O =>
          if prefix sep s
          then cur :: split_from sep (String.length sep - 1) "" s'
          else split_from sep 0 (cur ++ String c "")%string s'
      end
  end.

Definition split (sep s : string) : list string := split_from sep 0 "" s.

End Str.

(** ** The fragment of [re] used by the module

    Patterns are kept as syntax and run by a backtracking matcher, greedy and
    leftmost-first as in Python.  Repetition occurs in the sources only as
    [c+] on a character class. *)

Module Re.

Inductive regex : Type :=
| Cls (c : ascii -> bool)        (* one character of a class; a literal *)
| Bol                            (* ^ *)
| Seq (r1 r2 : regex)
| Alt (r1 r2 : regex)            (* r1|r2, r1 tried first *)
| Plus (c : ascii -> bool)       (* [c]+, greedy *)
| Group (n : nat) (r : regex).   (* n-th capturing group *)

Definition captures := list (nat * string).

Fixpoint group (c : captures) (n : nat) : string :=
  match c with
  | [] => ""
  | (m, s) :: c' => if Nat.eqb m n then s else group c' n
  end.

Section Matcher.
Context {A : Type}.

(** [c+] followed by [k]: take as many characters as possible, then give
    them back one at a time until [k] succeeds. *)
Fixpoint plus_cls (c : ascii -> bool) (pos : nat) (rest : string)
    (k : nat -> string -> option A) : option A :=
  match rest with
  | EmptyString => None
  | String a rest' =>
      if c a then
        match plus_cls c (S pos) rest' k with
        | Some x => Some x
        | None => k (S pos) rest'
        end
      else None
  end.

Fixpoint rmatch (r : regex) (pos : nat) (rest : string) (caps : captures)
    (k : nat -> string -> captures -> option A) : option A :=
  match r with
  | Cls c =>
      match rest with
      | String a rest' => if c a then k (S pos) rest' caps else None
      | EmptyString => None
      end
  | Bol => if Nat.eqb pos 0 then k pos rest caps else None
  | Seq r1 r2 =>
      rmatch r1 pos rest caps (fun p s c => rmatch r2 p s c k)
  | Alt r1 r2 =>
      match rmatch r1 pos rest caps k with
      | Some x => Some x
      | None => rmatch r2 pos rest caps k
      end
  | Plus c => plus_cls c pos rest (fun p s => k p s caps)
  | Group n r =>
      rmatch r pos rest caps
        (fun p s c => k p s ((n, substring 0 (p - pos) rest) :: c))
  end.

End Matcher.

(** [pattern.match] at position [pos]: end position and groups *)
Definition match_at (r : regex) (pos : nat) (rest : string)
  : option (nat * captures) :=
  rmatch r pos rest [] (fun p _ c => Some (p, c)).

(** [re.sub(r, repl, s)] with [repl] a function of the match's groups.
    The scan goes left to right; after a match of [n] characters the
    replacement is written and the [n] characters are dropped ([skip]).
    Every pattern of the module consumes at least one character, so a
    match of length zero is read as no match. *)
Fixpoint sub_from (r : regex) (repl : (nat -> string) -> string)
    (skip pos : nat) (rest : string) : string :=
  match rest with
  | EmptyString => ""
  | String a rest' =>
      match skip with
      | S n => sub_from r repl n (S pos) rest'
      | O =>
          match match_at r pos rest with
          | Some (p, c) =>
              if p <=? pos then String a (sub_from r repl 0 (S pos) rest')
              else (repl (group c)
                    ++ sub_from r repl (p - pos - 1) (S pos) rest')%string
          | None => String a (sub_from r repl 0 (S pos) rest')
          end
      end
  end.

Definition sub (r : regex) (repl : (nat -> string) -> string) (s : string)
  : string := sub_from r repl 0 0 s.

(** character classes of the module's patterns *)
Definition upper : regex := Cls Str.is_upper.                 (* [A-Z] *)
Definition lower : regex := Cls Str.is_lower.                 (* [a-z] *)
Definition lower_or_digit : regex :=                          (* [a-z\d] *)
  Cls (fun c => Str.is_lower c || Str.is_digit c).
Definition lit (a : ascii) : regex := Cls (Ascii.eqb a).
Definition any : regex := Cls (fun c => negb (Ascii.eqb c "010")). (* . *)

End Re.

(** ** The [inflection] package *)

Module Inflection.

(** [[
def underscore(word):
    word = re.sub(r"([A-Z]+)([A-Z][a-z])", r'\1_\2', word)
    word = re.sub(r"([a-z\d])([A-Z])", r'\1_\2', word)
    word = word.replace("-", "_")
    return word.lower()
]] *)
Definition acronym_word : Re.regex :=           (* ([A-Z]+)([A-Z][a-z]) *)
  Re.Seq (Re.Group 1 (Re.Plus Str.is_upper))
         (Re.Group 2 (Re.Seq Re.upper Re.lower)).

Definition lower_upper : Re.regex :=            (* ([a-z\d])([A-Z]) *)
  Re.Seq (Re.Group 1 Re.lower_or_digit) (Re.Group 2 Re.upper).

Definition underscore (word : string) : string :=
  let word :=
    Re.sub acronym_word (fun g => (g 1 ++ "_" ++ g 2)%string) word in
  let word :=
    Re.sub lower_upper (fun g => (g 1 ++ "_" ++ g 2)%string) word in
  let word := Str.replace_char "-" "_" word in
  Str.lower word.

(** [[
def camelize(string, uppercase_first_letter=True):
    if uppercase_first_letter:
        return re.sub(r"(?:^|_)(.)", lambda m: m.group(1).upper(), string)
]] *)
Definition camelize (s : string) : string :=
  Re.sub (Re.Seq (Re.Alt Re.Bol (Re.lit "_")) (Re.Group 1 Re.any))
         (fun g => Str.upper (g 1)) s.

End Inflection.

(** ** Column names *)

(** [([A-Z]+)_([A-Z][a-z])] and [([a-z\d])_([A-Z])], lines 54 and 55 *)
Definition acronym_underscore_word : Re.regex :=
  Re.Seq (Re.Group 1 (Re.Plus Str.is_upper))
    (Re.Seq (Re.lit "_") (Re.Group 2 (Re.Seq Re.upper Re.lower))).

Definition lower_underscore_upper : Re.regex :=
  Re.Seq (Re.Group 1 Re.lower_or_digit)
    (Re.Seq (Re.lit "_") (Re.Group 2 Re.upper)).

Definition inflect_column_name (name : string) : string :=
  let name :=
    Re.sub acronym_underscore_word (fun g => (g 1 ++ "__" ++ g 2)%string)
      name in
  let name :=
    Re.sub lower_underscore_upper (fun g => (g 1 ++ "__" ++ g 2)%string)
      name in
  Inflection.underscore name.

(** [l[i] = x] for [i] in range *)
Fixpoint list_set {A : Type} (i : nat) (x : A) (l : list A) : list A :=
  match l, i with
  | [], _ => []
  | _ :: l', O => x :: l'
  | y :: l', S i' => y :: list_set i' x l'
  end.

(** the abbreviation of one segment, lines 64 to 69 *)
Definition reduce_segment (seg : string) : string :=
  let reduced_key := Re.sub Re.lower (fun _ => "") (Inflection.camelize seg) in
  Str.lower (if 1 <? String.length reduced_key then reduced_key
             else Str.slice0 3 seg).

(** the [while] loop of [flatten_key]; each turn increments
    [reducer_index], so [len(inflected_key)] turns are enough *)
Fixpoint flatten_key_loop (fuel : nat) (sep : string)
    (inflected_key : list string) (reducer_index : nat) : list string :=
  match fuel with
  | O => inflected_key
  | S fuel' =>
      if (63 <=? String.length (Str.join sep inflected_key))
         && (reducer_index <? List.length inflected_key)
      then
        flatten_key_loop fuel' sep
          (list_set reducer_index
             (reduce_segment (nth reducer_index inflected_key ""))
             inflected_key)
          (S reducer_index)
      else inflected_key
  end.

Definition flatten_key (k : string) (parent_key : list string) (sep : string)
  : string :=
  let full_key := parent_key ++ [k] in
  let inflected_key := List.map inflect_column_name full_key in
  Str.join sep
    (flatten_key_loop (List.length inflected_key) sep inflected_key 0).

(** ** Python values and exceptions *)

Unset Elimination Schemes.
Inductive json : Type :=
| JNull
| JBool (b : bool)
| JInt (n : Z)
| JFloat (bits : Z)     (* a [float], by the 64 bits of its IEEE 754 double *)
| JStr (s : string)
| JList (l : list json)
| JDict (kvs : list (string * json)).
Set Elimination Schemes.

(** structural induction through the nested lists *)
Section JsonInd.
Variable P : json -> Prop.
Hypothesis Hnull : P JNull.
Hypothesis Hbool : forall b, P (JBool b).
Hypothesis Hint : forall n, P (JInt n).
Hypothesis Hfloat : forall f, P (JFloat f).
Hypothesis Hstr : forall s, P (JStr s).
Hypothesis Hlist : forall l, Forall P l -> P (JList l).
Hypothesis Hdict :
  forall kvs, Forall (fun kv => P (snd kv)) kvs -> P (JDict kvs).

Fixpoint json_ind (v : json) : P v :=
  match v with
  | JNull => Hnull
  | JBool b => Hbool b
  | JInt n => Hint n
  | JFloat f => Hfloat f
  | JStr s => Hstr s
  | JList l =>
      Hlist l
        (list_ind (Forall P) (Forall_nil P)
           (fun x xs IH => Forall_cons x (json_ind x) IH) l)
  | JDict kvs =>
      Hdict kvs
        (list_ind (Forall (fun kv => P (snd kv))) (Forall_nil _)
           (fun kv xs IH => Forall_cons kv (json_ind (snd kv)) IH) kvs)
  end.

End JsonInd.

(** a [dict]: keys in insertion order *)
Definition dict : Type := list (string * json).

Inductive exn : Type :=
| KeyError (key : json)
| TypeError
| AttributeError (attr : string)
| IndexError
| NameError (name : string)
| ValueError (msg : string)
| RecursionError
| ArgumentError.              (* [sqlalchemy.exc.ArgumentError] *)

Inductive result (A : Type) : Type :=
| Ok (a : A)
| Error (e : exn).
Arguments Ok {A} a.
Arguments Error {A} e.

Definition bind {A B : Type} (m : result A) (f : A -> result B) : result B :=
  match m with
  | Ok a => f a
  | Error e => Error e
  end.

Notation "x <- m ;; f" := (bind m (fun x => f))
  (at level 61, m at next level, right associativity).

(** [k in d] *)
Fixpoint dict_mem (k : string) (d : dict) : bool :=
  match d with
  | [] => false
  | (k', _) :: d' => String.eqb k' k || dict_mem k d'
  end.

(** [d.get(k)] *)
Fixpoint dict_get (k : string) (d : dict) : option json :=
  match d with
  | [] => None
  | (k', v) :: d' => if String.eqb k' k then Some v else dict_get k d'
  end.

(** [d[k] = v]: a key already present keeps its place *)
Fixpoint dict_set (k : string) (v : json) (d : dict) : dict :=
  match d with
  | [] => [(k, v)]
  | (k', v') :: d' =>
      if String.eqb k' k then (k, v) :: d' else (k', v') :: dict_set k v d'
  end.

(** [dict(items)] *)
Definition dict_of_items (items : list (string * json)) : dict :=
  fold_left (fun d kv => dict_set (fst kv) (snd kv) d) items [].

(** [bool(v)] *)
Definition truthy (v : json) : bool :=
  match v with
  | JNull => false
  | JBool b => b
  | JInt n => negb (Z.eqb n 0)
  | JFloat bits =>                  (* [0.0] and [-0.0] are false *)
      negb (Z.eqb bits 0 || Z.eqb bits (2 ^ 63))
  | JStr s => negb (String.eqb s "")
  | JList l => match l with [] => false | _ => true end
  | JDict d => match d with [] => false | _ => true end
  end.

(** [v == s] for a string [s] *)
Definition eq_str (v : json) (s : string) : bool :=
  match v with
  | JStr s' => String.eqb s' s
  | _ => false
  end.

(** [s in v] for a string [s] *)
Definition py_in (s : string) (v : json) : result bool :=
  match v with
  | JStr hay => Ok (Str.contains s hay)
  | JList l => Ok (existsb (fun x => eq_str x s) l)
  | JDict d => Ok (dict_mem s d)
  | _ => Error TypeError
  end.

(** [v[k]] for a string [k] *)
Definition getitem (v : json) (k : string) : result json :=
  match v with
  | JDict d =>
      match dict_get k d with
      | Some x => Ok x
      | None => Error (KeyError (JStr k))
      end
  | _ => Error TypeError
  end.

(** [v[0]] *)
Definition getitem0 (v : json) : result json :=
  match v with
  | JList (x :: _) => Ok x
  | JList [] => Error IndexError
  | JStr (String c _) => Ok (JStr (String c ""))
  | JStr EmptyString => Error IndexError
  | JDict _ => Error (KeyError (JInt 0))
  | _ => Error TypeError
  end.

(** ** Record flattening *)

Section Flatten.

(** [str(v)], Python's own; only ever applied to lists *)
Variable py_str : json -> string.

(** [isinstance(v, collections.MutableMapping)] holds of the mappings
    [JDict] alone, [type(v) is list] of the lists [JList] alone *)
Fixpoint flatten (d : json) (parent_key sep : string) : result dict :=
  match d with
  | JDict kvs =>
      (fix loop (kvs : dict) (items : list (string * json)) : result dict :=
         match kvs with
         | [] => Ok (dict_of_items items)
         | (k, v) :: kvs' =>
             let new_key :=
               if negb (String.eqb parent_key "")
               then (parent_key ++ sep ++ k)%string else k in
             match v with
             | JDict _ =>
                 sub <- flatten v new_key sep ;;
                 loop kvs' (items ++ sub)
             | JList _ => loop kvs' (items ++ [(new_key, JStr (py_str v))])
             | _ => loop kvs' (items ++ [(new_key, v)])
             end
         end) kvs []
  | _ => Error (AttributeError "items")
  end.

End Flatten.

(** ** Schema flattening *)

(** [sorted(items, key=lambda item: item[0])]: a stable sort; [str] is
    ordered code point by code point ([String.leb]) *)
Fixpoint insert_sorted (x : string * json) (l : list (string * json))
  : list (string * json) :=
  match l with
  | [] => [x]
  | y :: l' =>
      if String.leb (fst x) (fst y) then x :: l else y :: insert_sorted x l'
  end.

Fixpoint sorted (items : list (string * json)) : list (string * json) :=
  match items with
  | [] => []
  | x :: items' => insert_sorted x (sorted items')
  end.

(** [itertools.groupby(items, key=lambda item: item[0])]: runs of
    consecutive items with the same key *)
Fixpoint groupby (items : list (string * json))
  : list (string * list (string * json)) :=
  match items with
  | [] => []
  | x :: items' =>
      match groupby items' with
      | (k, g) :: gs =>
          if String.eqb (fst x) k then (k, x :: g) :: gs
          else (fst x, [x]) :: (k, g) :: gs
      | [] => [(fst x, [x])]
      end
  end.

(** lines 100 to 102 *)
Fixpoint check_groups (gs : list (string * list (string * json)))
  : result unit :=
  match gs with
  | [] => Ok tt
  | (k, g) :: gs' =>
      if 1 <? List.length g
      then Error (ValueError
                    ("Duplicate column name produced in schema: " ++ k))
      else check_groups gs'
  end.

(** lines 98 to 104 *)
Definition finish_schema (items : list (string * json)) : result dict :=
  let sorted_items := sorted items in
  _ <- check_groups (groupby sorted_items) ;;
  Ok (dict_of_items sorted_items).

(** [["null", t]] *)
Definition nullable (t : string) : json := JList [JStr "null"; JStr t].

Section SchemaLoop.

(** the recursive call [flatten_schema(v, parent_key + [k], sep=sep)]; it
    returns its result and the state it leaves [v] in *)
Variable rec : json -> list string -> string -> result dict * json.

(** the branch without an explicit ["type"], lines 90 to 96, on a
    definition [v]: the items it appends and the state it leaves [v] in.
    [property] is the object [list(v.values())[0][0]] itself, so the
    assignment to [property["type"]] is seen through [v]. *)
Definition first_alternative (new_key : string) (v : json)
  : result (list (string * json)) * json :=
  match v with
  | JDict ((k0, alts) :: v_rest) =>
      match getitem0 alts with
      | Error e => (Error e, v)
      | Ok property =>
          match getitem property "type" with
          | Error e => (Error e, v)
          | Ok ty =>
              let force (t : string) :=
                match alts, property with
                | JList (_ :: alts_rest), JDict p =>
                    let property' := JDict (dict_set "type" (nullable t) p) in
                    (Ok [(new_key, property')],
                     JDict ((k0, JList (property' :: alts_rest)) :: v_rest))
                | _, _ => (Error TypeError, v)
                end in
              if eq_str ty "string" then force "string"
              else if eq_str ty "array" then force "array"
              else (Ok [], v)
          end
      end
  | JDict [] => (Error IndexError, v)
  | _ => (Error (AttributeError "values"), v)
  end.

(** the body of the [for] loop, lines 78 to 96 *)
Definition schema_property (k : string) (v : json)
    (parent_key : list string) (sep : string)
  : result (list (string * json)) * json :=
  let new_key := flatten_key k parent_key sep in
  if negb (truthy v) then
    (* [logger] is bound nowhere in the module *)
    (Error (NameError "logger"), v)
  else
    match v with
    | JDict vkvs =>
        if dict_mem "type" vkvs then
          match ty <- getitem v "type" ;; py_in "object" ty with
          | Error e => (Error e, v)
          | Ok true =>
              let '(r, v') := rec v (parent_key ++ [k]) sep in
              (r, v')
          | Ok false => (Ok [(new_key, v)], v)
          end
        else first_alternative new_key v
    | _ => (Error (AttributeError "keys"), v)
    end.

(** the [for] loop over [d["properties"].items()]: the items collected and
    the state of the properties afterwards *)
Fixpoint schema_loop (props : dict) (parent_key : list string) (sep : string)
  : result (list (string * json)) * dict :=
  match props with
  | [] => (Ok [], [])
  | (k, v) :: props' =>
      let '(r, v') := schema_property k v parent_key sep in
      match r with
      | Error e => (Error e, (k, v') :: props')
      | Ok its =>
          let '(r', props'') := schema_loop props' parent_key sep in
          (its' <- r' ;; Ok (its ++ its'), (k, v') :: props'')
      end
  end.

End SchemaLoop.

(** [flatten_schema] with a bound on the depth of recursion; it returns
    its result together with the state of the schema [d] after the call *)
Fixpoint flatten_schema_rec (fuel : nat) (d : json)
    (parent_key : list string) (sep : string) : result dict * json :=
  match fuel with
  | O => (Error RecursionError, d)
  | S fuel' =>
      match d with
      | JDict dkvs =>
          match dict_get "properties" dkvs with
          | None => (Error (KeyError (JStr "properties")), d)
          | Some (JDict props) =>
              let '(r, props') :=
                schema_loop (flatten_schema_rec fuel') props parent_key sep in
              (items <- r ;; finish_schema items,
               JDict (dict_set "properties" (JDict props') dkvs))
          | Some _ => (Error (AttributeError "items"), d)
          end
      | _ => (Error TypeError, d)
      end
  end.

(** nesting depth of a value *)
Fixpoint depth (v : json) : nat :=
  match v with
  | JList l => S (fold_right (fun x n => Nat.max (depth x) n) 0 l)
  | JDict kvs => S (fold_right (fun kv n => Nat.max (depth (snd kv)) n) 0 kvs)
  | _ => 0
  end.

Definition flatten_schema (d : json) (parent_key : list string) (sep : string)
  : result dict * json :=
  flatten_schema_rec (S (depth d)) d parent_key sep.

(** ** Column types and tables *)

Module sqlalchemy.

Inductive type_ : Type := String | TIMESTAMP | Float | BigInteger | Boolean.

Record Column : Type := mkColumn {
  name : string;
  type : type_;
  primary_key : bool
}.

Record Table : Type := mkTable {
  table_name : string;
  columns : list Column
}.

(** [Table(stream, MetaData(), *columns)]: the columns are attached to the
    table one by one, and a column whose name is blank ([not column.name])
    is refused with an [ArgumentError] *)
Definition new_Table (stream : string) (cols : list Column) : result Table :=
  if existsb (fun c => String.eqb (name c) "") cols
  then Error ArgumentError
  else Ok (mkTable stream cols).

End sqlalchemy.

Definition sqlalchemy_column_type (schema_property : json)
  : result sqlalchemy.type_ :=
  property_type <- getitem schema_property "type" ;;
  property_format <-
    (has_format <- py_in "format" schema_property ;;
     if has_format then getitem schema_property "format" else Ok JNull) ;;
  is_object <- py_in "object" property_type ;;
  if is_object then Ok sqlalchemy.String else
  is_array <- py_in "array" property_type ;;
  if is_array then Ok sqlalchemy.String else
  if eq_str property_format "date-time" then Ok sqlalchemy.TIMESTAMP else
  is_number <- py_in "number" property_type ;;
  if is_number then Ok sqlalchemy.Float else
  is_integer <- py_in "integer" property_type ;;
  is_string <-
    (if is_integer then py_in "string" property_type else Ok false) ;;
  if is_integer && is_string then Ok sqlalchemy.String else
  if is_integer then Ok sqlalchemy.BigInteger else
  is_boolean <- py_in "boolean" property_type ;;
  if is_boolean then Ok sqlalchemy.Boolean else
  Ok sqlalchemy.String.

(** [[Column(name, sqlalchemy_column_type(schema), primary_key=pk) for ...]] *)
Fixpoint build_columns (pk : string -> bool) (flat_schema : dict)
  : result (list sqlalchemy.Column) :=
  match flat_schema with
  | [] => Ok []
  | (name, schema) :: flat_schema' =>
      ty <- sqlalchemy_column_type schema ;;
      columns <- build_columns pk flat_schema' ;;
      Ok (sqlalchemy.mkColumn name ty (pk name) :: columns)
  end.

Definition generate_sqlalchemy_table (stream : string)
    (key_properties : list string) (json_schema : json)
    (timestamp_column : option string) : result sqlalchemy.Table :=
  flat_schema <- fst (flatten_schema json_schema [] "__") ;;
  _ <- build_columns (fun _ => true) flat_schema ;;
  columns <-
    build_columns (fun name => existsb (String.eqb name) key_properties)
      flat_schema ;;
  let columns :=
    match timestamp_column with
    | Some ts =>
        if negb (String.eqb ts "") && negb (dict_mem ts flat_schema)
        then columns ++ [sqlalchemy.mkColumn ts sqlalchemy.TIMESTAMP false]
        else columns
    | None => columns
    end in
  sqlalchemy.new_Table stream columns.


(** ** Notions used to state the properties *)

(** the segments after the first [n] have been abbreviated *)
Definition abbreviated (n : nat) (segments : list string) : list string :=
  List.map reduce_segment (firstn n segments) ++ skipn n segments.

(** a segment of 63 digits, and two names of 65 and 63 characters whose
    words have the same initials *)
Definition digits63 : string :=
  "111111111111111111111111111111111111111111111111111111111111111".
Definition outstanding_invoices : string :=
  "total_amount_of_outstanding_customer_invoices_for_current_quarter".
Definition overdue_invoices : string :=
  "total_amount_of_overdue_customer_invoices_from_current_quarters".

(** [t in property_type] where it raises nothing *)
Definition type_has (t : string) (property_type : json) : bool :=
  match py_in t property_type with
  | Ok b => b
  | Error _ => false
  end.

(** the values on which [in] is defined *)
Definition iterable (v : json) : bool :=
  match v with
  | JStr _ | JList _ | JDict _ => true
  | _ => false
  end.

(** [schema_property.get("format")] *)
Definition format_of (schema_property : json) : json :=
  match schema_property with
  | JDict d => match dict_get "format" d with Some f => f | None => JNull end
  | _ => JNull
  end.

(** the schema and the record of the end-to-end example, as the
    specification writes them, and the schema with the nested object typed *)
Definition example_schema : json :=
  JDict [("properties", JDict [
    ("id", JDict [("type", JStr "integer")]);
    ("info", JDict [("properties", JDict [
       ("weather", JDict [("type", JStr "string")])])])])].

Definition example_schema_typed : json :=
  JDict [("properties", JDict [
    ("id", JDict [("type", JStr "integer")]);
    ("info", JDict [("type", JStr "object");
                    ("properties", JDict [
       ("weather", JDict [("type", JStr "string")])])])])].

Definition example_record : json :=
  JDict [("id", JInt 3); ("info", JDict [("weather", JStr "sunny")])].

(** a schema with an empty definition next to an ordinary one *)
Definition schema_with_empty : json :=
  JDict [("properties", JDict [
    ("a", JDict []);
    ("b", JDict [("type", JStr "string")])])].

(** *** Records: leaves, paths and re-nesting *)

(** the root-to-leaf key paths of a record with the value at each leaf; a
    leaf is any value that is not a mapping *)
Fixpoint leaves (v : json) : list (list string * json) :=
  match v with
  | JDict kvs =>
      (fix go (kvs : list (string * json)) : list (list string * json) :=
         match kvs with
         | [] => []
         | (k, x) :: kvs' =>
             match x with
             | JDict _ => List.map (fun pv => (k :: fst pv, snd pv)) (leaves x)
             | _ => [([k], x)]
             end ++ go kvs'
         end) kvs
  | _ => []
  end.

(** the flat key of a path below [parent_key], built as line 45 builds it *)
Fixpoint extend_key (parent_key sep : string) (path : list string) : string :=
  match path with
  | [] => parent_key
  | k :: path' =>
      extend_key
        (if negb (String.eqb parent_key "")
         then (parent_key ++ sep ++ k)%string else k)
        sep path'
  end.

(** what [flatten] stores for a leaf *)
Definition stored (py_str : json -> string) (v : json) : json :=
  match v with
  | JList _ => JStr (py_str v)
  | _ => v
  end.

(** the record with every list at a leaf replaced by its serialization *)
Fixpoint stringify_lists (py_str : json -> string) (v : json) : json :=
  match v with
  | JDict kvs =>
      JDict ((fix go (kvs : list (string * json)) : list (string * json) :=
                match kvs with
                | [] => []
                | (k, x) :: kvs' => (k, stringify_lists py_str x) :: go kvs'
                end) kvs)
  | JList _ => JStr (py_str v)
  | _ => v
  end.

Fixpoint distinct (l : list string) : bool :=
  match l with
  | [] => true
  | x :: l' => negb (existsb (String.eqb x) l') && distinct l'
  end.

(** every mapping of the record has distinct keys, as a Python [dict] has *)
Fixpoint unique_keys (v : json) : bool :=
  match v with
  | JDict kvs =>
      distinct (List.map fst kvs)
      && (fix go (kvs : list (string * json)) : bool :=
            match kvs with
            | [] => true
            | (_, x) :: kvs' => unique_keys x && go kvs'
            end) kvs
  | _ => true
  end.

(** no mapping nested in the record is empty *)
Fixpoint no_empty_mapping (v : json) : bool :=
  match v with
  | JDict kvs =>
      (fix go (kvs : list (string * json)) : bool :=
         match kvs with
         | [] => true
         | (_, x) :: kvs' =>
             match x with
             | JDict [] => false
             | _ => no_empty_mapping x
             end && go kvs'
         end) kvs
  | _ => true
  end.

Fixpoint list_eqb (a b : list string) : bool :=
  match a, b with
  | [], [] => true
  | x :: a', y :: b' => String.eqb x y && list_eqb a' b'
  | _, _ => false
  end.

(** every key path of the record is recovered by splitting its flat key *)
Definition paths_survive (sep : string) (v : json) : bool :=
  forallb (fun pv => list_eqb (Str.split sep (extend_key "" sep (fst pv)))
                              (fst pv))
          (leaves v).

(** Re-nesting is no function of the module; it is defined here from the
    words of the round-trip property.  The value [v] is put at [path],
    creating the mappings on the way. *)
Fixpoint insert_path (path : list string) (v : json) (d : dict) : dict :=
  match path with
  | [] => d
  | [k] => dict_set k v d
  | k :: path' =>
      let sub := match dict_get k d with
                 | Some (JDict sub) => sub
                 | _ => []
                 end in
      dict_set k (JDict (insert_path path' v sub)) d
  end.

(** re-nesting of a flat mapping: every flat key is split on the separator
    and its value put at the path obtained *)
Definition unflatten (sep : string) (flat : dict) : dict :=
  fold_left (fun d kv => insert_path (Str.split sep (fst kv)) (snd kv) d)
            flat [].

(** a record of depth 2 with a key that contains the separator *)
Definition record_sep_in_key : json :=
  JDict [("a", JDict [("b__c", JInt 1)])].

(** [d.keys()] *)
Definition keys (d : dict) : list string := List.map fst d.

(** [d.update(items)] *)
Definition dict_update (d : dict) (items : list (string * json)) : dict :=
  fold_left (fun d kv => dict_set (fst kv) (snd kv) d) items d.

(** the items a record contributes: one per leaf, under its flat key *)
Definition leaf_items (py_str : json -> string) (parent_key sep : string)
    (v : json) : list (string * json) :=
  List.map (fun pv => (extend_key parent_key sep (fst pv),
                       stored py_str (snd pv)))
           (leaves v).

(** the leaves with the value [flatten] stores for each *)
Definition stored_leaves (py_str : json -> string) (v : json)
  : list (list string * json) :=
  List.map (fun pv => (fst pv, stored py_str (snd pv))) (leaves v).

(** re-nesting of a list of paths with their values *)
Definition renest (l : list (list string * json)) (acc : dict) : dict :=
  fold_left (fun d pv => insert_path (fst pv) (snd pv) d) l acc.

Definition dict_items (v : json) : dict :=
  match v with
  | JDict kvs => kvs
  | _ => []
  end.

(** a record with a nested mapping and an empty list, and [str] on the empty
    list, the only list in it *)
Definition sample_record : list (string * json) :=
  [("id", JInt 3);
   ("info", JDict [("weather", JStr "sunny"); ("tags", JList [])])].

Definition str_of_empty_list : json -> string := fun _ => "[]".

(** *** Schemas: the properties collected, with their source paths *)

(** the message of the error of line 102 *)
Definition duplicate_column (k : string) : exn :=
  ValueError ("Duplicate column name produced in schema: " ++ k).

(** the key of the first two neighbours with the same key *)
Fixpoint first_adjacent_duplicate (items : list (string * json))
  : option string :=
  match items with
  | x :: (y :: _) as items' =>
      if String.eqb (fst x) (fst y) then Some (fst x)
      else first_adjacent_duplicate items'
  | _ => None
  end.

Definition key_le (x y : string * json) : Prop :=
  String.leb (fst x) (fst y) = true.

Definition key_lt (x y : string * json) : Prop :=
  String.ltb (fst x) (fst y) = true.

(** a property that the loop of [flatten_schema] appends: the path of keys
    that leads to it, and the item appended *)
Definition collected : Type := list string * (string * json).
Definition source_path (e : collected) : list string := fst e.
Definition column_name (e : collected) : string := fst (snd e).

Section Collect.

Variable rec : json -> list string -> string -> result (list collected).

(** the body of the loop, lines 78 to 96, recording the source path *)
Definition collect_property (k : string) (v : json)
    (parent_key : list string) (sep : string) : result (list collected) :=
  let new_key := flatten_key k parent_key sep in
  if negb (truthy v) then Error (NameError "logger")
  else
    match v with
    | JDict vkvs =>
        if dict_mem "type" vkvs then
          match ty <- getitem v "type" ;; py_in "object" ty with
          | Error e => Error e
          | Ok true => rec v (parent_key ++ [k]) sep
          | Ok false => Ok [(parent_key ++ [k], (new_key, v))]
          end
        else
          its <- fst (first_alternative new_key v) ;;
          Ok (List.map (fun it => (parent_key ++ [k], it)) its)
    | _ => Error (AttributeError "keys")
    end.

Fixpoint collect_loop (props : dict) (parent_key : list string) (sep : string)
  : result (list collected) :=
  match props with
  | [] => Ok []
  | (k, v) :: props' =>
      its <- collect_property k v parent_key sep ;;
      its' <- collect_loop props' parent_key sep ;;
      Ok (its ++ its')
  end.

End Collect.

(** the traversal of lines 76 to 96 alone, through the nested objects and
    without the check of lines 98 to 104: every property appended, in the
    order of the traversal, with its source path *)
Fixpoint collect_rec (fuel : nat) (d : json) (parent_key : list string)
    (sep : string) : result (list collected) :=
  match fuel with
  | O => Error RecursionError
  | S fuel' =>
      match d with
      | JDict dkvs =>
          match dict_get "properties" dkvs with
          | None => Error (KeyError (JStr "properties"))
          | Some (JDict props) =>
              collect_loop (collect_rec fuel') props parent_key sep
          | Some _ => Error (AttributeError "items")
          end
      | _ => Error TypeError
      end
  end.

Definition collect_properties (d : json) (parent_key : list string)
    (sep : string) : result (list collected) :=
  collect_rec (S (depth d)) d parent_key sep.

(** two distinct source paths flatten to the same column name *)
Definition collides (l : list collected) : Prop :=
  exists e1 e2, In e1 l /\ In e2 l
                /\ source_path e1 <> source_path e2
                /\ column_name e1 = column_name e2.

(** what the loop makes of the properties [l] of its schema: either all of
    them, or the duplicate-column error of a nested call for a name that
    occurs twice *)
Definition outcome (r : result (list (string * json))) (l : list collected)
  : Prop :=
  (exists items, r = Ok items /\ Permutation items (List.map snd l))
  \/ (exists k, r = Error (duplicate_column k)
                /\ 2 <= count_occ string_dec (List.map column_name l) k).

(** what a call makes of them: as the loop, and a mapping is returned only
    when the names are distinct *)
Definition call_outcome (r : result dict) (l : list collected) : Prop :=
  (exists flat, r = Ok flat /\ Permutation flat (List.map snd l)
                /\ NoDup (List.map column_name l))
  \/ (exists k, r = Error (duplicate_column k)
                /\ 2 <= count_occ string_dec (List.map column_name l) k).

(** a schema in which two properties flatten to the same name, and the
    properties collected from it *)
Definition colliding_schema : json :=
  JDict [("properties", JDict [
    ("fooBar", JDict [("type", JStr "string")]);
    ("foo_bar", JDict [("type", JStr "integer")])])].

Definition colliding_collected : list collected :=
  [(["fooBar"], ("foo_bar", JDict [("type", JStr "string")]));
   (["foo_bar"], ("foo_bar", JDict [("type", JStr "integer")]))].

(** a descriptor whose ["type"] is present and supports [in] *)
Definition typed (v : json) : Prop :=
  exists pt, getitem v "type" = Ok pt /\ iterable pt = true.

(** *** Schemas: the state a call leaves its argument in *)

(** [list(v.values())[0][0]["type"]], the type of the first alternative *)
Definition alternative_type (v : json) : result json :=
  match v with
  | JDict ((_, alts) :: _) =>
      property <- getitem0 alts ;; getitem property "type"
  | JDict [] => Error IndexError
  | _ => Error (AttributeError "values")
  end.

(** the type that lines 91 to 96 force on a definition: the definition has
    no explicit ["type"] and the type of its first alternative is
    ['string'] or ['array'] *)
Definition first_alternative_type (v : json) : option string :=
  match v with
  | JDict vkvs =>
      if dict_mem "type" vkvs then None
      else
        match alternative_type v with
        | Ok ty =>
            if eq_str ty "string" then Some "string"
            else if eq_str ty "array" then Some "array"
            else None
        | Error _ => None
        end
  | _ => None
  end.

(** the definition with the type of its first alternative replaced by
    [["null", t]] *)
Definition force_type (t : string) (v : json) : json :=
  match v with
  | JDict ((k0, JList (JDict p :: alts_rest)) :: v_rest) =>
      JDict ((k0, JList (JDict (dict_set "type" (nullable t) p) :: alts_rest))
               :: v_rest)
  | _ => v
  end.

(** the definition has an explicit ["type"] with ['object'] in it *)
Definition object_typed (v : json) : bool :=
  match ty <- getitem v "type" ;; py_in "object" ty with
  | Ok b => b
  | Error _ => false
  end.

(** how a property [kv] of the schema and the same property after the call,
    [kv'], are related *)
Definition state_after (parent_key : list string) (sep : string)
    (kv kv' : string * json) : Prop :=
  fst kv' = fst kv
  /\ match first_alternative_type (snd kv) with
     | Some t => snd kv' = force_type t (snd kv)
     | None =>
         if object_typed (snd kv)
         then snd kv'
              = snd (flatten_schema (snd kv) (parent_key ++ [fst kv]) sep)
         else snd kv' = snd kv
     end.

(** no value inside [v] is a definition on which a type would be forced *)
Fixpoint no_forced_type (v : json) : bool :=
  match first_alternative_type v with
  | Some _ => false
  | None =>
      match v with
      | JDict kvs =>
          (fix go (kvs : list (string * json)) : bool :=
             match kvs with
             | [] => true
             | (_, x) :: kvs' => no_forced_type x && go kvs'
             end) kvs
      | JList l =>
          (fix go (l : list json) : bool :=
             match l with
             | [] => true
             | x :: l' => no_forced_type x && go l'
             end) l
      | _ => true
      end
  end.

(** the visit of a property by the loop, lines 78 to 96: it returns, or it
    raises [e] *)
Definition visit_returns (parent_key : list string) (sep : string)
    (kv : string * json) : Prop :=
  exists its,
    fst (schema_property flatten_schema (fst kv) (snd kv) parent_key sep)
    = Ok its.

Definition visit_raises (parent_key : list string) (sep : string)
    (kv : string * json) (e : exn) : Prop :=
  fst (schema_property flatten_schema (fst kv) (snd kv) parent_key sep)
  = Error e.

(** a schema in which an empty definition follows a property given by
    alternatives, and the schema as the call that raises on it leaves it *)
Definition schema_raising_after_alternatives : list (string * json) :=
  [("properties", JDict [
     ("note", JDict [("anyOf", JList [JDict [("type", JStr "string")];
                                       JDict [("type", JStr "null")]])]);
     ("broken", JDict [])])].

Definition schema_left_after_raising : json :=
  JDict [("properties", JDict [
     ("note", JDict [("anyOf",
        JList [JDict [("type", JList [JStr "null"; JStr "string"])];
               JDict [("type", JStr "null")]])]);
     ("broken", JDict [])])].

(** a schema with a property given by alternatives *)
Definition schema_with_alternatives : list (string * json) :=
  [("properties", JDict [
     ("id", JDict [("type", JStr "integer")]);
     ("note", JDict [("anyOf", JList [JDict [("type", JStr "string")];
                                       JDict [("type", JStr "null")]])])])].



(** every character of [s] satisfies [p] *)
Fixpoint all_chars (p : ascii -> bool) (s : string) : bool :=
  match s with
  | EmptyString => true
  | String a s' => p a && all_chars p s'
  end.

Definition lower_or_digit (c : ascii) : bool :=
  Str.is_lower c || Str.is_digit c.

Definition not_upper (c : ascii) : bool := negb (Str.is_upper c).

(** no two neighbours of [s] are both uppercase *)
Fixpoint no_upper_pair (s : string) : bool :=
  match s with
  | String x (String y _ as s') =>
      negb (Str.is_upper x && Str.is_upper y) && no_upper_pair s'
  | _ => true
  end.

(** no lowercase letter or digit of [s] has an uppercase right neighbour *)
Fixpoint no_lower_upper (s : string) : bool :=
  match s with
  | String x (String y _ as s') =>
      negb (lower_or_digit x && Str.is_upper y) && no_lower_upper s'
  | _ => true
  end.

(** ** Notions used to state further properties *)

(** a value that is neither a mapping nor a list *)
Definition is_scalar (v : json) : bool :=
  match v with
  | JList _ | JDict _ => false
  | _ => true
  end.

(** the value of the last item of [items] with key [k] *)
Definition last_value (k : string) (items : list (string * json))
  : option json :=
  fold_left (fun acc kv => if String.eqb (fst kv) k then Some (snd kv)
                           else acc)
            items None.

(** the record [{k1: {k2: ... {kn: v}}}] *)
Fixpoint nested (path : list string) (v : json) : json :=
  match path with
  | [] => v
  | k :: path' => JDict [(k, nested path' v)]
  end.

(** a character that is neither an uppercase letter nor a hyphen *)
Definition normal_char (c : ascii) : bool :=
  not_upper c && negb (Ascii.eqb c "-").

(** a segment that is not empty and has no uppercase letter and no hyphen *)
Definition normal_segment (s : string) : bool :=
  negb (String.eqb s "") && all_chars normal_char s.

(** a string of ASCII characters: on these [Str.lower] and [Str.upper] are
    [str.lower] and [str.upper], which map other letters too and may map
    one character to several *)
Definition is_ascii (c : ascii) : bool := nat_of_ascii c <? 128.

Definition ascii_only (s : string) : bool := all_chars is_ascii s.

(** [isinstance(v, collections.abc.MutableMapping)] *)
Definition is_mapping (v : json) : bool :=
  match v with JDict _ => true | _ => false end.

(** the names that [sqlalchemy_column_type] looks for in a type *)
Definition type_names : list string :=
  ["object"; "array"; "number"; "integer"; "string"; "boolean"].

(** two lists of types hold the same of these names *)
Definition same_type_names (l1 l2 : list json) : bool :=
  forallb (fun t => Bool.eqb (type_has t (JList l1)) (type_has t (JList l2)))
          type_names.

(** the exception of [sqlalchemy_column_type] on a descriptor, if any *)
Definition column_type_error (schema_property : json) : option exn :=
  match schema_property with
  | JDict d =>
      match dict_get "type" d with
      | None => Some (KeyError (JStr "type"))
      | Some property_type =>
          if iterable property_type then None else Some TypeError
      end
  | _ => Some TypeError
  end.

(** a definition that the loop of [flatten_schema] appends as it is: a
    non-empty mapping whose explicit ["type"] holds no ['object'] *)
Definition plainly_typed (v : json) : bool :=
  match v with
  | JDict vkvs =>
      match dict_get "type" vkvs with
      | Some ty => match py_in "object" ty with
                   | Ok false => true
                   | _ => false
                   end
      | None => false
      end
  | _ => false
  end.

(** the items [its'] are among the items [its], and no name occurs more
    often in [its'] than in [its] *)
Definition fewer (its' its : list (string * json)) : Prop :=
  incl its' its
  /\ forall k, count_occ string_dec (keys its') k
               <= count_occ string_dec (keys its) k.

(** a call leaves a mapping [v] a mapping [v'] with the same ["type"] *)
Definition same_type (v v' : json) : Prop :=
  forall vkvs, v = JDict vkvs ->
  exists vkvs', v' = JDict vkvs'
                /\ dict_get "type" vkvs' = dict_get "type" vkvs.

(** the mapping that [flatten_schema] returns on the schema with
    alternatives, and the schema as the call leaves it *)
Definition flat_with_alternatives : dict :=
  [("id", JDict [("type", JStr "integer")]);
   ("note", JDict [("type", JList [JStr "null"; JStr "string"])])].

Definition schema_with_alternatives_after : json :=
  JDict [("properties", JDict [
     ("id", JDict [("type", JStr "integer")]);
     ("note", JDict [("anyOf",
        JList [JDict [("type", JList [JStr "null"; JStr "string"])];
               JDict [("type", JStr "null")]])])])].

(** a schema with a property whose alternatives are a number or null *)
Definition schema_with_number_alternatives : list (string * json) :=
  [("properties", JDict (
     [("id", JDict [("type", JStr "integer")])]
     ++ ("price", JDict [("anyOf", JList [JDict [("type", JStr "number")];
                                          JDict [("type", JStr "null")]])])
     :: [("name", JDict [("type", JStr "string")])]))].

(** * Properties *)

(** ** Column names *)

Lemma abbreviated_length n l : List.length (abbreviated n l) = List.length l.
Proof.
  unfold abbreviated.
  rewrite length_app, length_map, <- length_app, firstn_skipn. reflexivity.
Qed.

Lemma abbreviated_0 l : abbreviated 0 l = l.
Proof. reflexivity. Qed.

Lemma abbreviated_step i l :
  i < List.length l ->
  list_set i (reduce_segment (nth i (abbreviated i l) "")) (abbreviated i l)
  = abbreviated (S i) l.
Proof.
  revert l. induction i as [|i IH]; intros [|x l] Hlt; simpl in Hlt; try lia.
  - reflexivity.
  - unfold abbreviated in *. simpl.
    rewrite IH by lia. reflexivity.
Qed.

Lemma flatten_key_loop_spec sep l fuel i :
  i + fuel = List.length l ->
  exists n,
    i <= n <= List.length l /\
    flatten_key_loop fuel sep (abbreviated i l) i = abbreviated n l /\
    (String.length (Str.join sep (abbreviated n l)) < 63
     \/ n = List.length l) /\
    (forall m, i <= m < n ->
       63 <= String.length (Str.join sep (abbreviated m l))).
Proof.
  revert i. induction fuel as [|fuel IH]; intros i Hfuel.
  - exists i. simpl. repeat split; lia.
  - cbn [flatten_key_loop]. rewrite abbreviated_length.
    destruct (63 <=? String.length (Str.join sep (abbreviated i l))) eqn:Hlen;
      cbn [andb].
    + assert (Hi : i < List.length l) by lia.
      apply Nat.ltb_lt in Hi as Hi'. rewrite Hi'.
      rewrite abbreviated_step by exact Hi.
      destruct (IH (S i)) as (n & Hn & Heq & Hstop & Hprev); [lia|].
      exists n. split; [lia|]. split; [exact Heq|]. split; [exact Hstop|].
      intros m Hm. destruct (Nat.eq_dec m i) as [->|Hne].
      * apply Nat.leb_le. exact Hlen.
      * apply Hprev. lia.
    + exists i. split; [lia|]. split; [reflexivity|]. split; [|intros; lia].
      left. apply Nat.leb_gt. exact Hlen.
Qed.

(** C2, as the code has it: [flatten_key] abbreviates the inflected
    segments from the left, one per turn, and stops at the first turn where
    the joined name is shorter than 63 characters or when every segment has
    been abbreviated.  The name returned is the join after [n] abbreviations;
    it is shorter than 63 characters unless all segments were abbreviated,
    and no earlier turn was short enough. *)
Theorem flatten_key_abbreviates (k : string) (parent_key : list string)
    (sep : string) :
  let segments := List.map inflect_column_name (parent_key ++ [k]) in
  exists n,
    n <= List.length segments /\
    flatten_key k parent_key sep = Str.join sep (abbreviated n segments) /\
    (String.length (flatten_key k parent_key sep) < 63
     \/ n = List.length segments) /\
    (forall m, m < n ->
       63 <= String.length (Str.join sep (abbreviated m segments))).
Proof.
  intros segments.
  destruct (flatten_key_loop_spec sep segments (List.length segments) 0)
    as (n & Hn & Heq & Hstop & Hprev); [reflexivity|].
  rewrite abbreviated_0 in Heq.
  assert (Hk : flatten_key k parent_key sep
               = Str.join sep (abbreviated n segments)).
  { unfold flatten_key. fold segments. rewrite Heq. reflexivity. }
  exists n. rewrite Hk. split; [lia|]. split; [reflexivity|].
  split; [exact Hstop|].
  intros m Hm. apply Hprev. lia.
Qed.

(** C2 fails as stated: a segment of 63 digits has no lowercase letter to
    strip and comes back 63 characters long, and two distinct names of 65
    and 63 characters whose words have the same initials are both
    abbreviated to those initials. *)
Lemma flatten_key_not_short_not_injective :
  63 <= String.length (Str.join "__" (List.map inflect_column_name [digits63]))
  /\ String.length (flatten_key digits63 [] "__") = 63
  /\ 63 <= String.length
             (Str.join "__" (List.map inflect_column_name
                                      [outstanding_invoices]))
  /\ 63 <= String.length
             (Str.join "__" (List.map inflect_column_name [overdue_invoices]))
  /\ Str.join "__" (List.map inflect_column_name [outstanding_invoices])
     <> Str.join "__" (List.map inflect_column_name [overdue_invoices])
  /\ flatten_key outstanding_invoices [] "__" = "taoocifcq"
  /\ flatten_key overdue_invoices [] "__" = "taoocifcq".
Proof.
  repeat split; try (vm_compute; reflexivity); try (vm_compute; lia).
  vm_compute. discriminate.
Qed.






(** *** Boundaries *)



Lemma all_chars_app p s1 s2 :
  all_chars p (s1 ++ s2) = all_chars p s1 && all_chars p s2.
Proof.
  induction s1 as [|a s1 IH]; simpl; [reflexivity|].
  rewrite IH, andb_assoc. reflexivity.
Qed.

Lemma all_chars_impl (p q : ascii -> bool) s :
  (forall a, p a = true -> q a = true) ->
  all_chars p s = true -> all_chars q s = true.
Proof.
  intros Hpq. induction s as [|a s IH]; simpl; [reflexivity|].
  intros H. apply andb_true_iff in H as [Ha Hs].
  rewrite (Hpq a Ha), (IH Hs). reflexivity.
Qed.



Lemma str_map_id f p s :
  (forall a, p a = true -> f a = a) -> all_chars p s = true -> Str.map f s = s.
Proof.
  intros Hf. induction s as [|a s IH]; simpl; [reflexivity|].
  intros H. apply andb_true_iff in H as [Ha Hs].
  rewrite (Hf a Ha), (IH Hs). reflexivity.
Qed.

(** what [word.replace("-", "_").lower()] makes of one character *)
Lemma lower_replace s :
  Str.lower (Str.replace_char "-" "_" s)
  = Str.map (fun c => Str.lower_char (if Ascii.eqb c "-" then "_"%char else c))
      s.
Proof.
  unfold Str.lower, Str.replace_char.
  induction s as [|a s IH]; simpl; [reflexivity|]. rewrite IH. reflexivity.
Qed.





Lemma no_upper_pair_cons x y s :
  no_upper_pair (String x (String y s))
  = negb (Str.is_upper x && Str.is_upper y) && no_upper_pair (String y s).
Proof. reflexivity. Qed.

Lemma no_lower_upper_cons x y s :
  no_lower_upper (String x (String y s))
  = negb (lower_or_digit x && Str.is_upper y) && no_lower_upper (String y s).
Proof. reflexivity. Qed.

Lemma no_upper_pair_tail x s :
  no_upper_pair (String x s) = true -> no_upper_pair s = true.
Proof.
  destruct s as [|y s]; [reflexivity|]. cbn [no_upper_pair]. intros H.
  apply andb_true_iff in H as [_ H]. exact H.
Qed.

Lemma no_lower_upper_tail x s :
  no_lower_upper (String x s) = true -> no_lower_upper s = true.
Proof.
  destruct s as [|y s]; [reflexivity|]. cbn [no_lower_upper]. intros H.
  apply andb_true_iff in H as [_ H]. exact H.
Qed.

Lemma sub_from_none r repl pos a s :
  Re.match_at r pos (String a s) = None ->
  Re.sub_from r repl 0 pos (String a s)
  = String a (Re.sub_from r repl 0 (S pos) s).
Proof. intros H. cbn [Re.sub_from]. rewrite H. reflexivity. Qed.

Lemma acronym_word_none pos s :
  no_upper_pair s = true -> Re.match_at Inflection.acronym_word pos s = None.
Proof.
  unfold Re.match_at, Inflection.acronym_word.
  cbn [Re.rmatch Re.upper Re.lower].
  destruct s as [|x [|y s]]; cbn [Re.plus_cls no_upper_pair]; intros H.
  - reflexivity.
  - destruct (Str.is_upper x); reflexivity.
  - apply andb_true_iff in H as [H _].
    destruct (Str.is_upper x); [|reflexivity].
    destruct (Str.is_upper y); [discriminate H|reflexivity].
Qed.

Lemma lower_upper_none pos s :
  no_lower_upper s = true -> Re.match_at Inflection.lower_upper pos s = None.
Proof.
  unfold Re.match_at, Inflection.lower_upper.
  cbn [Re.rmatch Re.upper Re.lower_or_digit].
  destruct s as [|x [|y s]]; cbn [no_lower_upper]; intros H.
  - reflexivity.
  - destruct (Str.is_lower x || Str.is_digit x); reflexivity.
  - apply andb_true_iff in H as [H _]. unfold lower_or_digit in H.
    destruct (Str.is_lower x || Str.is_digit x); [|reflexivity].
    destruct (Str.is_upper y); [discriminate H|reflexivity].
Qed.


Lemma sub_acronym_word_id repl s :
  no_upper_pair s = true ->
  forall pos, Re.sub_from Inflection.acronym_word repl 0 pos s = s.
Proof.
  induction s as [|a s IH]; intros H pos; [reflexivity|].
  rewrite sub_from_none by (apply acronym_word_none, H).
  rewrite IH by (apply (no_upper_pair_tail a), H). reflexivity.
Qed.

Lemma sub_lower_upper_id repl s :
  no_lower_upper s = true ->
  forall pos, Re.sub_from Inflection.lower_upper repl 0 pos s = s.
Proof.
  induction s as [|a s IH]; intros H pos; [reflexivity|].
  rewrite sub_from_none by (apply lower_upper_none, H).
  rewrite IH by (apply (no_lower_upper_tail a), H). reflexivity.
Qed.

Lemma not_upper_no_upper_pair s :
  all_chars not_upper s = true -> no_upper_pair s = true.
Proof.
  induction s as [|x s IH]; [reflexivity|]. cbn [all_chars]. intros H.
  apply andb_true_iff in H as [Hx Hs]. specialize (IH Hs).
  destruct s as [|y s]; [reflexivity|]. rewrite no_upper_pair_cons.
  unfold not_upper in Hx. apply negb_true_iff in Hx. rewrite Hx, IH.
  reflexivity.
Qed.

Lemma not_upper_no_lower_upper s :
  all_chars not_upper s = true -> no_lower_upper s = true.
Proof.
  induction s as [|x s IH]; [reflexivity|]. cbn [all_chars]. intros H.
  apply andb_true_iff in H as [Hx Hs]. specialize (IH Hs).
  destruct s as [|y s]; [reflexivity|]. rewrite no_lower_upper_cons.
  cbn [all_chars] in Hs. apply andb_true_iff in Hs as [Hy _].
  unfold not_upper in Hy. apply negb_true_iff in Hy.
  rewrite Hy, andb_false_r, IH. reflexivity.
Qed.

Lemma substring_0_0 s : substring 0 0 s = "".
Proof. destruct s; reflexivity. Qed.









Lemma str_app_assoc (s1 s2 s3 : string) :
  ((s1 ++ s2) ++ s3 = s1 ++ (s2 ++ s3))%string.
Proof.
  induction s1 as [|a s1 IH]; simpl; [reflexivity|]. rewrite IH. reflexivity.
Qed.

Lemma str_length_app (s1 s2 : string) :
  String.length (s1 ++ s2) = String.length s1 + String.length s2.
Proof.
  induction s1 as [|a s1 IH]; simpl; [reflexivity|]. rewrite IH. reflexivity.
Qed.











(** ** Column types *)

Lemma dict_mem_get k d :
  dict_mem k d = match dict_get k d with Some _ => true | None => false end.
Proof.
  induction d as [|[k' v] d IH]; simpl; [reflexivity|].
  destruct (String.eqb k' k); simpl; [reflexivity|exact IH].
Qed.

Lemma py_in_iterable t v :
  iterable v = true -> py_in t v = Ok (type_has t v).
Proof. unfold type_has. destruct v; simpl; intros H; congruence. Qed.

Lemma sqlalchemy_column_type_cascade sp pt :
  getitem sp "type" = Ok pt -> iterable pt = true ->
  sqlalchemy_column_type sp =
  Ok (if type_has "object" pt then sqlalchemy.String
      else if type_has "array" pt then sqlalchemy.String
      else if eq_str (format_of sp) "date-time" then sqlalchemy.TIMESTAMP
      else if type_has "number" pt then sqlalchemy.Float
      else if type_has "integer" pt && type_has "string" pt
           then sqlalchemy.String
      else if type_has "integer" pt then sqlalchemy.BigInteger
      else if type_has "boolean" pt then sqlalchemy.Boolean
      else sqlalchemy.String).
Proof.
  intros Hty Hit. unfold sqlalchemy_column_type. rewrite Hty.
  destruct sp as [| | | | | |d]; try discriminate Hty.
  cbn [bind py_in getitem format_of]. rewrite dict_mem_get.
  rewrite !(py_in_iterable _ pt Hit). cbn [bind].
  destruct (dict_get "format" d) as [f|]; cbn [bind];
    destruct (type_has "object" pt); try reflexivity;
    destruct (type_has "array" pt); try reflexivity;
    destruct (eq_str _ "date-time"); try reflexivity;
    destruct (type_has "number" pt); try reflexivity;
    destruct (type_has "integer" pt); cbn [bind andb];
    rewrite ?(py_in_iterable _ pt Hit); cbn [bind];
    destruct (type_has "string" pt); try reflexivity;
    destruct (type_has "boolean" pt); reflexivity.
Qed.

(** C6: [sqlalchemy_column_type] resolves a descriptor by the first test
    that holds, in the order object, array, format date-time, number,
    integer with string, integer, boolean, and falls back to [String]; a
    descriptor of type [['object']] with format ['date-time'] is a
    [String]. *)
Theorem sqlalchemy_column_type_first_match (sp pt : json) :
  getitem sp "type" = Ok pt -> iterable pt = true ->
  let has t := type_has t pt = true in
  let date_time := eq_str (format_of sp) "date-time" = true in
  let yields ty := sqlalchemy_column_type sp = Ok ty in
  (has "object" -> yields sqlalchemy.String)
  /\ (~ has "object" -> has "array" -> yields sqlalchemy.String)
  /\ (~ has "object" -> ~ has "array" -> date_time ->
      yields sqlalchemy.TIMESTAMP)
  /\ (~ has "object" -> ~ has "array" -> ~ date_time -> has "number" ->
      yields sqlalchemy.Float)
  /\ (~ has "object" -> ~ has "array" -> ~ date_time -> ~ has "number" ->
      has "integer" -> has "string" -> yields sqlalchemy.String)
  /\ (~ has "object" -> ~ has "array" -> ~ date_time -> ~ has "number" ->
      has "integer" -> ~ has "string" -> yields sqlalchemy.BigInteger)
  /\ (~ has "object" -> ~ has "array" -> ~ date_time -> ~ has "number" ->
      ~ has "integer" -> has "boolean" -> yields sqlalchemy.Boolean)
  /\ (~ has "object" -> ~ has "array" -> ~ date_time -> ~ has "number" ->
      ~ has "integer" -> ~ has "boolean" -> yields sqlalchemy.String)
  /\ sqlalchemy_column_type
       (JDict [("type", JList [JStr "object"]); ("format", JStr "date-time")])
     = Ok sqlalchemy.String.
Proof.
  intros Hty Hit has date_time yields. subst has date_time yields. cbv beta.
  rewrite (sqlalchemy_column_type_cascade sp pt Hty Hit).
  destruct (type_has "object" pt), (type_has "array" pt),
    (eq_str (format_of sp) "date-time"), (type_has "number" pt),
    (type_has "integer" pt), (type_has "string" pt),
    (type_has "boolean" pt); cbn [andb];
    repeat split; intros; try reflexivity; try congruence;
    exfalso; auto.
Qed.

Lemma sqlalchemy_column_type_first_match_witness :
  sqlalchemy_column_type
    (JDict [("type", JList [JStr "null"; JStr "integer"])])
  = Ok sqlalchemy.BigInteger.
Proof.
  pose proof (sqlalchemy_column_type_first_match
    (JDict [("type", JList [JStr "null"; JStr "integer"])])
    (JList [JStr "null"; JStr "integer"]) eq_refl eq_refl) as H.
  cbv zeta in H.
  apply H; vm_compute; congruence.
Defined.

(** ** The end-to-end example *)

(** C4, as the code has it: with the nested object declared of type
    ['object'], the schema flattens to exactly the columns [id] and
    [info__weather], and the record flattens to
    [{id: 3, info__weather: "sunny"}]. *)
Theorem example_flattens :
  fst (flatten_schema example_schema_typed [] "__")
  = Ok [("id", JDict [("type", JStr "integer")]);
        ("info__weather", JDict [("type", JStr "string")])]
  /\ forall py_str,
       flatten py_str example_record "" "__"
       = Ok [("id", JInt 3); ("info__weather", JStr "sunny")].
Proof. split; [|intros py_str]; vm_compute; reflexivity. Qed.

(** C4 fails as stated: [info] carries no ["type"], so it is read as a list
    of alternatives and [list(v.values())[0][0]] looks up the key [0] in the
    mapping of its properties. *)
Lemma example_schema_untyped_raises :
  fst (flatten_schema example_schema [] "__") = Error (KeyError (JInt 0))
  /\ ~ exists flat,
         fst (flatten_schema example_schema [] "__") = Ok flat
         /\ List.map fst flat = ["id"; "info__weather"].
Proof.
  split; [vm_compute; reflexivity|].
  intros (flat & H & _). vm_compute in H. discriminate H.
Qed.

(** ** Empty definitions *)

(** an empty definition met first ends the call at once, whatever follows *)
Lemma flatten_schema_empty_first dkvs k v props parent_key sep :
  dict_get "properties" dkvs = Some (JDict ((k, v) :: props)) ->
  truthy v = false ->
  fst (flatten_schema (JDict dkvs) parent_key sep)
  = Error (NameError "logger").
Proof.
  intros Hget Hv. unfold flatten_schema. cbn [flatten_schema_rec].
  rewrite Hget. cbn [schema_loop]. unfold schema_property. rewrite Hv.
  reflexivity.
Qed.

(** C3 on the code: the branch for an empty definition evaluates [logger],
    which the module never binds, so the call ends in a [NameError] and
    returns no mapping for the other properties. *)
Theorem flatten_schema_empty_definition_raises :
  fst (flatten_schema schema_with_empty [] "__") = Error (NameError "logger").
Proof. vm_compute. reflexivity. Qed.

(** ** Dictionaries *)

Lemma dict_of_items_app a b :
  dict_of_items (a ++ b) = dict_update (dict_of_items a) b.
Proof. unfold dict_of_items, dict_update. apply fold_left_app. Qed.

Lemma dict_update_app d a b :
  dict_update d (a ++ b) = dict_update (dict_update d a) b.
Proof. unfold dict_update. apply fold_left_app. Qed.

Lemma dict_update_cons d k v items :
  dict_update d ((k, v) :: items) = dict_update (dict_set k v d) items.
Proof. reflexivity. Qed.

Lemma keys_dict_set k v d x :
  In x (keys (dict_set k v d)) <-> x = k \/ In x (keys d).
Proof.
  induction d as [|[k' v'] d IH]; simpl.
  - intuition.
  - destruct (String.eqb_spec k' k) as [->|Hne]; simpl.
    + intuition.
    + rewrite IH. intuition.
Qed.

Lemma dict_set_absent k v d :
  ~ In k (keys d) -> dict_set k v d = d ++ [(k, v)].
Proof.
  induction d as [|[k' v'] d IH]; simpl; intros Hnin; [reflexivity|].
  destruct (String.eqb_spec k' k) as [->|Hne]; [tauto|].
  rewrite IH by tauto. reflexivity.
Qed.

Lemma dict_set_twice k v v0 d :
  dict_set k v (dict_set k v0 d) = dict_set k v d.
Proof.
  induction d as [|[k' v'] d IH]; simpl.
  - rewrite String.eqb_refl. reflexivity.
  - destruct (String.eqb_spec k' k) as [->|Hne]; simpl.
    + rewrite String.eqb_refl. reflexivity.
    + destruct (String.eqb_spec k' k); [contradiction|]. rewrite IH.
      reflexivity.
Qed.

Lemma dict_set_comm k v k' v' d :
  k <> k' -> In k (keys d) ->
  dict_set k v (dict_set k' v' d) = dict_set k' v' (dict_set k v d).
Proof.
  intros Hne. induction d as [|[k0 v0] d IH]; simpl; intros Hin; [tauto|].
  destruct (String.eqb_spec k0 k') as [->|Hne']; simpl.
  - destruct (String.eqb_spec k' k) as [->|_]; [congruence|]. simpl.
    rewrite String.eqb_refl.
    destruct Hin as [->|Hin]; [congruence|].
    reflexivity.
  - destruct (String.eqb_spec k0 k) as [->|Hne'']; simpl.
    + destruct (String.eqb_spec k k'); [congruence|]. reflexivity.
    + destruct (String.eqb_spec k0 k'); [congruence|].
      rewrite IH by (destruct Hin; [congruence|assumption]). reflexivity.
Qed.

Lemma dict_set_keys_NoDup k v d :
  NoDup (keys d) -> NoDup (keys (dict_set k v d)).
Proof.
  induction d as [|[k' v'] d IH]; simpl; intros Hnd.
  - constructor; [intros []|constructor].
  - inversion Hnd as [|? ? Hnin Hnd']; subst.
    destruct (String.eqb_spec k' k) as [->|Hne]; simpl.
    + constructor; assumption.
    + constructor; [|apply IH; assumption].
      fold (keys (dict_set k v d)). rewrite keys_dict_set.
      intros [->|Hin]; [congruence|contradiction].
Qed.

Lemma dict_update_keys_NoDup items d :
  NoDup (keys d) -> NoDup (keys (dict_update d items)).
Proof.
  revert d. induction items as [|[k v] items IH]; intros d Hnd; [exact Hnd|].
  rewrite dict_update_cons. apply IH, dict_set_keys_NoDup, Hnd.
Qed.

Lemma dict_of_items_keys_NoDup items : NoDup (keys (dict_of_items items)).
Proof. apply (dict_update_keys_NoDup items []). constructor. Qed.

Lemma dict_set_update_swap k v items d :
  In k (keys d) -> ~ In k (keys items) ->
  dict_set k v (dict_update d items) = dict_update (dict_set k v d) items.
Proof.
  revert d. induction items as [|[k' v'] items IH]; intros d Hin Hnin;
    [reflexivity|].
  simpl in Hnin. rewrite !dict_update_cons.
  rewrite IH; [|apply keys_dict_set; tauto|tauto].
  rewrite dict_set_comm; [reflexivity|intros ->; tauto|exact Hin].
Qed.

Lemma dict_update_set k v d items :
  NoDup (keys items) ->
  dict_update d (dict_set k v items) = dict_set k v (dict_update d items).
Proof.
  revert d. induction items as [|[k' v'] items IH]; intros d Hnd;
    [reflexivity|].
  inversion Hnd as [|? ? Hnin Hnd']; subst. simpl.
  destruct (String.eqb_spec k' k) as [->|Hne].
  - rewrite !dict_update_cons.
    rewrite dict_set_update_swap; [|apply keys_dict_set; tauto|exact Hnin].
    rewrite dict_set_twice. reflexivity.
  - rewrite !dict_update_cons. apply IH. exact Hnd'.
Qed.

(** inserting the items of [dict(x)] is inserting the items [x] *)
Lemma dict_update_dict_of_items d x :
  dict_update d (dict_of_items x) = dict_update d x.
Proof.
  induction x as [|[k v] x IH] using rev_ind; [reflexivity|].
  rewrite dict_of_items_app, dict_update_app. simpl.
  rewrite dict_update_set by apply dict_of_items_keys_NoDup.
  rewrite IH. reflexivity.
Qed.

Lemma dict_of_items_nested a x b :
  dict_of_items ((a ++ dict_of_items x) ++ b) = dict_of_items (a ++ x ++ b).
Proof.
  rewrite app_assoc, !dict_of_items_app, dict_update_dict_of_items.
  reflexivity.
Qed.

(** ** Record flattening *)

Section FlattenFacts.
Variable py_str : json -> string.

Lemma leaf_items_nested parent_key sep k sub :
  List.map (fun pv => (extend_key parent_key sep (fst pv),
                       stored py_str (snd pv)))
    (List.map (fun pv => (k :: fst pv, snd pv)) (leaves (JDict sub)))
  = leaf_items py_str
      (if negb (String.eqb parent_key "")
       then (parent_key ++ sep ++ k)%string else k)
      sep (JDict sub).
Proof. unfold leaf_items. rewrite map_map. reflexivity. Qed.

Lemma flatten_leaf_items (d : json) :
  forall kvs parent_key sep, d = JDict kvs ->
  flatten py_str d parent_key sep
  = Ok (dict_of_items (leaf_items py_str parent_key sep d)).
Proof.
  induction d as [| | | | | |kvs0 IH] using json_ind;
    intros kvs parent_key sep Heq; try discriminate Heq.
  clear kvs Heq. unfold leaf_items. cbn [flatten leaves].
  match goal with
  | |- ?loop kvs0 [] = Ok (dict_of_items (List.map ?f (?go kvs0))) =>
      enough (Hloop : forall items,
                 loop kvs0 items
                 = Ok (dict_of_items (items ++ List.map f (go kvs0))))
        by apply (Hloop [])
  end.
  induction IH as [|[k v] kvs' Hv Hkvs IHloop]; intros items.
  - simpl. rewrite app_nil_r. reflexivity.
  - cbn [fst snd] in Hv. simpl.
    destruct v as [| | | | | |sub]; cbn [stored bind];
      try (rewrite IHloop, <- app_assoc; reflexivity).
    rewrite (Hv sub _ sep eq_refl). cbn [bind].
    rewrite IHloop, map_app, leaf_items_nested.
    apply f_equal. apply dict_of_items_nested.
Qed.

End FlattenFacts.


(** ** Flattening and re-nesting *)

Lemma dict_of_items_NoDup items :
  NoDup (keys items) -> dict_of_items items = items.
Proof.
  intros Hnd.
  enough (H : forall d, NoDup (keys (d ++ items)) ->
                        dict_update d items = d ++ items)
    by apply (H []), Hnd.
  clear Hnd. induction items as [|[k v] items IH]; intros d Hnd.
  - rewrite app_nil_r. reflexivity.
  - rewrite dict_update_cons, dict_set_absent.
    + rewrite IH; rewrite <- app_assoc; [reflexivity|exact Hnd].
    + unfold keys in Hnd. rewrite map_app in Hnd. simpl in Hnd.
      apply NoDup_remove_2 in Hnd. intros Hin. apply Hnd.
      apply in_or_app. left. exact Hin.
Qed.

Lemma distinct_NoDup l : distinct l = true -> NoDup l.
Proof.
  induction l as [|x l IH]; simpl; intros H; [constructor|].
  apply andb_true_iff in H as [Hx Hl]. constructor; [|apply IH, Hl].
  intros Hin. apply negb_true_iff in Hx.
  assert (Hex : existsb (String.eqb x) l = true)
    by (apply existsb_exists; exists x; split;
        [exact Hin|apply String.eqb_refl]).
  congruence.
Qed.

Lemma list_eqb_eq a b : list_eqb a b = true -> a = b.
Proof.
  revert b. induction a as [|x a IH]; intros [|y b] H; simpl in H;
    try discriminate; [reflexivity|].
  apply andb_true_iff in H as [Hxy Hab].
  apply String.eqb_eq in Hxy. apply IH in Hab. congruence.
Qed.

Lemma leaves_cons k x kvs :
  leaves (JDict ((k, x) :: kvs))
  = match x with
    | JDict _ => List.map (fun pv => (k :: fst pv, snd pv)) (leaves x)
    | _ => [([k], x)]
    end ++ leaves (JDict kvs).
Proof. reflexivity. Qed.

Lemma unique_keys_cons k x kvs :
  unique_keys (JDict ((k, x) :: kvs)) = true ->
  ~ In k (keys kvs) /\ unique_keys x = true
  /\ unique_keys (JDict kvs) = true.
Proof.
  cbn [unique_keys List.map fst distinct]. intros H.
  apply andb_true_iff in H as [Hd Hgo].
  apply andb_true_iff in Hd as [Hk Hd].
  apply andb_true_iff in Hgo as [Hx Hgo].
  split; [|split; [exact Hx|]].
  - intros Hin. apply negb_true_iff in Hk.
    assert (Hex : existsb (String.eqb k) (List.map fst kvs) = true)
      by (apply existsb_exists; exists k; split;
          [exact Hin|apply String.eqb_refl]).
    congruence.
  - apply andb_true_iff. split; assumption.
Qed.

Lemma no_empty_mapping_cons k x kvs :
  no_empty_mapping (JDict ((k, x) :: kvs)) = true ->
  x <> JDict [] /\ no_empty_mapping x = true
  /\ no_empty_mapping (JDict kvs) = true.
Proof.
  cbn [no_empty_mapping]. intros H. apply andb_true_iff in H as [Hx Hgo].
  split; [|split; [|exact Hgo]].
  - intros ->. discriminate Hx.
  - destruct x as [| | | | | |[|kv sub]]; try exact Hx; reflexivity.
Qed.

Lemma leaves_paths_head kvs p v :
  In (p, v) (leaves (JDict kvs)) ->
  exists k rest, p = k :: rest /\ In k (keys kvs).
Proof.
  induction kvs as [|[k x] kvs IH]; [intros []|].
  rewrite leaves_cons. intros Hin. apply in_app_or in Hin as [Hin|Hin].
  - exists k.
    destruct x; try (destruct Hin as [Hin|[]]; inversion Hin; subst;
                     eexists; split; [reflexivity|left; reflexivity]).
    apply in_map_iff in Hin as (pv & Heq & _). inversion Heq; subst.
    eexists; split; [reflexivity|left; reflexivity].
  - destruct (IH Hin) as (k' & rest & -> & Hk').
    exists k', rest. split; [reflexivity|right; exact Hk'].
Qed.

Lemma leaves_nonempty (d : json) :
  forall kvs, d = JDict kvs -> kvs <> [] -> no_empty_mapping d = true ->
  leaves d <> [].
Proof.
  induction d as [| | | | | |kvs0 IH] using json_ind;
    intros kvs Heq Hne Hnem; try discriminate Heq.
  inversion Heq; subst kvs. destruct IH as [|[k x] kvs' Hx _]; [congruence|].
  apply no_empty_mapping_cons in Hnem as (Hxne & Hxnem & _).
  rewrite leaves_cons. cbn [snd] in Hx.
  destruct x as [| | | | | |sub]; try discriminate.
  specialize (Hx sub eq_refl).
  destruct (leaves (JDict sub)) as [|pv l] eqn:Hl; [|discriminate].
  exfalso. apply Hx; [congruence|exact Hxnem|reflexivity].
Qed.

Lemma leaves_paths_NoDup (d : json) :
  forall kvs, d = JDict kvs -> unique_keys d = true ->
  NoDup (List.map fst (leaves d)).
Proof.
  induction d as [| | | | | |kvs0 IH] using json_ind;
    intros kvs Heq Huk; try discriminate Heq.
  clear kvs Heq. revert Huk.
  induction IH as [|[k x] kvs' Hx _ IHkvs]; intros Huk; [constructor|].
  apply unique_keys_cons in Huk as (Hk & Hux & Hukvs).
  rewrite leaves_cons, map_app. cbn [snd] in Hx.
  apply NoDup_app; [| apply IHkvs, Hukvs |].
  - destruct x as [| | | | | |sub];
      try (constructor; [intros []|constructor]).
    rewrite map_map. cbn [fst].
    rewrite <- (map_map fst (fun p => k :: p)).
    apply NoDup_map_NoDup_ForallPairs; [|apply (Hx sub eq_refl Hux)].
    intros p q _ _ Hpq. congruence.
  - intros p Hp Hq. apply in_map_iff in Hq as ([q v] & <- & Hq).
    apply leaves_paths_head in Hq as (k' & rest & Hq & Hk').
    cbn [fst] in Hp, Hq. apply Hk.
    destruct x;
      try (destruct Hp as [Hp|[]]; cbn [fst] in Hp; subst q;
           injection Hq as -> _; exact Hk').
    apply in_map_iff in Hp as (pv & Hp & Hin).
    apply in_map_iff in Hin as (pv' & Hpv & _). subst. cbn [fst] in Hq.
    congruence.
Qed.

Lemma dict_get_absent k d : ~ In k (keys d) -> dict_get k d = None.
Proof.
  induction d as [|[k' v'] d IH]; simpl; intros Hnin; [reflexivity|].
  destruct (String.eqb_spec k' k) as [->|Hne]; [tauto|]. apply IH. tauto.
Qed.

Lemma dict_get_app_last k v d :
  ~ In k (keys d) -> dict_get k (d ++ [(k, v)]) = Some v.
Proof.
  induction d as [|[k' v'] d IH]; simpl; intros Hnin.
  - rewrite String.eqb_refl. reflexivity.
  - destruct (String.eqb_spec k' k) as [->|Hne]; [tauto|]. apply IH. tauto.
Qed.

Lemma dict_set_app_last k v v0 d :
  ~ In k (keys d) -> dict_set k v (d ++ [(k, v0)]) = d ++ [(k, v)].
Proof.
  induction d as [|[k' v'] d IH]; simpl; intros Hnin.
  - rewrite String.eqb_refl. reflexivity.
  - destruct (String.eqb_spec k' k) as [->|Hne]; [tauto|].
    rewrite IH by tauto. reflexivity.
Qed.

Lemma renest_cons pv l acc :
  renest (pv :: l) acc = renest l (insert_path (fst pv) (snd pv) acc).
Proof. reflexivity. Qed.

Lemma renest_app l1 l2 acc : renest (l1 ++ l2) acc = renest l2 (renest l1 acc).
Proof. unfold renest. apply fold_left_app. Qed.

Lemma renest_under k l :
  forall acc sub,
  ~ In k (keys acc) -> (forall pv, In pv l -> fst pv <> []) ->
  renest (List.map (fun pv => (k :: fst pv, snd pv)) l)
         (acc ++ [(k, JDict sub)])
  = acc ++ [(k, JDict (renest l sub))].
Proof.
  induction l as [|[p v] l IH]; intros acc sub Hk Hne; [reflexivity|].
  cbn [List.map]. rewrite !renest_cons. cbn [fst snd].
  destruct p as [|k2 p]; [exfalso; apply (Hne ([], v)); [left|]; reflexivity|].
  cbn [insert_path]. rewrite dict_get_app_last, dict_set_app_last by exact Hk.
  apply IH; [exact Hk|]. intros pv Hin. apply Hne. right. exact Hin.
Qed.

Lemma renest_first k l acc :
  ~ In k (keys acc) -> l <> [] -> (forall pv, In pv l -> fst pv <> []) ->
  renest (List.map (fun pv => (k :: fst pv, snd pv)) l) acc
  = acc ++ [(k, JDict (renest l []))].
Proof.
  intros Hk Hl Hne. destruct l as [|[p v] l]; [congruence|].
  cbn [List.map]. rewrite !renest_cons. cbn [fst snd].
  destruct p as [|k2 p]; [exfalso; apply (Hne ([], v)); [left|]; reflexivity|].
  cbn [insert_path]. rewrite dict_get_absent, dict_set_absent by exact Hk.
  apply renest_under; [exact Hk|]. intros pv Hin. apply Hne. right. exact Hin.
Qed.

Section RoundTrip.
Variable py_str : json -> string.

Lemma stored_leaves_cons k x kvs :
  stored_leaves py_str (JDict ((k, x) :: kvs))
  = match x with
    | JDict _ =>
        List.map (fun pv => (k :: fst pv, snd pv)) (stored_leaves py_str x)
    | _ => [([k], stored py_str x)]
    end ++ stored_leaves py_str (JDict kvs).
Proof.
  unfold stored_leaves. rewrite leaves_cons, map_app.
  destruct x; try reflexivity. rewrite !map_map. reflexivity.
Qed.

Lemma stored_leaves_path pv kvs :
  In pv (stored_leaves py_str (JDict kvs)) -> fst pv <> [].
Proof.
  unfold stored_leaves. intros Hin.
  apply in_map_iff in Hin as ([p v] & <- & Hin).
  apply leaves_paths_head in Hin as (k & rest & -> & _). discriminate.
Qed.

Lemma stringify_lists_cons k x kvs :
  stringify_lists py_str (JDict ((k, x) :: kvs))
  = JDict ((k, stringify_lists py_str x)
             :: dict_items (stringify_lists py_str (JDict kvs))).
Proof. reflexivity. Qed.

Lemma stringify_lists_dict kvs :
  stringify_lists py_str (JDict kvs)
  = JDict (dict_items (stringify_lists py_str (JDict kvs))).
Proof. reflexivity. Qed.

Lemma renest_stored_leaves (d : json) :
  forall kvs, d = JDict kvs ->
  unique_keys d = true -> no_empty_mapping d = true ->
  forall acc, (forall k, In k (keys kvs) -> ~ In k (keys acc)) ->
  renest (stored_leaves py_str d) acc
  = acc ++ dict_items (stringify_lists py_str d).
Proof.
  induction d as [| | | | | |kvs0 IH] using json_ind;
    intros kvs Heq Huk Hnem; try discriminate Heq.
  inversion Heq; subst kvs; clear Heq. revert Huk Hnem.
  induction IH as [|[k x] kvs' Hx _ IHkvs]; intros Huk Hnem acc Hacc.
  - cbn. rewrite app_nil_r. reflexivity.
  - apply unique_keys_cons in Huk as (Hk & Hux & Hukvs).
    apply no_empty_mapping_cons in Hnem as (Hxne & Hxnem & Hnemkvs).
    rewrite stored_leaves_cons, renest_app, stringify_lists_cons.
    cbn [dict_items snd] in *.
    assert (Hkacc : ~ In k (keys acc)) by (apply Hacc; left; reflexivity).
    assert (Hentry :
      renest match x with
             | JDict _ =>
                 List.map (fun pv => (k :: fst pv, snd pv))
                   (stored_leaves py_str x)
             | _ => [([k], stored py_str x)]
             end acc
      = acc ++ [(k, stringify_lists py_str x)]).
    { destruct x as [| | | | | |sub];
        try (cbn; apply dict_set_absent; exact Hkacc).
      rewrite renest_first.
      - rewrite (Hx sub eq_refl Hux Hxnem []) by (intros ? _ []).
        reflexivity.
      - exact Hkacc.
      - unfold stored_leaves. intros Hnil. apply map_eq_nil in Hnil.
        revert Hnil. apply (leaves_nonempty (JDict sub) sub eq_refl);
          [congruence|exact Hxnem].
      - intros pv. apply stored_leaves_path. }
    rewrite Hentry, IHkvs; [rewrite <- app_assoc; reflexivity| | |];
      try assumption.
    intros k2 Hk2. unfold keys. rewrite map_app, in_app_iff. cbn.
    intros [Hin|[->|[]]]; [|contradiction].
    revert Hin. apply Hacc. right. exact Hk2.
Qed.

Lemma unflatten_leaf_items sep (l : list (list string * json)) :
  forallb (fun pv => list_eqb (Str.split sep (extend_key "" sep (fst pv)))
                              (fst pv)) l = true ->
  forall acc,
  fold_left (fun d kv => insert_path (Str.split sep (fst kv)) (snd kv) d)
    (List.map (fun pv => (extend_key "" sep (fst pv), stored py_str (snd pv)))
       l)
    acc
  = renest (List.map (fun pv => (fst pv, stored py_str (snd pv))) l) acc.
Proof.
  induction l as [|[p v] l IH]; intros Hall acc; [reflexivity|].
  cbn [forallb fst] in Hall. apply andb_true_iff in Hall as [Hp Hl].
  apply list_eqb_eq in Hp. cbn [List.map fold_left fst snd].
  rewrite renest_cons, Hp. cbn [fst snd]. apply IH. exact Hl.
Qed.

Lemma leaf_items_keys_NoDup sep kvs :
  unique_keys (JDict kvs) = true -> paths_survive sep (JDict kvs) = true ->
  NoDup (keys (leaf_items py_str "" sep (JDict kvs))).
Proof.
  intros Huk Hps. unfold keys, leaf_items. rewrite map_map. cbn [fst].
  rewrite <- (map_map fst (extend_key "" sep)).
  apply NoDup_map_NoDup_ForallPairs;
    [|apply (leaves_paths_NoDup (JDict kvs) kvs eq_refl Huk)].
  unfold paths_survive in Hps. rewrite forallb_forall in Hps.
  intros p q Hp Hq Hpq.
  apply in_map_iff in Hp as (pv & <- & Hp).
  apply in_map_iff in Hq as (qv & <- & Hq).
  apply Hps, list_eqb_eq in Hp. apply Hps, list_eqb_eq in Hq.
  congruence.
Qed.

End RoundTrip.

(** C5, as the code has it: when the mappings of the record have distinct
    keys, none of its nested mappings is empty, and every key path is
    recovered by splitting its flat key on the separator, flattening and then
    re-nesting gives back the record, key for key and in order, with every
    list replaced by its serialization and every other value unchanged.
    This holds at every depth. *)
Theorem flatten_then_unflatten (py_str : json -> string)
    (kvs : list (string * json)) (sep : string) :
  unique_keys (JDict kvs) = true ->
  no_empty_mapping (JDict kvs) = true ->
  paths_survive sep (JDict kvs) = true ->
  exists flat,
    flatten py_str (JDict kvs) "" sep = Ok flat
    /\ JDict (unflatten sep flat) = stringify_lists py_str (JDict kvs).
Proof.
  intros Huk Hnem Hps.
  rewrite (flatten_leaf_items py_str (JDict kvs) kvs "" sep eq_refl).
  eexists. split; [reflexivity|].
  rewrite dict_of_items_NoDup by (apply leaf_items_keys_NoDup; assumption).
  unfold unflatten, leaf_items.
  rewrite unflatten_leaf_items by exact Hps.
  fold (stored_leaves py_str (JDict kvs)).
  rewrite (renest_stored_leaves py_str (JDict kvs) kvs eq_refl Huk Hnem [])
    by (intros ? _ []).
  reflexivity.
Qed.

(** C5 fails as stated: in the record [{"a": {"b__c": 1}}], of depth 2, the
    key ["b__c"] contains the separator, and re-nesting splits it in two. *)
Lemma flatten_unflatten_separator_in_key :
  2 <= depth record_sep_in_key
  /\ forall py_str,
       flatten py_str record_sep_in_key "" "__" = Ok [("a__b__c", JInt 1)]
       /\ unflatten "__" [("a__b__c", JInt 1)]
          = [("a", JDict [("b", JDict [("c", JInt 1)])])]
       /\ JDict (unflatten "__" [("a__b__c", JInt 1)])
          <> stringify_lists py_str record_sep_in_key.
Proof.
  split; [vm_compute; lia|]. intros py_str.
  split; [vm_compute; reflexivity|].
  split; [vm_compute; reflexivity|].
  vm_compute. discriminate.
Qed.

Lemma flatten_then_unflatten_witness :
  exists flat,
    flatten str_of_empty_list (JDict sample_record) "" "__" = Ok flat
    /\ JDict (unflatten "__" flat)
       = stringify_lists str_of_empty_list (JDict sample_record).
Proof.
  apply (flatten_then_unflatten str_of_empty_list sample_record "__");
    vm_compute; reflexivity.
Defined.

(** ** The order of strings and [sorted] *)

Lemma ascii_compare_refl a : Ascii.compare a a = Eq.
Proof. unfold Ascii.compare. apply N.compare_refl. Qed.

Lemma ascii_compare_lt_trans a b c :
  Ascii.compare a b = Lt -> Ascii.compare b c = Lt -> Ascii.compare a c = Lt.
Proof.
  unfold Ascii.compare. rewrite !N.compare_lt_iff. apply N.lt_trans.
Qed.

Lemma string_compare_refl s : String.compare s s = Eq.
Proof.
  induction s as [|a s IH]; simpl; [reflexivity|].
  rewrite ascii_compare_refl. exact IH.
Qed.

Lemma string_compare_lt_trans s1 :
  forall s2 s3,
  String.compare s1 s2 = Lt -> String.compare s2 s3 = Lt ->
  String.compare s1 s3 = Lt.
Proof.
  induction s1 as [|a s1 IH]; intros [|b s2] [|c s3]; simpl;
    try discriminate; try reflexivity.
  destruct (Ascii.compare a b) eqn:Hab; try discriminate;
    destruct (Ascii.compare b c) eqn:Hbc; try discriminate; intros H1 H2.
  - apply Ascii.compare_eq_iff in Hab, Hbc. subst.
    rewrite ascii_compare_refl. eapply IH; eassumption.
  - apply Ascii.compare_eq_iff in Hab. subst. rewrite Hbc. reflexivity.
  - apply Ascii.compare_eq_iff in Hbc. subst. rewrite Hab. reflexivity.
  - rewrite (ascii_compare_lt_trans a b c Hab Hbc). reflexivity.
Qed.

Lemma string_leb_cases a b :
  String.leb a b = true <-> a = b \/ String.ltb a b = true.
Proof.
  unfold String.leb, String.ltb.
  destruct (String.compare a b) eqn:Hc; split; intros H; try discriminate;
    try (right; reflexivity); try reflexivity.
  - left. apply String.compare_eq_iff. exact Hc.
  - destruct H as [->|H]; [|discriminate].
    rewrite string_compare_refl in Hc. discriminate.
Qed.

Lemma string_ltb_irrefl a : String.ltb a a = false.
Proof. unfold String.ltb. rewrite string_compare_refl. reflexivity. Qed.

Lemma string_ltb_trans a b c :
  String.ltb a b = true -> String.ltb b c = true -> String.ltb a c = true.
Proof.
  unfold String.ltb.
  destruct (String.compare a b) eqn:Hab; try discriminate.
  destruct (String.compare b c) eqn:Hbc; try discriminate.
  rewrite (string_compare_lt_trans a b c Hab Hbc). reflexivity.
Qed.

Lemma string_leb_trans a b c :
  String.leb a b = true -> String.leb b c = true -> String.leb a c = true.
Proof.
  rewrite !string_leb_cases. intros [->|Hab] [->|Hbc]; auto.
  right. eapply string_ltb_trans; eassumption.
Qed.

Lemma insert_sorted_perm x l : Permutation (insert_sorted x l) (x :: l).
Proof.
  induction l as [|y l IH]; simpl; [reflexivity|].
  destruct (String.leb (fst x) (fst y)); [reflexivity|].
  rewrite IH. apply perm_swap.
Qed.

Lemma sorted_perm items : Permutation (sorted items) items.
Proof.
  induction items as [|x items IH]; simpl; [reflexivity|].
  rewrite insert_sorted_perm, IH. reflexivity.
Qed.

Lemma insert_sorted_sorted x l :
  StronglySorted key_le l -> StronglySorted key_le (insert_sorted x l).
Proof.
  induction 1 as [|y l Hl IH Hy]; simpl.
  - constructor; constructor.
  - destruct (String.leb (fst x) (fst y)) eqn:Hxy.
    + constructor; [constructor; assumption|].
      constructor; [exact Hxy|].
      eapply Forall_impl; [|exact Hy].
      intros z Hz. unfold key_le in *. eapply string_leb_trans; eassumption.
    + constructor; [exact IH|].
      rewrite (insert_sorted_perm x l). constructor; [|exact Hy].
      unfold key_le. destruct (String.leb_total (fst x) (fst y)); congruence.
Qed.

Lemma sorted_sorted items : StronglySorted key_le (sorted items).
Proof.
  induction items as [|x items IH]; simpl; [constructor|].
  apply insert_sorted_sorted, IH.
Qed.

(** ** Grouping and the duplicate check *)

Lemma groupby_head x items :
  exists g gs, groupby (x :: items) = (fst x, x :: g) :: gs.
Proof.
  revert x. induction items as [|y items IH]; intros x.
  - exists [], []. reflexivity.
  - destruct (IH y) as (g & gs & Hy).
    change (groupby (x :: y :: items))
      with (match groupby (y :: items) with
            | (k, g) :: gs =>
                if String.eqb (fst x) k then (k, x :: g) :: gs
                else (fst x, [x]) :: (k, g) :: gs
            | [] => [(fst x, [x])]
            end).
    rewrite Hy. destruct (String.eqb_spec (fst x) (fst y)) as [Heq|Hne].
    + rewrite Heq. eexists _, _. reflexivity.
    + eexists _, _. reflexivity.
Qed.

Lemma check_groups_groupby items :
  check_groups (groupby items)
  = match first_adjacent_duplicate items with
    | Some k => Error (duplicate_column k)
    | None => Ok tt
    end.
Proof.
  induction items as [|x [|y items] IH]; try reflexivity.
  destruct (groupby_head y items) as (g & gs & Hy).
  change (groupby (x :: y :: items))
    with (match groupby (y :: items) with
          | (k, g) :: gs =>
              if String.eqb (fst x) k then (k, x :: g) :: gs
              else (fst x, [x]) :: (k, g) :: gs
          | [] => [(fst x, [x])]
          end).
  cbn [first_adjacent_duplicate]. rewrite Hy in *.
  destruct (String.eqb_spec (fst x) (fst y)) as [Heq|Hne].
  - rewrite Heq. reflexivity.
  - cbn [check_groups List.length Nat.ltb Nat.leb]. exact IH.
Qed.

Lemma first_adjacent_duplicate_some items k :
  first_adjacent_duplicate items = Some k ->
  exists l1 x y l2, items = l1 ++ x :: y :: l2 /\ fst x = k /\ fst y = k.
Proof.
  induction items as [|x [|y items] IH]; try discriminate.
  cbn [first_adjacent_duplicate].
  destruct (String.eqb_spec (fst x) (fst y)) as [Heq|Hne]; intros H.
  - injection H as <-. exists [], x, y, items. auto.
  - destruct (IH H) as (l1 & x' & y' & l2 & -> & Hx & Hy).
    exists (x :: l1), x', y', l2. auto.
Qed.

Lemma first_adjacent_duplicate_none items :
  StronglySorted key_le items -> first_adjacent_duplicate items = None ->
  StronglySorted key_lt items.
Proof.
  induction 1 as [|x l Hl IH Hx]; intros Hnone; [constructor|].
  destruct l as [|y l]; [constructor; constructor|].
  cbn [first_adjacent_duplicate] in Hnone.
  destruct (String.eqb_spec (fst x) (fst y)) as [Heq|Hne]; [discriminate|].
  specialize (IH Hnone). constructor; [exact IH|].
  assert (Hxy : key_lt x y).
  { inversion Hx as [|? ? Hxy _]; subst. unfold key_le in Hxy.
    apply string_leb_cases in Hxy as [Heq|Hlt]; [contradiction|exact Hlt]. }
  constructor; [exact Hxy|].
  inversion IH as [|? ? _ Hy]; subst.
  eapply Forall_impl; [|exact Hy].
  intros z Hz. unfold key_lt in *. eapply string_ltb_trans; eassumption.
Qed.

Lemma key_lt_NoDup items : StronglySorted key_lt items -> NoDup (keys items).
Proof.
  induction 1 as [|x l Hl IH Hx]; simpl; constructor; [|exact IH].
  intros Hin. apply in_map_iff in Hin as (y & Hy & Hin).
  rewrite Forall_forall in Hx. specialize (Hx y Hin). unfold key_lt in Hx.
  rewrite Hy, string_ltb_irrefl in Hx. discriminate.
Qed.

Lemma perm_count (l1 l2 : list string) k :
  Permutation l1 l2 ->
  count_occ string_dec l1 k = count_occ string_dec l2 k.
Proof. intros H. apply (Permutation_count_occ string_dec l1 l2). exact H. Qed.

Lemma finish_schema_spec items :
  (NoDup (keys items) /\ finish_schema items = Ok (sorted items)
   /\ StronglySorted key_lt (sorted items))
  \/ (exists k, finish_schema items = Error (duplicate_column k)
                /\ 2 <= count_occ string_dec (keys items) k).
Proof.
  unfold finish_schema. rewrite check_groups_groupby.
  destruct (first_adjacent_duplicate (sorted items)) as [k|] eqn:Hdup.
  - right. exists k. split; [reflexivity|].
    apply first_adjacent_duplicate_some in Hdup
      as (l1 & x & y & l2 & Hs & Hx & Hy).
    unfold keys.
    rewrite <- (perm_count _ _ k (Permutation_map fst (sorted_perm items))).
    rewrite Hs, map_app, count_occ_app. cbn [List.map].
    rewrite !count_occ_cons_eq by assumption. lia.
  - left.
    pose proof (first_adjacent_duplicate_none _ (sorted_sorted items) Hdup)
      as Hlt.
    pose proof (key_lt_NoDup _ Hlt) as Hnd.
    split; [|split; [|exact Hlt]].
    + eapply Permutation_NoDup; [|exact Hnd].
      apply Permutation_map, sorted_perm.
    + cbn [bind]. rewrite dict_of_items_NoDup by exact Hnd. reflexivity.
Qed.

(** ** Schema flattening against the properties collected *)

Lemma count_occ_app_l (l1 l2 : list string) k n :
  n <= count_occ string_dec l1 k -> n <= count_occ string_dec (l1 ++ l2) k.
Proof. rewrite count_occ_app. lia. Qed.

Lemma count_occ_app_r (l1 l2 : list string) k n :
  n <= count_occ string_dec l2 k -> n <= count_occ string_dec (l1 ++ l2) k.
Proof. rewrite count_occ_app. lia. Qed.

Section AgainstCollected.

Variable rec_f : json -> list string -> string -> result dict * json.
Variable rec_c : json -> list string -> string -> result (list collected).
Hypothesis rec_outcome :
  forall v parent_key sep l,
  rec_c v parent_key sep = Ok l ->
  call_outcome (fst (rec_f v parent_key sep)) l.

Lemma schema_property_outcome k v parent_key sep l :
  collect_property rec_c k v parent_key sep = Ok l ->
  outcome (fst (schema_property rec_f k v parent_key sep)) l.
Proof.
  unfold collect_property, schema_property.
  destruct (negb (truthy v)); [discriminate|].
  destruct v as [| | | | | |vkvs]; try discriminate.
  destruct (dict_mem "type" vkvs).
  - destruct (ty <- getitem (JDict vkvs) "type" ;; py_in "object" ty)
      as [[|]|e]; try discriminate.
    + intros Hc. apply rec_outcome in Hc.
      destruct (rec_f (JDict vkvs) (parent_key ++ [k]) sep) as [r v'].
      destruct Hc as [(flat & Hr & Hperm & _)|Hdup]; [left|right; exact Hdup].
      exists flat. split; assumption.
    + intros Hc. injection Hc as <-. left. eexists. split; reflexivity.
  - destruct (first_alternative (flatten_key k parent_key sep) (JDict vkvs))
      as [[its|e] v']; cbn [fst bind]; try discriminate.
    intros Hc. injection Hc as <-. left. exists its. split; [reflexivity|].
    rewrite map_map. cbn [snd]. rewrite map_id. reflexivity.
Qed.

Lemma schema_loop_outcome props parent_key sep :
  forall l,
  collect_loop rec_c props parent_key sep = Ok l ->
  outcome (fst (schema_loop rec_f props parent_key sep)) l.
Proof.
  induction props as [|[k v] props IH]; intros l; cbn [collect_loop].
  - intros Hc. injection Hc as <-. left. exists []. split; reflexivity.
  - destruct (collect_property rec_c k v parent_key sep) as [l1|e] eqn:Hp;
      cbn [bind]; [|discriminate].
    destruct (collect_loop rec_c props parent_key sep) as [l2|e] eqn:Hl;
      cbn [bind]; [|discriminate].
    intros Hc. injection Hc as <-.
    apply schema_property_outcome in Hp. specialize (IH l2 eq_refl).
    cbn [schema_loop].
    destruct (schema_property rec_f k v parent_key sep) as [r v'].
    cbn [fst] in Hp.
    destruct Hp as [(its & -> & Hperm)|(dup & -> & Hcount)].
    + destruct (schema_loop rec_f props parent_key sep) as [r' props'].
      cbn [fst] in *.
      destruct IH as [(its' & -> & Hperm')|(dup & -> & Hcount)].
      * left. exists (its ++ its'). split; [reflexivity|].
        rewrite map_app. apply Permutation_app; assumption.
      * right. exists dup. split; [reflexivity|].
        rewrite map_app. apply count_occ_app_r, Hcount.
    + right. exists dup. split; [reflexivity|].
      rewrite map_app. apply count_occ_app_l, Hcount.
Qed.

End AgainstCollected.

Lemma flatten_schema_rec_outcome fuel :
  forall d parent_key sep l,
  collect_rec fuel d parent_key sep = Ok l ->
  call_outcome (fst (flatten_schema_rec fuel d parent_key sep)) l.
Proof.
  induction fuel as [|fuel IH]; intros d parent_key sep l; [discriminate|].
  cbn [collect_rec flatten_schema_rec].
  destruct d as [| | | | | |dkvs]; try discriminate.
  destruct (dict_get "properties" dkvs) as [[| | | | | |props]|];
    try discriminate.
  intros Hc.
  apply (schema_loop_outcome (flatten_schema_rec fuel) _ IH) in Hc.
  destruct (schema_loop (flatten_schema_rec fuel) props parent_key sep)
    as [r props'].
  cbn [fst] in *.
  destruct Hc as [(items & -> & Hperm)|(dup & -> & Hcount)]; cbn [bind].
  - assert (Hkeys : Permutation (keys items) (List.map column_name l)).
    { unfold keys. rewrite (Permutation_map fst Hperm), map_map.
      reflexivity. }
    destruct (finish_schema_spec items)
      as [(Hnd & -> & _)|(dup & -> & Hcount)].
    + left. eexists. split; [reflexivity|]. split.
      * rewrite sorted_perm. exact Hperm.
      * eapply Permutation_NoDup; eassumption.
    + right. exists dup. split; [reflexivity|].
      rewrite <- (perm_count _ _ dup Hkeys). exact Hcount.
  - right. exists dup. split; [reflexivity|exact Hcount].
Qed.

(** *** Source paths are distinct *)

Lemma unique_keys_get k v dkvs :
  unique_keys (JDict dkvs) = true -> dict_get k dkvs = Some v ->
  unique_keys v = true.
Proof.
  induction dkvs as [|[k' v'] dkvs IH]; [discriminate|].
  intros Huk. apply unique_keys_cons in Huk as (_ & Hv' & Hrest).
  cbn [dict_get]. destruct (String.eqb k' k).
  - intros H. injection H as <-. exact Hv'.
  - apply IH, Hrest.
Qed.

Lemma first_alternative_items new_key v its :
  fst (first_alternative new_key v) = Ok its ->
  its = [] \/ exists x, its = [x].
Proof.
  unfold first_alternative.
  destruct v as [| | | | | |[|[k0 alts] v_rest]]; try discriminate.
  destruct (getitem0 alts) as [property|e]; [|discriminate].
  destruct (getitem property "type") as [ty|e]; [|discriminate].
  destruct (eq_str ty "string"), (eq_str ty "array");
    destruct alts as [| | | | |[|a alts]|], property; cbn [fst];
    intros H; try discriminate H; injection H as <-; eauto.
Qed.

Section Paths.

Variable rec_c : json -> list string -> string -> result (list collected).
Hypothesis rec_paths :
  forall v parent_key sep l,
  unique_keys v = true -> rec_c v parent_key sep = Ok l ->
  NoDup (List.map source_path l)
  /\ forall e, In e l ->
       exists k rest, source_path e = parent_key ++ k :: rest.

Lemma collect_property_paths k v parent_key sep l :
  unique_keys v = true ->
  collect_property rec_c k v parent_key sep = Ok l ->
  NoDup (List.map source_path l)
  /\ forall e, In e l -> exists rest, source_path e = parent_key ++ k :: rest.
Proof.
  intros Huk. unfold collect_property.
  destruct (negb (truthy v)); [discriminate|].
  destruct v as [| | | | | |vkvs]; try discriminate.
  destruct (dict_mem "type" vkvs).
  - destruct (ty <- getitem (JDict vkvs) "type" ;; py_in "object" ty)
      as [[|]|e]; try discriminate.
    + intros Hc. apply rec_paths in Hc as [Hnd Hpre]; [|exact Huk].
      split; [exact Hnd|]. intros e He.
      destruct (Hpre e He) as (k' & rest & ->).
      exists (k' :: rest). rewrite <- app_assoc. reflexivity.
    + intros Hc. injection Hc as <-. split.
      * constructor; [intros []|constructor].
      * intros e [<-|[]]. exists []. reflexivity.
  - destruct (fst (first_alternative (flatten_key k parent_key sep)
                     (JDict vkvs))) as [its|e] eqn:Hfa; [|discriminate].
    cbn [bind]. intros Hc. injection Hc as <-.
    apply first_alternative_items in Hfa as [->|[x ->]]; cbn [List.map].
    + split; [constructor|intros e []].
    + split; [constructor; [intros []|constructor]|].
      intros e [<-|[]]. exists []. reflexivity.
Qed.

Lemma collect_loop_paths props parent_key sep :
  forall l,
  unique_keys (JDict props) = true ->
  collect_loop rec_c props parent_key sep = Ok l ->
  NoDup (List.map source_path l)
  /\ forall e, In e l ->
       exists k rest, source_path e = parent_key ++ k :: rest
                      /\ In k (keys props).
Proof.
  induction props as [|[k v] props IH]; intros l Huk; cbn [collect_loop].
  - intros Hc. injection Hc as <-. split; [constructor|intros e []].
  - apply unique_keys_cons in Huk as (Hk & Hv & Hprops).
    destruct (collect_property rec_c k v parent_key sep) as [l1|e] eqn:Hp;
      cbn [bind]; [|discriminate].
    destruct (collect_loop rec_c props parent_key sep) as [l2|e] eqn:Hl;
      cbn [bind]; [|discriminate].
    intros Hc. injection Hc as <-.
    apply collect_property_paths in Hp as [Hnd1 Hpre1]; [|exact Hv].
    destruct (IH l2 Hprops eq_refl) as [Hnd2 Hpre2].
    split.
    + rewrite map_app. apply NoDup_app; [exact Hnd1|exact Hnd2|].
      intros p Hp1 Hp2.
      apply in_map_iff in Hp1 as (e1 & <- & He1).
      apply in_map_iff in Hp2 as (e2 & Heq & He2).
      destruct (Hpre1 e1 He1) as (rest1 & H1).
      destruct (Hpre2 e2 He2) as (k2 & rest2 & H2 & Hk2).
      rewrite H1, H2 in Heq. apply app_inv_head in Heq.
      injection Heq as -> _. contradiction.
    + intros e He. apply in_app_or in He as [He|He].
      * destruct (Hpre1 e He) as (rest & ->).
        exists k, rest. split; [reflexivity|left; reflexivity].
      * destruct (Hpre2 e He) as (k2 & rest & -> & Hk2).
        exists k2, rest. split; [reflexivity|right; exact Hk2].
Qed.

End Paths.

Lemma collect_rec_paths fuel :
  forall d parent_key sep l,
  unique_keys d = true -> collect_rec fuel d parent_key sep = Ok l ->
  NoDup (List.map source_path l)
  /\ forall e, In e l ->
       exists k rest, source_path e = parent_key ++ k :: rest.
Proof.
  induction fuel as [|fuel IH]; intros d parent_key sep l Huk; [discriminate|].
  cbn [collect_rec].
  destruct d as [| | | | | |dkvs]; try discriminate.
  destruct (dict_get "properties" dkvs) as [[| | | | | |props]|] eqn:Hget;
    try discriminate.
  intros Hc.
  apply (collect_loop_paths (collect_rec fuel) IH) in Hc as [Hnd Hpre].
  - split; [exact Hnd|]. intros e He.
    destruct (Hpre e He) as (k & rest & -> & _). eauto.
  - apply (unique_keys_get "properties" _ dkvs Huk Hget).
Qed.

Lemma two_occurrences (l : list collected) k :
  2 <= count_occ string_dec (List.map column_name l) k ->
  NoDup (List.map source_path l) ->
  exists e1 e2, In e1 l /\ In e2 l
                /\ source_path e1 <> source_path e2
                /\ column_name e1 = k /\ column_name e2 = k.
Proof.
  induction l as [|e l IH]; cbn [List.map]; [cbn; lia|].
  intros Hcount Hnd. inversion Hnd as [|? ? Hnin Hnd']; subst.
  destruct (string_dec (column_name e) k) as [Heq|Hne].
  - rewrite count_occ_cons_eq in Hcount by exact Heq.
    assert (Hin : In k (List.map column_name l))
      by (apply (count_occ_In string_dec); lia).
    apply in_map_iff in Hin as (e2 & He2 & Hin).
    exists e, e2. repeat split; auto; [left; reflexivity|right; exact Hin|].
    intros Hp. apply Hnin. rewrite Hp. apply in_map. exact Hin.
  - rewrite count_occ_cons_neq in Hcount by exact Hne.
    destruct (IH Hcount Hnd') as (e1 & e2 & H1 & H2 & H).
    exists e1, e2. repeat split; try (right; assumption); apply H.
Qed.

Lemma collides_not_NoDup (l : list collected) :
  collides l -> ~ NoDup (List.map column_name l).
Proof.
  intros (e1 & e2 & H1 & H2 & Hp & Hn) Hnd. apply Hp. f_equal.
  clear Hp. induction l as [|e l IH]; [destruct H1|].
  cbn [List.map] in Hnd. inversion Hnd as [|? ? Hnin Hnd']; subst.
  destruct H1 as [->|H1], H2 as [->|H2]; auto.
  - exfalso. apply Hnin. rewrite Hn. apply in_map. exact H2.
  - exfalso. apply Hnin. rewrite <- Hn. apply in_map. exact H1.
Qed.

(** C1: the properties that the traversal of a schema collects come from
    distinct source paths.  When two of them flatten to the same column
    name, [flatten_schema] raises the duplicate-column error, and the column
    it names is one that two distinct paths flatten to; when no two do, it
    raises no error and returns a mapping with every collected property in
    it. *)
Theorem flatten_schema_duplicate_columns (d : json)
    (parent_key : list string) (sep : string) (l : list collected) :
  unique_keys d = true ->
  collect_properties d parent_key sep = Ok l ->
  NoDup (List.map source_path l)
  /\ (collides l ->
      exists k,
        fst (flatten_schema d parent_key sep)
        = Error (ValueError
                   ("Duplicate column name produced in schema: " ++ k))
        /\ exists e1 e2, In e1 l /\ In e2 l
             /\ source_path e1 <> source_path e2
             /\ column_name e1 = k /\ column_name e2 = k)
  /\ (~ collides l ->
      exists flat,
        fst (flatten_schema d parent_key sep) = Ok flat
        /\ Permutation flat (List.map snd l)).
Proof.
  unfold collect_properties, flatten_schema. intros Huk Hc.
  pose proof (collect_rec_paths _ _ _ _ _ Huk Hc) as [Hnd _].
  pose proof (flatten_schema_rec_outcome _ _ _ _ _ Hc) as Hout.
  split; [exact Hnd|]. split.
  - intros Hcol.
    destruct Hout as [(flat & _ & _ & Hnames)|(k & Hr & Hcount)].
    + exfalso. revert Hnames. apply collides_not_NoDup, Hcol.
    + exists k. split; [exact Hr|]. apply two_occurrences; assumption.
  - intros Hncol.
    destruct Hout as [(flat & Hr & Hperm & _)|(k & _ & Hcount)].
    + exists flat. split; assumption.
    + exfalso. apply Hncol.
      destruct (two_occurrences l k Hcount Hnd)
        as (e1 & e2 & H1 & H2 & Hp & Hn1 & Hn2).
      exists e1, e2. repeat split; auto. congruence.
Qed.

Lemma flatten_schema_duplicate_columns_witness :
  exists k,
    fst (flatten_schema colliding_schema [] "__")
    = Error (ValueError ("Duplicate column name produced in schema: " ++ k))
    /\ exists e1 e2,
         In e1 colliding_collected /\ In e2 colliding_collected
         /\ source_path e1 <> source_path e2
         /\ column_name e1 = k /\ column_name e2 = k.
Proof.
  apply (flatten_schema_duplicate_columns colliding_schema [] "__"
           colliding_collected);
    [vm_compute; reflexivity|vm_compute; reflexivity|].
  exists (["fooBar"], ("foo_bar", JDict [("type", JStr "string")])),
         (["foo_bar"], ("foo_bar", JDict [("type", JStr "integer")])).
  repeat split;
    [left; reflexivity|right; left; reflexivity|discriminate].
Defined.

(** ** What a returned mapping holds *)

Lemma finish_schema_ok items flat :
  finish_schema items = Ok flat ->
  flat = sorted items /\ NoDup (keys items) /\ StronglySorted key_lt flat.
Proof.
  intros H.
  destruct (finish_schema_spec items) as [(Hnd & Heq & Hs)|(k & Heq & _)];
    rewrite Heq in H; [|discriminate].
  injection H as <-. auto.
Qed.

Lemma dict_get_set_same k v d : dict_get k (dict_set k v d) = Some v.
Proof.
  induction d as [|[k' v'] d IH]; simpl.
  - rewrite String.eqb_refl. reflexivity.
  - destruct (String.eqb k' k) eqn:Hk; simpl.
    + rewrite String.eqb_refl. reflexivity.
    + rewrite Hk. exact IH.
Qed.

Lemma first_alternative_typed new_key v its :
  fst (first_alternative new_key v) = Ok its ->
  Forall (fun kv => typed (snd kv)) its.
Proof.
  unfold first_alternative.
  destruct v as [| | | | | |[|[k0 alts] v_rest]]; try discriminate.
  destruct (getitem0 alts) as [property|e]; [|discriminate].
  destruct (getitem property "type") as [ty|e]; [|discriminate].
  assert (Hforced : forall t,
    Forall (fun kv => typed (snd kv))
      [(new_key, JDict (dict_set "type" (nullable t)
                          (dict_items property)))]).
  { intros t. constructor; [|constructor]. exists (nullable t).
    cbn [snd getitem]. rewrite dict_get_set_same. split; reflexivity. }
  destruct (eq_str ty "string"), (eq_str ty "array");
    destruct alts as [| | | | |[|a alts]|], property; cbn [fst];
    intros H; try discriminate H; injection H as <-;
    try apply Hforced; constructor.
Qed.

Section Typed.

Variable rec_f : json -> list string -> string -> result dict * json.
Hypothesis rec_typed :
  forall v parent_key sep flat,
  fst (rec_f v parent_key sep) = Ok flat ->
  Forall (fun kv => typed (snd kv)) flat.

Lemma schema_property_typed k v parent_key sep its :
  fst (schema_property rec_f k v parent_key sep) = Ok its ->
  Forall (fun kv => typed (snd kv)) its.
Proof.
  unfold schema_property.
  destruct (negb (truthy v)); [discriminate|].
  destruct v as [| | | | | |vkvs]; try discriminate.
  destruct (dict_mem "type" vkvs).
  - destruct (getitem (JDict vkvs) "type") as [ty|e] eqn:Hty; cbn [bind];
      [|discriminate].
    destruct (py_in "object" ty) as [[|]|e] eqn:Hin; try discriminate.
    + destruct (rec_f (JDict vkvs) (parent_key ++ [k]) sep) as [r v'] eqn:Hr.
      cbn [fst]. intros ->.
      apply (rec_typed (JDict vkvs) (parent_key ++ [k]) sep).
      rewrite Hr. reflexivity.
    + cbn [fst]. intros H. injection H as <-.
      constructor; [|constructor]. exists ty. split; [exact Hty|].
      destruct ty; try discriminate Hin; reflexivity.
  - apply first_alternative_typed.
Qed.

Lemma schema_loop_typed props parent_key sep :
  forall items,
  fst (schema_loop rec_f props parent_key sep) = Ok items ->
  Forall (fun kv => typed (snd kv)) items.
Proof.
  induction props as [|[k v] props IH]; intros items; cbn [schema_loop].
  - cbn [fst]. intros H. injection H as <-. constructor.
  - destruct (schema_property rec_f k v parent_key sep) as [[its|e] v'] eqn:Hp;
      [|discriminate].
    destruct (schema_loop rec_f props parent_key sep) as [[its'|e] props'];
      cbn [fst bind]; [|discriminate].
    intros H. injection H as <-. apply Forall_app. split.
    + apply (schema_property_typed k v parent_key sep). rewrite Hp.
      reflexivity.
    + apply IH. reflexivity.
Qed.

End Typed.

Lemma flatten_schema_rec_typed fuel :
  forall d parent_key sep flat,
  fst (flatten_schema_rec fuel d parent_key sep) = Ok flat ->
  Forall (fun kv => typed (snd kv)) flat.
Proof.
  induction fuel as [|fuel IH]; intros d parent_key sep flat; [discriminate|].
  cbn [flatten_schema_rec].
  destruct d as [| | | | | |dkvs]; try discriminate.
  destruct (dict_get "properties" dkvs) as [[| | | | | |props]|];
    try discriminate.
  destruct (schema_loop (flatten_schema_rec fuel) props parent_key sep)
    as [[items|e] props'] eqn:Hloop; cbn [fst bind]; [|discriminate].
  intros H. apply finish_schema_ok in H as (-> & _ & _).
  rewrite sorted_perm.
  apply (schema_loop_typed (flatten_schema_rec fuel) IH props parent_key sep).
  rewrite Hloop. reflexivity.
Qed.

Lemma flatten_schema_sorted d parent_key sep flat :
  fst (flatten_schema d parent_key sep) = Ok flat ->
  StronglySorted key_lt flat.
Proof.
  unfold flatten_schema. cbn [flatten_schema_rec].
  destruct d as [| | | | | |dkvs]; try discriminate.
  destruct (dict_get "properties" dkvs) as [[| | | | | |props]|];
    try discriminate.
  destruct (schema_loop _ props parent_key sep) as [[items|e] props'];
    cbn [fst bind]; [|discriminate].
  intros H. apply finish_schema_ok in H as (_ & _ & H). exact H.
Qed.

(** ** Tables *)

Lemma sqlalchemy_column_type_typed v :
  typed v -> exists ty, sqlalchemy_column_type v = Ok ty.
Proof.
  intros (pt & Hty & Hit).
  rewrite (sqlalchemy_column_type_cascade v pt Hty Hit). eauto.
Qed.

Lemma build_columns_typed pk flat :
  Forall (fun kv => typed (snd kv)) flat ->
  exists columns,
    build_columns pk flat = Ok columns
    /\ List.map sqlalchemy.name columns = keys flat
    /\ Forall2 (fun c kv => sqlalchemy_column_type (snd kv)
                            = Ok (sqlalchemy.type c)) columns flat
    /\ Forall (fun c => sqlalchemy.primary_key c = pk (sqlalchemy.name c))
         columns.
Proof.
  induction 1 as [|[name schema] flat Hx _ (columns & Hb & Hn & Ht & Hp)].
  - exists []. repeat split; constructor.
  - cbn [snd] in Hx.
    destruct (sqlalchemy_column_type_typed schema Hx) as (ty & Hty).
    exists (sqlalchemy.mkColumn name ty (pk name) :: columns).
    cbn [build_columns]. rewrite Hty, Hb. cbn [bind].
    repeat split.
    + cbn. rewrite Hn. reflexivity.
    + constructor; [exact Hty|exact Ht].
    + constructor; [reflexivity|exact Hp].
Qed.

Lemma dict_mem_In k d : dict_mem k d = true <-> In k (keys d).
Proof.
  induction d as [|[k' v] d IH]; simpl; [split; [discriminate|tauto]|].
  rewrite orb_true_iff, IH, String.eqb_eq. tauto.
Qed.

Lemma existsb_eqb_In name l :
  existsb (String.eqb name) l = true <-> In name l.
Proof.
  rewrite existsb_exists. split.
  - intros (x & Hin & Heq). apply String.eqb_eq in Heq. subst. exact Hin.
  - intros Hin. exists name. split; [exact Hin|apply String.eqb_refl].
Qed.

Lemma new_Table_blank stream cols :
  In "" (List.map sqlalchemy.name cols) ->
  sqlalchemy.new_Table stream cols = Error ArgumentError.
Proof.
  intros Hin. unfold sqlalchemy.new_Table.
  assert (H : existsb (fun c => String.eqb (sqlalchemy.name c) "") cols
              = true).
  { apply existsb_exists. apply in_map_iff in Hin as (c & Hc & Hin).
    exists c. split; [exact Hin|]. rewrite Hc. reflexivity. }
  rewrite H. reflexivity.
Qed.

Lemma new_Table_not_blank stream cols :
  ~ In "" (List.map sqlalchemy.name cols) ->
  sqlalchemy.new_Table stream cols = Ok (sqlalchemy.mkTable stream cols).
Proof.
  intros Hnot. unfold sqlalchemy.new_Table.
  destruct (existsb (fun c => String.eqb (sqlalchemy.name c) "") cols)
    eqn:H; [|reflexivity].
  destruct Hnot. apply existsb_exists in H as (c & Hin & Hc).
  apply String.eqb_eq in Hc. rewrite <- Hc. apply in_map, Hin.
Qed.

(** lines 21 to 35: the columns handed to [Table] *)
Lemma generate_sqlalchemy_table_new_Table (stream : string)
    (key_properties : list string) (json_schema : json)
    (timestamp_column : option string) (flat_schema : dict) :
  fst (flatten_schema json_schema [] "__") = Ok flat_schema ->
  exists columns extra,
    generate_sqlalchemy_table stream key_properties json_schema
      timestamp_column
    = sqlalchemy.new_Table stream (columns ++ extra)
    /\ List.map sqlalchemy.name columns = keys flat_schema
    /\ StronglySorted (fun a b => String.ltb a b = true) (keys flat_schema)
    /\ Forall2 (fun c kv => sqlalchemy_column_type (snd kv)
                            = Ok (sqlalchemy.type c)) columns flat_schema
    /\ (forall c, In c columns ->
          (sqlalchemy.primary_key c = true
           <-> In (sqlalchemy.name c) key_properties))
    /\ ((exists ts, timestamp_column = Some ts /\ ts <> ""
                    /\ ~ In ts (keys flat_schema)
                    /\ extra = [sqlalchemy.mkColumn ts sqlalchemy.TIMESTAMP
                                  false])
        \/ ((timestamp_column = None \/ timestamp_column = Some ""
             \/ exists ts, timestamp_column = Some ts
                           /\ In ts (keys flat_schema))
            /\ extra = [])).
Proof.
  intros Hflat.
  pose proof (flatten_schema_rec_typed _ _ _ _ _ Hflat) as Htyped.
  pose proof (flatten_schema_sorted _ _ _ _ Hflat) as Hsorted.
  destruct (build_columns_typed (fun _ => true) flat_schema Htyped)
    as (columns0 & Hb0 & _).
  destruct (build_columns_typed
              (fun name => existsb (String.eqb name) key_properties)
              flat_schema Htyped) as (columns & Hb & Hn & Ht & Hp).
  assert (Hpk : forall c, In c columns ->
            (sqlalchemy.primary_key c = true
             <-> In (sqlalchemy.name c) key_properties)).
  { intros c Hc. rewrite Forall_forall in Hp. rewrite (Hp c Hc).
    apply existsb_eqb_In. }
  assert (Hkeys : StronglySorted (fun a b => String.ltb a b = true)
                    (keys flat_schema)).
  { clear -Hsorted. induction Hsorted as [|x l Hl IH Hx]; simpl;
      constructor; [exact IH|].
    rewrite Forall_forall in *. intros a Ha.
    apply in_map_iff in Ha as (y & <- & Hy). apply (Hx y Hy). }
  unfold generate_sqlalchemy_table. rewrite Hflat. cbn [bind].
  rewrite Hb0. cbn [bind]. rewrite Hb. cbn [bind].
  destruct timestamp_column as [ts|].
  - destruct (String.eqb_spec ts "") as [->|Hne]; cbn [negb andb].
    + exists columns, []. split; [rewrite app_nil_r; reflexivity|].
      repeat (split; [assumption|]). right. auto.
    + destruct (dict_mem ts flat_schema) eqn:Hmem; cbn [negb].
      * exists columns, []. split; [rewrite app_nil_r; reflexivity|].
        repeat (split; [assumption|]).
        right. split; [|reflexivity]. right. right. exists ts.
        split; [reflexivity|]. apply dict_mem_In. exact Hmem.
      * exists columns, [sqlalchemy.mkColumn ts sqlalchemy.TIMESTAMP false].
        split; [reflexivity|]. repeat (split; [assumption|]).
        left. exists ts. repeat split; auto.
        intros Hin. apply dict_mem_In in Hin. congruence.
  - exists columns, []. split; [rewrite app_nil_r; reflexivity|].
    repeat (split; [assumption|]). right. auto.
Qed.

(** the names of the columns handed to [Table]: a blank one can only be a
    flattened name, the timestamp column is added under a name that is not
    blank *)
Lemma blank_column_name (columns extra : list sqlalchemy.Column)
    (flat_schema : dict) (timestamp_column : option string) :
  List.map sqlalchemy.name columns = keys flat_schema ->
  ((exists ts, timestamp_column = Some ts /\ ts <> ""
               /\ ~ In ts (keys flat_schema)
               /\ extra = [sqlalchemy.mkColumn ts sqlalchemy.TIMESTAMP false])
   \/ ((timestamp_column = None \/ timestamp_column = Some ""
        \/ exists ts, timestamp_column = Some ts /\ In ts (keys flat_schema))
       /\ extra = [])) ->
  In "" (List.map sqlalchemy.name (columns ++ extra))
  <-> In "" (keys flat_schema).
Proof.
  intros Hn Hextra. rewrite map_app, in_app_iff, Hn.
  split; [|intros H; left; exact H].
  intros [H|H]; [exact H|].
  destruct Hextra as [(ts & _ & Hne & _ & ->)|(_ & ->)]; [|destruct H].
  destruct H as [H|[]]. cbn [sqlalchemy.name] in H. congruence.
Qed.

(** C9: when the schema flattens and none of the flattened names is blank,
    the table has one column per flattened property, in the sorted order of
    the flattened names and of the type [sqlalchemy_column_type] gives the
    property; a column is a primary key exactly when its name is among the
    key properties; and one more column, the timestamp, comes last exactly
    when a (non-empty) timestamp column name is given that is not a
    flattened name.  When a flattened name is blank, [Table] refuses the
    column of that name and the call raises [ArgumentError]. *)
Theorem generate_sqlalchemy_table_columns (stream : string)
    (key_properties : list string) (json_schema : json)
    (timestamp_column : option string) (flat_schema : dict) :
  fst (flatten_schema json_schema [] "__") = Ok flat_schema ->
  (In "" (keys flat_schema) ->
   generate_sqlalchemy_table stream key_properties json_schema
     timestamp_column
   = Error ArgumentError)
  /\ (~ In "" (keys flat_schema) ->
      exists columns extra,
        generate_sqlalchemy_table stream key_properties json_schema
          timestamp_column
        = Ok (sqlalchemy.mkTable stream (columns ++ extra))
        /\ List.map sqlalchemy.name columns = keys flat_schema
        /\ StronglySorted (fun a b => String.ltb a b = true)
             (keys flat_schema)
        /\ Forall2 (fun c kv => sqlalchemy_column_type (snd kv)
                                = Ok (sqlalchemy.type c))
             columns flat_schema
        /\ (forall c, In c columns ->
              (sqlalchemy.primary_key c = true
               <-> In (sqlalchemy.name c) key_properties))
        /\ ((exists ts, timestamp_column = Some ts /\ ts <> ""
                        /\ ~ In ts (keys flat_schema)
                        /\ extra = [sqlalchemy.mkColumn ts
                                      sqlalchemy.TIMESTAMP false])
            \/ ((timestamp_column = None \/ timestamp_column = Some ""
                 \/ exists ts, timestamp_column = Some ts
                               /\ In ts (keys flat_schema))
                /\ extra = []))).
Proof.
  intros Hflat.
  destruct (generate_sqlalchemy_table_new_Table stream key_properties
              json_schema timestamp_column flat_schema Hflat)
    as (columns & extra & Ht & Hn & Hs & Hty & Hpk & Hextra).
  pose proof (blank_column_name columns extra flat_schema timestamp_column
                Hn Hextra) as Hblank.
  split.
  - intros Hin. rewrite Ht. apply new_Table_blank, Hblank, Hin.
  - intros Hnot. exists columns, extra. split.
    + rewrite Ht. apply new_Table_not_blank.
      intros Hin. apply Hnot, Hblank, Hin.
    + repeat (split; [assumption|]). exact Hextra.
Qed.

Lemma generate_sqlalchemy_table_columns_witness :
  exists columns extra,
    generate_sqlalchemy_table "weather" ["id"] example_schema_typed
      (Some "loaded_at")
    = Ok (sqlalchemy.mkTable "weather" (columns ++ extra))
    /\ List.map sqlalchemy.name columns = ["id"; "info__weather"]
    /\ extra = [sqlalchemy.mkColumn "loaded_at" sqlalchemy.TIMESTAMP false].
Proof.
  destruct (generate_sqlalchemy_table_columns "weather" ["id"]
              example_schema_typed (Some "loaded_at")
              [("id", JDict [("type", JStr "integer")]);
               ("info__weather", JDict [("type", JStr "string")])])
    as [_ Htable]; [vm_compute; reflexivity|].
  destruct Htable as (columns & extra & Ht & Hn & _ & _ & _ & Hextra).
  { vm_compute. intros [H|[H|[]]]; discriminate H. }
  exists columns, extra. split; [exact Ht|]. split; [exact Hn|].
  destruct Hextra as [(ts & Hts & _ & _ & ->)|([H|[H|(ts & H & Hin)]] & _)].
  - injection Hts as <-. reflexivity.
  - discriminate H.
  - discriminate H.
  - injection H as <-. exfalso. vm_compute in Hin.
    destruct Hin as [H|[H|[]]]; discriminate H.
Defined.

(** ** The bound on the depth of recursion *)

Lemma depth_In k v kvs : In (k, v) kvs -> depth v < depth (JDict kvs).
Proof.
  cbn [depth]. induction kvs as [|[k' v'] kvs IH]; [intros []|].
  cbn [fold_right snd]. intros [Heq|Hin].
  - injection Heq as _ ->. lia.
  - specialize (IH Hin). lia.
Qed.

Lemma dict_get_In k v d : dict_get k d = Some v -> In (k, v) d.
Proof.
  induction d as [|[k' v'] d IH]; [discriminate|]. cbn [dict_get].
  destruct (String.eqb_spec k' k) as [->|_].
  - intros H. injection H as ->. left. reflexivity.
  - intros H. right. apply IH, H.
Qed.

Lemma schema_property_ext rec1 rec2 k v parent_key sep :
  (forall p s, rec1 v p s = rec2 v p s) ->
  schema_property rec1 k v parent_key sep
  = schema_property rec2 k v parent_key sep.
Proof. intros Hrec. unfold schema_property. rewrite Hrec. reflexivity. Qed.

Lemma schema_loop_ext rec1 rec2 props parent_key sep :
  (forall k v, In (k, v) props -> forall p s, rec1 v p s = rec2 v p s) ->
  schema_loop rec1 props parent_key sep = schema_loop rec2 props parent_key sep.
Proof.
  induction props as [|[k v] props IH]; intros Hrec; [reflexivity|].
  cbn [schema_loop].
  rewrite (schema_property_ext rec1 rec2 k v)
    by (apply (Hrec k v); left; reflexivity).
  rewrite IH by (intros k' v' Hin; apply (Hrec k' v'); right; exact Hin).
  reflexivity.
Qed.

Lemma flatten_schema_rec_fuel n :
  forall m d parent_key sep,
  depth d < n -> depth d < m ->
  flatten_schema_rec n d parent_key sep = flatten_schema_rec m d parent_key sep.
Proof.
  induction n as [|n IH]; intros m d parent_key sep Hn Hm; [lia|].
  destruct m as [|m]; [lia|]. cbn [flatten_schema_rec].
  destruct d as [| | | | | |dkvs]; try reflexivity.
  destruct (dict_get "properties" dkvs) as [[| | | | | |props]|] eqn:Hget;
    try reflexivity.
  apply dict_get_In, depth_In in Hget.
  rewrite (schema_loop_ext (flatten_schema_rec n) (flatten_schema_rec m)).
  - reflexivity.
  - intros k v Hin p s. apply depth_In in Hin. apply IH; lia.
Qed.

Lemma flatten_schema_fuel n d parent_key sep :
  depth d < n ->
  flatten_schema_rec n d parent_key sep = flatten_schema d parent_key sep.
Proof. intros Hn. apply flatten_schema_rec_fuel; [exact Hn|lia]. Qed.

Section NoRecursionError.

Variable rec_f : json -> list string -> string -> result dict * json.

Lemma schema_loop_no_recursion_error props parent_key sep :
  (forall k v, In (k, v) props -> forall p s,
     fst (rec_f v p s) <> Error RecursionError) ->
  fst (schema_loop rec_f props parent_key sep) <> Error RecursionError.
Proof.
  induction props as [|[k v] props IH]; intros Hrec; [discriminate|].
  cbn [schema_loop].
  assert (Hp : fst (schema_property rec_f k v parent_key sep)
               <> Error RecursionError).
  { unfold schema_property.
    destruct (negb (truthy v)); [discriminate|].
    destruct v as [| | | | | |vkvs]; try discriminate.
    destruct (dict_mem "type" vkvs).
    - destruct (getitem (JDict vkvs) "type") as [ty|e] eqn:Hty; cbn [bind].
      + destruct (py_in "object" ty) as [[|]|e] eqn:Hin; try discriminate.
        * specialize (Hrec k (JDict vkvs) (or_introl eq_refl)
                        (parent_key ++ [k]) sep).
          destruct (rec_f (JDict vkvs) (parent_key ++ [k]) sep). exact Hrec.
        * destruct ty; try discriminate Hin; injection Hin as <-;
            discriminate.
      + cbn [getitem] in Hty. destruct (dict_get "type" vkvs);
          [discriminate|]. injection Hty as <-. discriminate.
    - unfold first_alternative.
      destruct vkvs as [|[k0 alts] v_rest]; [discriminate|].
      destruct (getitem0 alts) as [property|e] eqn:H0.
      + destruct (getitem property "type") as [ty|e] eqn:Hty.
        * destruct (eq_str ty "string"), (eq_str ty "array");
            destruct alts as [| | | | |[|a alts]|], property; discriminate.
        * destruct property; try discriminate Hty; cbn [getitem] in Hty;
            try (injection Hty as <-; discriminate).
          destruct (dict_get "type" kvs); [discriminate|].
          injection Hty as <-. discriminate.
      + destruct alts as [| | | |[|]|[|]|]; try discriminate H0;
          injection H0 as <-; discriminate. }
  destruct (schema_property rec_f k v parent_key sep) as [[its|e] v'].
  - assert (Hl : fst (schema_loop rec_f props parent_key sep)
                 <> Error RecursionError)
      by (apply IH; intros k' v0 Hin; apply (Hrec k' v0); right; exact Hin).
    destruct (schema_loop rec_f props parent_key sep) as [[its'|e] props'];
      cbn [fst bind] in *; [discriminate|exact Hl].
  - exact Hp.
Qed.

End NoRecursionError.

Lemma finish_schema_no_recursion_error items :
  finish_schema items <> Error RecursionError.
Proof.
  destruct (finish_schema_spec items) as [(_ & -> & _)|(k & -> & _)];
    discriminate.
Qed.

(** the bound [flatten_schema] gives the recursion is never reached *)
Lemma flatten_schema_rec_total n :
  forall d parent_key sep,
  depth d < n ->
  fst (flatten_schema_rec n d parent_key sep) <> Error RecursionError.
Proof.
  induction n as [|n IH]; intros d parent_key sep Hn; [lia|].
  cbn [flatten_schema_rec].
  destruct d as [| | | | | |dkvs]; try discriminate.
  destruct (dict_get "properties" dkvs) as [[| | | | | |props]|] eqn:Hget;
    try discriminate.
  apply dict_get_In, depth_In in Hget.
  pose proof (schema_loop_no_recursion_error (flatten_schema_rec n) props
                parent_key sep) as Hloop.
  destruct (schema_loop (flatten_schema_rec n) props parent_key sep)
    as [[items|e] props']; cbn [fst bind] in *.
  - apply finish_schema_no_recursion_error.
  - apply Hloop. intros k v Hin p s. apply IH.
    apply depth_In in Hin. lia.
Qed.

(** ** The state a call leaves the schema in *)

Lemma eq_str_eq v s : eq_str v s = true -> v = JStr s.
Proof.
  destruct v; try discriminate. cbn. intros H.
  apply String.eqb_eq in H. congruence.
Qed.

Lemma first_alternative_state new_key vkvs :
  dict_mem "type" vkvs = false ->
  snd (first_alternative new_key (JDict vkvs))
  = match first_alternative_type (JDict vkvs) with
    | Some t => force_type t (JDict vkvs)
    | None => JDict vkvs
    end.
Proof.
  intros Hmem. unfold first_alternative, first_alternative_type.
  rewrite Hmem. destruct vkvs as [|[k0 alts] v_rest]; [reflexivity|].
  cbn [alternative_type].
  destruct (getitem0 alts) as [property|e] eqn:H0; cbn [bind];
    [|reflexivity].
  destruct (getitem property "type") as [ty|e] eqn:Hty; [|reflexivity].
  destruct property as [| | | | | |p]; try discriminate Hty.
  destruct alts as [| | | |[|]|[|a alts]|]; cbn [getitem0] in H0;
    try discriminate H0.
  injection H0 as ->.
  destruct (eq_str ty "string"); [reflexivity|].
  destruct (eq_str ty "array"); reflexivity.
Qed.

Lemma schema_property_state rec_f k v parent_key sep :
  snd (schema_property rec_f k v parent_key sep)
  = match first_alternative_type v with
    | Some t => force_type t v
    | None =>
        if object_typed v then snd (rec_f v (parent_key ++ [k]) sep) else v
    end.
Proof.
  unfold schema_property.
  destruct (negb (truthy v)) eqn:Htruthy.
  - destruct v as [| | | | | |[|kv vkvs]]; try reflexivity.
    discriminate Htruthy.
  - destruct v as [| | | | | |vkvs]; try reflexivity.
    destruct (dict_mem "type" vkvs) eqn:Hmem.
    + unfold first_alternative_type, object_typed. rewrite Hmem.
      destruct (ty <- getitem (JDict vkvs) "type" ;; py_in "object" ty)
        as [[|]|e]; try reflexivity.
      destruct (rec_f (JDict vkvs) (parent_key ++ [k]) sep). reflexivity.
    + rewrite (first_alternative_state _ vkvs Hmem).
      destruct (first_alternative_type (JDict vkvs)); [reflexivity|].
      unfold object_typed. cbn [getitem].
      rewrite dict_mem_get in Hmem.
      destruct (dict_get "type" vkvs); [discriminate|]. reflexivity.
Qed.

Lemma schema_loop_state rec_f props parent_key sep :
  (forall k v, In (k, v) props ->
     forall p s, rec_f v p s = flatten_schema v p s) ->
  forall items props',
  schema_loop rec_f props parent_key sep = (Ok items, props') ->
  Forall2 (state_after parent_key sep) props props'.
Proof.
  induction props as [|[k v] props IH]; intros Hrec items props';
    cbn [schema_loop].
  - intros H. injection H as _ <-. constructor.
  - pose proof (schema_property_state rec_f k v parent_key sep) as Hstate.
    destruct (schema_property rec_f k v parent_key sep) as [[its|e] v'];
      [|discriminate].
    cbn [snd] in Hstate.
    destruct (schema_loop rec_f props parent_key sep) as [r' props''] eqn:Hl.
    destruct r' as [its'|e]; cbn [bind]; [|discriminate].
    intros H. injection H as _ <-. constructor.
    + split; [reflexivity|]. cbn [fst snd]. rewrite Hstate.
      rewrite (Hrec k v (or_introl eq_refl)).
      destruct (first_alternative_type v); [reflexivity|].
      destruct (object_typed v); reflexivity.
    + apply (IH (fun k' v0 Hin => Hrec k' v0 (or_intror Hin)) its').
      reflexivity.
Qed.

Lemma dict_set_get_same k v d : dict_get k d = Some v -> dict_set k v d = d.
Proof.
  induction d as [|[k' v'] d IH]; [discriminate|]. cbn [dict_get dict_set].
  destruct (String.eqb_spec k' k) as [->|_].
  - intros H. injection H as ->. reflexivity.
  - intros H. rewrite (IH H). reflexivity.
Qed.

Lemma no_forced_type_unfold v :
  no_forced_type v = true ->
  first_alternative_type v = None
  /\ forall k x kvs, v = JDict kvs -> In (k, x) kvs -> no_forced_type x = true.
Proof.
  intros H.
  assert (Hnone : first_alternative_type v = None).
  { destruct v; cbn [no_forced_type] in H;
      destruct (first_alternative_type _); congruence. }
  split; [exact Hnone|]. intros k x kvs -> Hin.
  cbn [no_forced_type] in H. rewrite Hnone in H. clear Hnone.
  induction kvs as [|[k' x'] kvs IH]; [destruct Hin|].
  apply andb_true_iff in H as [Hx Hrest].
  destruct Hin as [Heq|Hin]; [injection Heq as _ <-; exact Hx|].
  apply IH; assumption.
Qed.

Lemma schema_loop_frame rec_f props parent_key sep :
  (forall k v, In (k, v) props ->
     first_alternative_type v = None /\ forall p s, snd (rec_f v p s) = v) ->
  snd (schema_loop rec_f props parent_key sep) = props.
Proof.
  induction props as [|[k v] props IH]; intros Hrec; [reflexivity|].
  cbn [schema_loop].
  pose proof (schema_property_state rec_f k v parent_key sep) as Hstate.
  destruct (Hrec k v (or_introl eq_refl)) as [Hnone Hsame].
  rewrite Hnone, Hsame in Hstate.
  assert (Hv : snd (schema_property rec_f k v parent_key sep) = v)
    by (rewrite Hstate; destruct (object_typed v); reflexivity).
  destruct (schema_property rec_f k v parent_key sep) as [[its|e] v'];
    cbn [snd] in Hv; subst v'; [|reflexivity].
  specialize (IH (fun k' v0 Hin => Hrec k' v0 (or_intror Hin))).
  destruct (schema_loop rec_f props parent_key sep) as [r' props''].
  cbn [snd] in *. subst props''. reflexivity.
Qed.

Lemma flatten_schema_rec_frame n :
  forall d parent_key sep,
  no_forced_type d = true ->
  snd (flatten_schema_rec n d parent_key sep) = d.
Proof.
  induction n as [|n IH]; intros d parent_key sep Hnf; [reflexivity|].
  cbn [flatten_schema_rec].
  destruct d as [| | | | | |dkvs]; try reflexivity.
  destruct (dict_get "properties" dkvs) as [[| | | | | |props]|] eqn:Hget;
    try reflexivity.
  pose proof (schema_loop_frame (flatten_schema_rec n) props parent_key sep)
    as Hloop.
  destruct (schema_loop (flatten_schema_rec n) props parent_key sep)
    as [r props'].
  cbn [snd] in *. rewrite Hloop.
  - rewrite (dict_set_get_same _ _ _ Hget). reflexivity.
  - intros k v Hin.
    apply no_forced_type_unfold in Hnf as [_ Hsub].
    pose proof (Hsub "properties" (JDict props) dkvs eq_refl
                  (dict_get_In _ _ _ Hget)) as Hprops.
    apply no_forced_type_unfold in Hprops as [_ Hsub'].
    pose proof (Hsub' k v props eq_refl Hin) as Hv.
    split; [apply no_forced_type_unfold in Hv as [Hv _]; exact Hv|].
    intros p s. apply IH, Hv.
Qed.

Lemma force_type_changes v t :
  first_alternative_type v = Some t ->
  alternative_type v = Ok (JStr t)
  /\ alternative_type (force_type t v) = Ok (nullable t)
  /\ force_type t v <> v.
Proof.
  unfold first_alternative_type.
  destruct v as [| | | | | |vkvs]; try discriminate.
  destruct (dict_mem "type" vkvs); [discriminate|].
  destruct (alternative_type (JDict vkvs)) as [ty|e] eqn:Halt;
    [|discriminate].
  intros Ht.
  assert (Hty : ty = JStr t).
  { destruct (eq_str ty "string") eqn:Hs.
    - injection Ht as <-. apply eq_str_eq, Hs.
    - destruct (eq_str ty "array") eqn:Ha; [|discriminate].
      injection Ht as <-. apply eq_str_eq, Ha. }
  subst ty. split; [reflexivity|].
  destruct vkvs as [|[k0 alts] v_rest]; [discriminate|].
  cbn [alternative_type] in Halt.
  destruct (getitem0 alts) as [property|e] eqn:H0; [|discriminate].
  cbn [bind] in Halt.
  destruct property as [| | | | | |p]; try discriminate Halt.
  destruct alts as [| | | |[|]|[|a alts]|]; cbn [getitem0] in H0;
    try discriminate H0.
  injection H0 as ->. cbn [force_type alternative_type getitem0 bind getitem].
  rewrite dict_get_set_same. split; [reflexivity|].
  intros Heq. injection Heq as Hp.
  cbn [getitem] in Halt. rewrite <- Hp, dict_get_set_same in Halt.
  discriminate Halt.
Qed.

Lemma Forall2_diag {A : Type} (R : A -> A -> Prop) l x :
  Forall2 R l l -> In x l -> R x x.
Proof.
  induction l as [|y l IH]; [intros _ []|].
  intros H. inversion H; subst. intros [->|Hin]; auto.
Qed.

Lemma first_alternative_type_cases v t :
  first_alternative_type v = Some t -> t = "string" \/ t = "array".
Proof.
  unfold first_alternative_type.
  destruct v as [| | | | | |vkvs]; try discriminate.
  destruct (dict_mem "type" vkvs); [discriminate|].
  destruct (alternative_type (JDict vkvs)) as [ty|e]; [|discriminate].
  destruct (eq_str ty "string"); [intros H; injection H as <-; auto|].
  destruct (eq_str ty "array"); [intros H; injection H as <-; auto|].
  discriminate.
Qed.

(** the loop visits the properties in order until one raises: those visited
    are in the state [state_after] describes, the others are untouched *)
Lemma schema_loop_visited rec_f parent_key sep :
  forall props,
  (forall k v, In (k, v) props ->
     forall p s, rec_f v p s = flatten_schema v p s) ->
  forall r props',
  schema_loop rec_f props parent_key sep = (r, props') ->
  exists visited visited' rest,
    props = visited ++ rest /\ props' = visited' ++ rest
    /\ Forall2 (state_after parent_key sep) visited visited'
    /\ ((rest = [] /\ Forall (visit_returns parent_key sep) visited
         /\ exists items, r = Ok items)
        \/ (exists done kv e,
              visited = done ++ [kv]
              /\ Forall (visit_returns parent_key sep) done
              /\ visit_raises parent_key sep kv e /\ r = Error e)).
Proof.
  induction props as [|[k v] props IH]; intros Hrec r props';
    cbn [schema_loop].
  - intros H. injection H as <- <-. exists [], [], [].
    repeat (split; [reflexivity|]). split; [constructor|].
    left. split; [reflexivity|]. split; [constructor|].
    eexists. reflexivity.
  - pose proof (schema_property_ext rec_f flatten_schema k v parent_key sep
                  (Hrec k v (or_introl eq_refl))) as Hext.
    assert (Hsa : state_after parent_key sep (k, v)
                    (k, snd (schema_property rec_f k v parent_key sep))).
    { split; [reflexivity|]. cbn [fst snd].
      rewrite (schema_property_state rec_f k v parent_key sep).
      rewrite (Hrec k v (or_introl eq_refl)).
      destruct (first_alternative_type v); [reflexivity|].
      destruct (object_typed v); reflexivity. }
    destruct (schema_property rec_f k v parent_key sep) as [[its|e] v']
      eqn:Hp; cbn [snd] in Hsa.
    + destruct (schema_loop rec_f props parent_key sep) as [r' props'']
        eqn:Hl.
      intros H. injection H as <- <-.
      destruct (IH (fun k' v0 Hin => Hrec k' v0 (or_intror Hin)) r' props''
                  eq_refl)
        as (vis & vis' & rest & Hprops & Hprops' & HF & Hcase).
      exists ((k, v) :: vis), ((k, v') :: vis'), rest.
      split; [rewrite Hprops; reflexivity|].
      split; [rewrite Hprops'; reflexivity|].
      split; [constructor; assumption|].
      assert (Hret : visit_returns parent_key sep (k, v)).
      { exists its. cbn [fst snd]. rewrite <- Hext. reflexivity. }
      destruct Hcase as [(Hrest & Hrets & items & ->)
                        |(done & kv & e & Hvis & Hrets & Hraise & ->)].
      * left. split; [exact Hrest|]. split; [constructor; assumption|].
        exists (its ++ items). reflexivity.
      * right. exists ((k, v) :: done), kv, e.
        split; [rewrite Hvis; reflexivity|].
        split; [constructor; assumption|]. split; [exact Hraise|reflexivity].
    + intros H. injection H as <- <-.
      exists [(k, v)], [(k, v')], props.
      repeat (split; [reflexivity|]).
      split; [constructor; [exact Hsa|constructor]|].
      right. exists [], (k, v), e.
      split; [reflexivity|]. split; [constructor|].
      split; [|reflexivity].
      unfold visit_raises. cbn [fst snd]. rewrite <- Hext. reflexivity.
Qed.

(** C10: whether the call returns or raises, it leaves the schema with the
    same properties in the same order.  The loop visits them in order until
    the visit of one raises; a call that returns, or that raises on a
    duplicate column name only, has visited them all.  The properties not
    visited are untouched; each property visited, the one whose visit raises
    included, is in the state [state_after] describes: a definition with no
    explicit ["type"] whose first alternative has type ['string'] or
    ['array'] has that type replaced by the list [['null', 'string']] or
    [['null', 'array']], and the schema then differs from what it was, also
    when a later property raises; a definition of an object is left as the
    nested call leaves it; every other definition is unchanged, and so is the
    whole schema when no type is forced anywhere in it.  In the schema where
    an empty definition follows a property given by alternatives, the call
    raises and leaves the type forced. *)
Theorem flatten_schema_forces_alternatives (dkvs props : list (string * json))
    (parent_key : list string) (sep : string) (r : result dict) (d' : json) :
  dict_get "properties" dkvs = Some (JDict props) ->
  flatten_schema (JDict dkvs) parent_key sep = (r, d') ->
  exists visited visited' rest,
    props = visited ++ rest
    /\ d' = JDict (dict_set "properties" (JDict (visited' ++ rest)) dkvs)
    /\ Forall2 (state_after parent_key sep) visited visited'
    /\ ((rest = [] /\ Forall (visit_returns parent_key sep) visited)
        \/ (exists done kv e,
              visited = done ++ [kv]
              /\ Forall (visit_returns parent_key sep) done
              /\ visit_raises parent_key sep kv e /\ r = Error e))
    /\ (forall k v t,
          In (k, v) visited -> first_alternative_type v = Some t ->
          (t = "string" \/ t = "array")
          /\ alternative_type v = Ok (JStr t)
          /\ alternative_type (force_type t v)
             = Ok (JList [JStr "null"; JStr t])
          /\ force_type t v <> v
          /\ d' <> JDict dkvs)
    /\ (no_forced_type (JDict dkvs) = true -> d' = JDict dkvs)
    /\ flatten_schema (JDict schema_raising_after_alternatives) [] "__"
       = (Error (NameError "logger"), schema_left_after_raising).
Proof.
  intros Hget Hcall.
  assert (Hframe : no_forced_type (JDict dkvs) = true -> d' = JDict dkvs).
  { intros Hnf. unfold flatten_schema in Hcall.
    pose proof (flatten_schema_rec_frame (S (depth (JDict dkvs))) (JDict dkvs)
                  parent_key sep Hnf) as H.
    rewrite Hcall in H. exact H. }
  unfold flatten_schema in Hcall. cbn [flatten_schema_rec] in Hcall.
  rewrite Hget in Hcall.
  destruct (schema_loop (flatten_schema_rec (depth (JDict dkvs))) props
              parent_key sep) as [r0 props'] eqn:Hloop.
  injection Hcall as Hr <-.
  destruct (schema_loop_visited (flatten_schema_rec (depth (JDict dkvs)))
              parent_key sep props) with (r := r0) (props' := props')
    as (visited & visited' & rest & Hprops & -> & Hstate & Hcase);
    [|exact Hloop|].
  { intros k v Hin p s. apply flatten_schema_fuel.
    apply depth_In in Hin. apply dict_get_In, depth_In in Hget. lia. }
  exists visited, visited', rest.
  split; [exact Hprops|]. split; [reflexivity|]. split; [exact Hstate|].
  split.
  { destruct Hcase as [(Hrest & Hrets & _)
                      |(done & kv & e & Hvis & Hrets & Hraise & ->)].
    - left. split; assumption.
    - right. exists done, kv, e. cbn [bind] in Hr.
      repeat (split; [assumption|]). symmetry. exact Hr. }
  split; [|split; [exact Hframe|reflexivity]].
  intros k v t Hin Ht.
  destruct (force_type_changes v t Ht) as (H1 & H2 & H3).
  split; [exact (first_alternative_type_cases v t Ht)|].
  split; [exact H1|]. split; [exact H2|]. split; [exact H3|].
  intros Heq. injection Heq as Heq.
  assert (Hsame : visited' = visited).
  { pose proof (dict_get_set_same "properties" (JDict (visited' ++ rest))
                  dkvs) as Hg.
    rewrite Heq, Hget in Hg. injection Hg as Hg. rewrite Hprops in Hg.
    apply app_inv_tail in Hg. symmetry. exact Hg. }
  subst visited'.
  destruct (Forall2_diag _ _ _ Hstate Hin) as [_ Hfix].
  cbn [snd] in Hfix. rewrite Ht in Hfix. apply H3. symmetry. exact Hfix.
Qed.

Lemma flatten_schema_forces_alternatives_witness :
  exists visited' rest,
    schema_left_after_raising
    = JDict (dict_set "properties" (JDict (visited' ++ rest))
               schema_raising_after_alternatives)
    /\ schema_left_after_raising
       <> JDict schema_raising_after_alternatives.
Proof.
  destruct (flatten_schema_forces_alternatives
              schema_raising_after_alternatives
              [("note", JDict [("anyOf",
                                JList [JDict [("type", JStr "string")];
                                       JDict [("type", JStr "null")]])]);
               ("broken", JDict [])]
              [] "__" (Error (NameError "logger"))
              schema_left_after_raising)
    as (visited & visited' & rest & Hprops & Hd & _ & _ & Hforced & _);
    [reflexivity|vm_compute; reflexivity|].
  exists visited', rest. split; [exact Hd|]. discriminate.
Defined.

(** * Further properties *)

(** ** Records *)

Lemma dict_set_Forall (P : string * json -> Prop) k v d :
  P (k, v) -> Forall P d -> Forall P (dict_set k v d).
Proof.
  intros Hkv. induction 1 as [|[k' v'] d Hx Hd IH]; cbn [dict_set].
  - constructor; [exact Hkv|constructor].
  - destruct (String.eqb k' k); constructor; assumption.
Qed.

Lemma dict_update_Forall (P : string * json -> Prop) items :
  forall d, Forall P items -> Forall P d -> Forall P (dict_update d items).
Proof.
  induction items as [|[k v] items IH]; intros d Hitems Hd; [exact Hd|].
  inversion Hitems; subst. rewrite dict_update_cons.
  apply IH; [assumption|]. apply dict_set_Forall; assumption.
Qed.

Lemma dict_of_items_Forall (P : string * json -> Prop) items :
  Forall P items -> Forall P (dict_of_items items).
Proof. intros H. apply (dict_update_Forall P items []); [exact H|constructor]. Qed.

Lemma leaves_not_mapping (d : json) :
  Forall (fun pv => forall kvs, snd pv <> JDict kvs) (leaves d).
Proof.
  induction d as [| | | | | |kvs0 IH] using json_ind; try constructor.
  induction IH as [|[k x] kvs' Hx _ IHkvs]; [constructor|].
  rewrite leaves_cons. apply Forall_app. split; [|exact IHkvs].
  cbn [snd] in Hx.
  destruct x; try (constructor; [intros ?; discriminate|constructor]).
  rewrite Forall_forall in *. intros pv Hin.
  apply in_map_iff in Hin as (pv' & <- & Hin). exact (Hx pv' Hin).
Qed.

Lemma stored_is_scalar py_str v :
  (forall kvs, v <> JDict kvs) -> is_scalar (stored py_str v) = true.
Proof. intros H. destruct v; try reflexivity. exfalso. eapply H. reflexivity. Qed.

(** X1: the mapping [flatten] returns is flat: its keys are distinct and none
    of its values is a mapping or a list. *)
Theorem flatten_is_flat (py_str : json -> string)
    (kvs : list (string * json)) (parent_key sep : string) :
  exists flat,
    flatten py_str (JDict kvs) parent_key sep = Ok flat
    /\ NoDup (keys flat)
    /\ Forall (fun kv => is_scalar (snd kv) = true) flat.
Proof.
  rewrite (flatten_leaf_items py_str (JDict kvs) kvs parent_key sep eq_refl).
  eexists. split; [reflexivity|]. split; [apply dict_of_items_keys_NoDup|].
  apply dict_of_items_Forall. unfold leaf_items.
  apply Forall_map. cbn [snd].
  eapply Forall_impl; [|apply leaves_not_mapping].
  intros pv Hpv. apply stored_is_scalar, Hpv.
Qed.

Lemma leaves_scalars kvs :
  Forall (fun kv => is_scalar (snd kv) = true) kvs ->
  leaves (JDict kvs) = List.map (fun kv => ([fst kv], snd kv)) kvs.
Proof.
  induction 1 as [|[k v] kvs Hv _ IH]; [reflexivity|].
  rewrite leaves_cons, IH. cbn [snd] in Hv.
  destruct v; try discriminate Hv; reflexivity.
Qed.

Lemma flatten_flat_record py_str kvs sep :
  NoDup (keys kvs) -> Forall (fun kv => is_scalar (snd kv) = true) kvs ->
  flatten py_str (JDict kvs) "" sep = Ok kvs.
Proof.
  intros Hnd Hsc.
  rewrite (flatten_leaf_items py_str (JDict kvs) kvs "" sep eq_refl).
  unfold leaf_items. rewrite (leaves_scalars kvs Hsc), map_map.
  assert (Hid : List.map
                  (fun kv : string * json =>
                     (extend_key "" sep (fst ([fst kv], snd kv)),
                      stored py_str (snd ([fst kv], snd kv)))) kvs = kvs).
  { clear Hnd. induction Hsc as [|[k v] kvs Hv _ IH]; [reflexivity|].
    cbn [List.map]. rewrite IH. cbn [fst snd extend_key] in *.
    destruct v; try discriminate Hv; reflexivity. }
  rewrite Hid, dict_of_items_NoDup by exact Hnd. reflexivity.
Qed.

(** X2: flattening is idempotent: flattening, at the top level, the mapping
    that [flatten] returned gives that mapping back. *)
Theorem flatten_idempotent (py_str : json -> string)
    (kvs : list (string * json)) (parent_key sep sep' : string) :
  (flat <- flatten py_str (JDict kvs) parent_key sep ;;
   flatten py_str (JDict flat) "" sep')
  = flatten py_str (JDict kvs) parent_key sep.
Proof.
  rewrite (flatten_leaf_items py_str (JDict kvs) kvs parent_key sep eq_refl).
  cbn [bind]. apply flatten_flat_record.
  - apply dict_of_items_keys_NoDup.
  - apply dict_of_items_Forall. unfold leaf_items. apply Forall_map.
    cbn [snd]. eapply Forall_impl; [|apply leaves_not_mapping].
    intros pv Hpv. apply stored_is_scalar, Hpv.
Qed.

Lemma dict_get_set k k' v d :
  dict_get k (dict_set k' v d)
  = if String.eqb k' k then Some v else dict_get k d.
Proof.
  induction d as [|[k0 v0] d IH]; cbn [dict_set dict_get].
  - reflexivity.
  - destruct (String.eqb_spec k0 k') as [->|Hne]; cbn [dict_get].
    + destruct (String.eqb k' k); reflexivity.
    + rewrite IH. destruct (String.eqb_spec k0 k) as [->|Hne'];
        [|reflexivity].
      destruct (String.eqb_spec k' k) as [->|_]; [congruence|reflexivity].
Qed.

Lemma dict_get_update k items :
  forall d,
  dict_get k (dict_update d items)
  = fold_left (fun acc kv => if String.eqb (fst kv) k then Some (snd kv)
                             else acc)
              items (dict_get k d).
Proof.
  induction items as [|[k' v] items IH]; intros d; [reflexivity|].
  rewrite dict_update_cons, IH, dict_get_set. reflexivity.
Qed.

(** X3: [flatten] raises nothing on a key collision: under every flat key
    the mapping holds the value of the last leaf, in the order of the record,
    that flattens to it. *)
Theorem flatten_last_leaf_wins (py_str : json -> string)
    (kvs : list (string * json)) (parent_key sep : string) :
  exists flat,
    flatten py_str (JDict kvs) parent_key sep = Ok flat
    /\ forall k,
         dict_get k flat
         = last_value k
             (List.map (fun pv => (extend_key parent_key sep (fst pv),
                                   match snd pv with
                                   | JList _ => JStr (py_str (snd pv))
                                   | _ => snd pv
                                   end))
                       (leaves (JDict kvs))).
Proof.
  rewrite (flatten_leaf_items py_str (JDict kvs) kvs parent_key sep eq_refl).
  eexists. split; [reflexivity|]. intros k.
  unfold dict_of_items. fold (dict_update [] (leaf_items py_str parent_key sep
                                               (JDict kvs))).
  rewrite dict_get_update. reflexivity.
Qed.

Lemma str_eqb_empty_app (a b : string) :
  String.eqb b "" = false -> String.eqb (a ++ b) "" = false.
Proof.
  intros Hb. destruct a as [|c a]; [exact Hb|reflexivity].
Qed.

Lemma extend_key_app a sep path :
  forall b, String.eqb b "" = false ->
  extend_key (a ++ b) sep path = (a ++ extend_key b sep path)%string.
Proof.
  induction path as [|k path IH]; intros b Hb; [reflexivity|].
  cbn [extend_key]. rewrite (str_eqb_empty_app a b Hb), Hb. cbn [negb].
  rewrite str_app_assoc. apply IH.
  destruct b as [|c b]; [discriminate Hb|reflexivity].
Qed.

Lemma str_app_inv_head (a x y : string) :
  (a ++ x = a ++ y)%string -> x = y.
Proof.
  induction a as [|c a IH]; simpl; [auto|]. intros H. injection H as H.
  apply IH, H.
Qed.

Lemma dict_set_map_keys (f : string -> string) k v d :
  (forall x y, f x = f y -> x = y) ->
  dict_set (f k) v (List.map (fun kv => (f (fst kv), snd kv)) d)
  = List.map (fun kv => (f (fst kv), snd kv)) (dict_set k v d).
Proof.
  intros Hinj. induction d as [|[k' v'] d IH]; [reflexivity|].
  cbn [List.map dict_set fst snd].
  destruct (String.eqb_spec k' k) as [->|Hne].
  - rewrite String.eqb_refl. reflexivity.
  - destruct (String.eqb_spec (f k') (f k)) as [Heq|_];
      [apply Hinj in Heq; contradiction|].
    rewrite IH. reflexivity.
Qed.

Lemma dict_update_map_keys (f : string -> string) items :
  (forall x y, f x = f y -> x = y) ->
  forall d,
  dict_update (List.map (fun kv => (f (fst kv), snd kv)) d)
              (List.map (fun kv => (f (fst kv), snd kv)) items)
  = List.map (fun kv => (f (fst kv), snd kv)) (dict_update d items).
Proof.
  intros Hinj. induction items as [|[k v] items IH]; intros d; [reflexivity|].
  cbn [List.map fst snd]. rewrite !dict_update_cons.
  rewrite (dict_set_map_keys f k v d Hinj). apply IH.
Qed.

(** X4: flattening under a prefix is flattening at the top level and then
    writing the prefix and the separator before every key, provided no
    top-level key of the record is empty; this is how the items of a nested
    mapping enter the result. *)
Theorem flatten_under_prefix (py_str : json -> string)
    (kvs : list (string * json)) (parent_key sep : string) :
  parent_key <> "" ->
  (forall k, In k (keys kvs) -> k <> "") ->
  exists flat,
    flatten py_str (JDict kvs) "" sep = Ok flat
    /\ flatten py_str (JDict kvs) parent_key sep
       = Ok (List.map (fun kv => ((parent_key ++ sep ++ fst kv)%string,
                                  snd kv)) flat).
Proof.
  intros Hparent Hkeys.
  rewrite !(flatten_leaf_items py_str (JDict kvs) kvs _ sep eq_refl).
  eexists. split; [reflexivity|]. apply f_equal.
  set (f := fun k : string => (parent_key ++ sep ++ k)%string).
  assert (Hinj : forall x y, f x = f y -> x = y).
  { intros x y H. unfold f in H.
    apply str_app_inv_head, str_app_inv_head in H. exact H. }
  unfold dict_of_items.
  fold (dict_update [] (leaf_items py_str parent_key sep (JDict kvs))).
  fold (dict_update [] (leaf_items py_str "" sep (JDict kvs))).
  rewrite <- (dict_update_map_keys f _ Hinj []). cbn [List.map].
  apply f_equal. unfold leaf_items. rewrite map_map. cbn [fst snd].
  apply map_ext_in. intros [p v] Hin. cbn [fst snd]. f_equal.
  apply leaves_paths_head in Hin as (k & rest & -> & Hk).
  assert (Hkne : String.eqb k "" = false)
    by (apply String.eqb_neq, Hkeys, Hk).
  assert (Hpne : String.eqb parent_key "" = false)
    by (apply String.eqb_neq, Hparent).
  cbn [extend_key]. rewrite Hpne. cbn [negb String.eqb].
  unfold f. rewrite <- str_app_assoc.
  rewrite (extend_key_app (parent_key ++ sep) sep rest k Hkne).
  rewrite str_app_assoc. reflexivity.
Qed.

Lemma flatten_under_prefix_witness :
  flatten str_of_empty_list (JDict sample_record) "row" "__"
  = Ok [("row__id", JInt 3); ("row__info__weather", JStr "sunny");
        ("row__info__tags", JStr "[]")].
Proof.
  destruct (flatten_under_prefix str_of_empty_list sample_record "row" "__")
    as (flat & H0 & H); [discriminate| |].
  - intros k Hk. vm_compute in Hk.
    destruct Hk as [<-|[<-|[]]]; discriminate.
  - rewrite H. vm_compute in H0. injection H0 as <-. reflexivity.
Defined.

(** ** Column names *)

Lemma all_chars_map (p : ascii -> bool) f s :
  (forall c, p (f c) = true) -> all_chars p (Str.map f s) = true.
Proof.
  intros Hf. induction s as [|a s IH]; simpl; [reflexivity|].
  rewrite Hf, IH. reflexivity.
Qed.

Lemma lower_replace_normal c :
  normal_char (Str.lower_char (if Ascii.eqb c "-" then "_"%char else c))
  = true.
Proof. destruct c as [[] [] [] [] [] [] [] []]; vm_compute; reflexivity. Qed.

Lemma lower_char_not_upper c : not_upper (Str.lower_char c) = true.
Proof. destruct c as [[] [] [] [] [] [] [] []]; vm_compute; reflexivity. Qed.

Lemma normal_char_fixed c :
  normal_char c = true ->
  Str.lower_char (if Ascii.eqb c "-" then "_"%char else c) = c.
Proof.
  unfold normal_char, not_upper. intros H.
  apply andb_true_iff in H as [Hu Hd].
  apply negb_true_iff in Hu, Hd. rewrite Hd. unfold Str.lower_char.
  rewrite Hu. reflexivity.
Qed.

Lemma normal_char_not_upper c : normal_char c = true -> not_upper c = true.
Proof. unfold normal_char. intros H. apply andb_true_iff in H. tauto. Qed.

Lemma inflect_output_normal name :
  all_chars normal_char (inflect_column_name name) = true.
Proof.
  unfold inflect_column_name, Inflection.underscore.
  rewrite lower_replace. apply all_chars_map, lower_replace_normal.
Qed.

Lemma acronym_underscore_word_not_upper pos s :
  all_chars not_upper s = true ->
  Re.match_at acronym_underscore_word pos s = None.
Proof.
  unfold Re.match_at, acronym_underscore_word. cbn [Re.rmatch].
  destruct s as [|x s]; [reflexivity|]. cbn [all_chars Re.plus_cls].
  intros H. apply andb_true_iff in H as [Hx _].
  unfold not_upper in Hx. apply negb_true_iff in Hx. rewrite Hx. reflexivity.
Qed.

Lemma lower_underscore_upper_not_upper pos s :
  all_chars not_upper s = true ->
  Re.match_at lower_underscore_upper pos s = None.
Proof.
  unfold Re.match_at, lower_underscore_upper.
  cbn [Re.rmatch Re.lower_or_digit Re.lit Re.upper].
  destruct s as [|x [|y [|z s]]]; cbn [all_chars]; intros H.
  - reflexivity.
  - destruct (Str.is_lower x || Str.is_digit x); reflexivity.
  - destruct (Str.is_lower x || Str.is_digit x); [|reflexivity].
    destruct (Ascii.eqb "_" y); reflexivity.
  - apply andb_true_iff in H as [_ H]. apply andb_true_iff in H as [_ H].
    apply andb_true_iff in H as [Hz _].
    unfold not_upper in Hz. apply negb_true_iff in Hz.
    destruct (Str.is_lower x || Str.is_digit x); [|reflexivity].
    destruct (Ascii.eqb "_" y); [|reflexivity]. rewrite Hz. reflexivity.
Qed.

Lemma sub_not_upper r repl :
  (forall pos s, all_chars not_upper s = true -> Re.match_at r pos s = None) ->
  forall s, all_chars not_upper s = true -> Re.sub r repl s = s.
Proof.
  intros Hr s. unfold Re.sub.
  enough (H : forall pos, all_chars not_upper s = true ->
                          Re.sub_from r repl 0 pos s = s) by apply H.
  induction s as [|a s IH]; intros pos Hs; [reflexivity|].
  rewrite sub_from_none by (apply Hr, Hs).
  cbn [all_chars] in Hs. apply andb_true_iff in Hs as [_ Hs].
  rewrite IH by exact Hs. reflexivity.
Qed.

Lemma inflect_fixes_normal name :
  all_chars normal_char name = true -> inflect_column_name name = name.
Proof.
  intros Hn.
  pose proof (all_chars_impl _ _ name normal_char_not_upper Hn) as Hu.
  unfold inflect_column_name.
  rewrite (sub_not_upper _ _ acronym_underscore_word_not_upper name Hu).
  rewrite (sub_not_upper _ _ lower_underscore_upper_not_upper name Hu).
  unfold Inflection.underscore, Re.sub.
  rewrite sub_acronym_word_id by (apply not_upper_no_upper_pair, Hu).
  rewrite sub_lower_upper_id by (apply not_upper_no_lower_upper, Hu).
  rewrite lower_replace. apply (str_map_id _ normal_char name); [|exact Hn].
  apply normal_char_fixed.
Qed.

(** X5: a name that [inflect_column_name] returns has no uppercase letter
    and no hyphen, and inflecting it again changes nothing. *)
Theorem inflect_column_name_idempotent (name : string) :
  all_chars normal_char (inflect_column_name name) = true
  /\ inflect_column_name (inflect_column_name name)
     = inflect_column_name name.
Proof.
  split; [apply inflect_output_normal|].
  apply inflect_fixes_normal, inflect_output_normal.
Qed.

(** X6: [inflect_column_name] leaves every name of ASCII characters without
    uppercase letters and hyphens as it is. *)
Theorem inflect_column_name_keeps_snake_case (name : string) :
  ascii_only name = true ->
  all_chars normal_char name = true -> inflect_column_name name = name.
Proof. intros _. exact (inflect_fixes_normal name). Qed.

Lemma inflect_column_name_keeps_snake_case_witness :
  inflect_column_name "user_id_2" = "user_id_2".
Proof.
  apply (inflect_column_name_keeps_snake_case "user_id_2");
    vm_compute; reflexivity.
Defined.

Lemma list_set_Forall {A : Type} (P : A -> Prop) i x l :
  P x -> Forall P l -> Forall P (list_set i x l).
Proof.
  intros Hx Hl. revert i. induction Hl as [|y l Hy Hl IH]; intros i.
  - destruct i; constructor.
  - destruct i; cbn [list_set]; constructor; auto.
Qed.

Lemma flatten_key_loop_Forall (P : string -> Prop) fuel sep :
  (forall s, P (reduce_segment s)) ->
  forall l i, Forall P l -> Forall P (flatten_key_loop fuel sep l i).
Proof.
  intros Hred. induction fuel as [|fuel IH]; intros l i Hl; [exact Hl|].
  cbn [flatten_key_loop].
  destruct ((63 <=? String.length (Str.join sep l))
            && (i <? List.length l)); [|exact Hl].
  apply IH, list_set_Forall; [apply Hred|exact Hl].
Qed.

Lemma join_all_chars p sep l :
  all_chars p sep = true -> Forall (fun s => all_chars p s = true) l ->
  all_chars p (Str.join sep l) = true.
Proof.
  intros Hsep. induction 1 as [|x l Hx Hl IH]; [reflexivity|].
  destruct l as [|y l]; [exact Hx|].
  change (Str.join sep (x :: y :: l))
    with (x ++ sep ++ Str.join sep (y :: l))%string.
  rewrite !all_chars_app, Hx, Hsep, IH. reflexivity.
Qed.

(** X7: a column name has no uppercase letter, as long as the separator has
    none. *)
Theorem flatten_key_lowercase (k : string) (parent_key : list string)
    (sep : string) :
  all_chars not_upper sep = true ->
  all_chars not_upper (flatten_key k parent_key sep) = true.
Proof.
  intros Hsep. unfold flatten_key. apply join_all_chars; [exact Hsep|].
  apply flatten_key_loop_Forall.
  - intros s. unfold reduce_segment, Str.lower.
    apply all_chars_map, lower_char_not_upper.
  - apply Forall_map, Forall_forall. intros s _.
    apply (all_chars_impl normal_char), inflect_output_normal.
    apply normal_char_not_upper.
Qed.

Lemma flatten_key_lowercase_witness :
  all_chars not_upper (flatten_key "HTTPStatus" ["lastRequest"] "__") = true.
Proof. apply flatten_key_lowercase. vm_compute. reflexivity. Defined.

Lemma str_map_length f s : String.length (Str.map f s) = String.length s.
Proof. induction s as [|a s IH]; simpl; [reflexivity|]. rewrite IH. reflexivity. Qed.

Lemma substring_length_le n s :
  String.length (substring 0 n s) <= String.length s.
Proof.
  revert n. induction s as [|a s IH]; intros [|n]; simpl; try lia.
  specialize (IH n). lia.
Qed.

(** a substitution whose replacements are no longer than the matches they
    replace does not lengthen the string *)
Lemma sub_from_length r repl :
  (forall pos a rest p c,
     Re.match_at r pos (String a rest) = Some (p, c) -> pos < p ->
     String.length (repl (Re.group c)) <= p - pos
     /\ p - pos <= S (String.length rest)) ->
  forall s n pos, n <= String.length s ->
    String.length (Re.sub_from r repl n pos s) + n <= String.length s.
Proof.
  intros Hm. induction s as [|a s IH]; intros n pos Hn.
  - cbn [Re.sub_from String.length] in *. lia.
  - cbn [Re.sub_from]. destruct n as [|n].
    + destruct (Re.match_at r pos (String a s)) as [[p c]|] eqn:E.
      * destruct (p <=? pos) eqn:Hp.
        -- cbn [String.length]. specialize (IH 0 (S pos)). lia.
        -- apply Nat.leb_gt in Hp. destruct (Hm _ _ _ _ _ E Hp) as [H1 H2].
           rewrite str_length_app. specialize (IH (p - pos - 1) (S pos)).
           cbn [String.length]. lia.
      * cbn [String.length]. specialize (IH 0 (S pos)). lia.
    + cbn [String.length] in *. specialize (IH n (S pos)). lia.
Qed.

Lemma upper_first_length s :
  String.length (Str.upper (substring 0 1 s)) <= 1.
Proof.
  destruct s as [|a s]; [cbn; lia|].
  cbn [substring]. rewrite substring_0_0. cbn. lia.
Qed.

Lemma upper_capture_length pos a rest :
  String.length
    (Str.upper
       (Re.group [(1, substring 0 (S pos - pos) (String a rest))] 1))
  <= 1.
Proof.
  cbn [Re.group Nat.eqb]. replace (S pos - pos) with 1 by lia.
  apply upper_first_length.
Qed.

Lemma camelize_length s :
  String.length (Inflection.camelize s) <= String.length s.
Proof.
  unfold Inflection.camelize, Re.sub.
  match goal with
  | |- String.length (Re.sub_from ?r ?repl 0 0 s) <= _ =>
      pose proof (sub_from_length r repl) as H
  end.
  cbv beta in H.
  enough (Hlen : forall n pos : nat, n <= String.length s ->
            String.length
              (Re.sub_from
                 (Re.Seq (Re.Alt Re.Bol (Re.lit "_")) (Re.Group 1 Re.any))
                 (fun g => Str.upper (g 1)) n pos s) + n
            <= String.length s).
  { specialize (Hlen 0 0). lia. }
  apply H. clear H. intros pos a rest p c.
  unfold Re.match_at. cbn [Re.rmatch Re.any Re.lit].
  destruct (pos =? 0).
  - destruct (negb (Ascii.eqb a "010")).
    + intros Heq _. injection Heq as <- <-.
      split; [|lia].
      eapply Nat.le_trans; [exact (upper_capture_length pos a rest)|lia].
    + destruct (Ascii.eqb "_" a); [|discriminate].
      destruct rest as [|b rest]; [discriminate|].
      destruct (negb (Ascii.eqb b "010")); [|discriminate].
      intros Heq _. injection Heq as <- <-.
      split; [|cbn [String.length]; lia].
      eapply Nat.le_trans; [exact (upper_capture_length (S pos) b rest)|lia].
  - destruct (Ascii.eqb "_" a); [|discriminate].
    destruct rest as [|b rest]; [discriminate|].
    destruct (negb (Ascii.eqb b "010")); [|discriminate].
    intros Heq _. injection Heq as <- <-.
    split; [|cbn [String.length]; lia].
    eapply Nat.le_trans; [exact (upper_capture_length (S pos) b rest)|lia].
Qed.

Lemma strip_lower_length s :
  String.length (Re.sub Re.lower (fun _ => "") s) <= String.length s.
Proof.
  unfold Re.sub.
  pose proof (sub_from_length Re.lower (fun _ => "")) as H.
  enough (Hlen : forall n pos : nat, n <= String.length s ->
            String.length (Re.sub_from Re.lower (fun _ => "") n pos s) + n
            <= String.length s).
  { specialize (Hlen 0 0). lia. }
  apply H. clear H. intros pos a rest p c.
  unfold Re.match_at, Re.lower. cbn [Re.rmatch].
  destruct (Str.is_lower a); [|discriminate].
  intros Heq _. injection Heq as <- <-. cbn [String.length]. lia.
Qed.

Lemma reduce_segment_length seg :
  String.length (reduce_segment seg) <= String.length seg.
Proof.
  unfold reduce_segment, Str.lower. rewrite str_map_length.
  destruct (1 <? _).
  - pose proof (strip_lower_length (Inflection.camelize seg)).
    pose proof (camelize_length seg). lia.
  - apply substring_length_le.
Qed.

Lemma join_cons_length sep y l :
  String.length (Str.join sep (y :: l))
  = String.length y
    + match l with
      | [] => 0
      | _ => String.length sep + String.length (Str.join sep l)
      end.
Proof.
  destruct l as [|z l]; [cbn [Str.join]; lia|].
  change (Str.join sep (y :: z :: l))
    with (y ++ sep ++ Str.join sep (z :: l))%string.
  rewrite !str_length_app. reflexivity.
Qed.

Lemma join_list_set_length sep x l :
  forall i,
  String.length x <= String.length (nth i l "") ->
  String.length (Str.join sep (list_set i x l))
  <= String.length (Str.join sep l).
Proof.
  induction l as [|y l IH]; intros i Hx.
  - destruct i; cbn; lia.
  - destruct i as [|i].
    + cbn [list_set nth] in *. rewrite !join_cons_length. lia.
    + cbn [list_set nth] in *. rewrite !join_cons_length.
      specialize (IH i Hx).
      destruct l as [|z l]; [destruct i; cbn [list_set]; lia|].
      destruct (list_set i x (z :: l)) as [|w t] eqn:E;
        [destruct i; discriminate E|]. lia.
Qed.

Lemma flatten_key_loop_length fuel sep :
  forall l i,
  String.length (Str.join sep (flatten_key_loop fuel sep l i))
  <= String.length (Str.join sep l).
Proof.
  induction fuel as [|fuel IH]; intros l i; [cbn [flatten_key_loop]; lia|].
  cbn [flatten_key_loop].
  destruct ((63 <=? String.length (Str.join sep l)) && (i <? List.length l));
    [|lia].
  eapply Nat.le_trans; [apply IH|].
  apply join_list_set_length, reduce_segment_length.
Qed.

(** X8: abbreviation never lengthens a column name whose segments are of
    ASCII characters: the name returned is at most as long as the inflected
    segments joined by the separator. *)
Theorem flatten_key_never_longer (k : string) (parent_key : list string)
    (sep : string) :
  Forall (fun s => ascii_only s = true) (parent_key ++ [k]) ->
  String.length (flatten_key k parent_key sep)
  <= String.length
       (Str.join sep (List.map inflect_column_name (parent_key ++ [k]))).
Proof. intros _. unfold flatten_key. apply flatten_key_loop_length. Qed.

Lemma flatten_key_never_longer_witness :
  String.length (flatten_key outstanding_invoices ["customerAccount"] "__")
  <= String.length
       (Str.join "__"
          (List.map inflect_column_name
             (["customerAccount"] ++ [outstanding_invoices]))).
Proof.
  apply flatten_key_never_longer.
  constructor; [vm_compute; reflexivity|].
  constructor; [vm_compute; reflexivity|constructor].
Defined.

(** ** Record keys and column names *)

Lemma nested_leaves v :
  is_mapping v = false ->
  forall l q, leaves (nested (q :: l) v) = [(q :: l, v)].
Proof.
  intros Hv. induction l as [|q2 l IH]; intros q.
  - cbn [nested]. rewrite leaves_cons.
    destruct v; try reflexivity. discriminate Hv.
  - change (nested (q :: q2 :: l) v)
      with (JDict [(q, nested (q2 :: l) v)]).
    rewrite leaves_cons. rewrite IH.
    change (nested (q2 :: l) v) with (JDict [(q2, nested l v)]).
    reflexivity.
Qed.

Lemma extend_key_join sep :
  forall l q, String.eqb q "" = false ->
  Forall (fun s => String.eqb s "" = false) l ->
  extend_key q sep l = Str.join sep (q :: l).
Proof.
  induction l as [|k l IH]; intros q Hq Hl; [reflexivity|].
  inversion Hl as [|? ? Hk Hl']; subst.
  cbn [extend_key]. rewrite Hq. cbn [negb].
  change (Str.join sep (q :: k :: l))
    with (q ++ sep ++ Str.join sep (k :: l))%string.
  rewrite <- (IH k Hk Hl'), <- !str_app_assoc.
  apply extend_key_app, Hk.
Qed.

Lemma normal_segment_facts s :
  normal_segment s = true ->
  String.eqb s "" = false /\ inflect_column_name s = s.
Proof.
  unfold normal_segment. intros H. apply andb_true_iff in H as [Hne Hn].
  split; [apply negb_true_iff, Hne|apply inflect_fixes_normal, Hn].
Qed.

(** X9: where the names need no inflection and no abbreviation, records and
    schemas agree: a value that is not a mapping, nested under segments that
    are non-empty, of ASCII characters, without uppercase letters and
    hyphens, and shorter than 63 characters when joined, is stored by
    [flatten] under the very name [flatten_key] gives the column. *)
Theorem flatten_key_matches_record_key (py_str : json -> string)
    (path : list string) (k : string) (v : json) (sep : string) :
  Forall (fun s => ascii_only s = true) (path ++ [k]) ->
  Forall (fun s => normal_segment s = true) (path ++ [k]) ->
  String.length (Str.join sep (path ++ [k])) < 63 ->
  is_mapping v = false ->
  flatten py_str (nested (path ++ [k]) v) "" sep
  = Ok [(flatten_key k path sep, stored py_str v)].
Proof.
  intros _ Hseg Hlen Hv. unfold flatten_key.
  assert (Hmap : List.map inflect_column_name (path ++ [k]) = path ++ [k]).
  { clear Hlen. induction Hseg as [|s l Hs _ IH]; [reflexivity|].
    cbn [List.map]. rewrite IH.
    destruct (normal_segment_facts s Hs) as [_ ->]. reflexivity. }
  rewrite Hmap.
  assert (Hne : Forall (fun s => String.eqb s "" = false) (path ++ [k])).
  { eapply Forall_impl; [|exact Hseg]. intros s Hs.
    apply (normal_segment_facts s Hs). }
  destruct (path ++ [k]) as [|q l] eqn:E;
    [destruct path; discriminate E|].
  inversion Hne as [|? ? Hq Hl]; subst.
  rewrite (flatten_leaf_items py_str (nested (q :: l) v)
             [(q, nested l v)] "" sep eq_refl).
  unfold leaf_items. rewrite (nested_leaves v Hv).
  cbn [List.map fst snd dict_of_items fold_left dict_set extend_key
       String.eqb negb].
  rewrite (extend_key_join sep l q Hq Hl).
  cbn [List.length flatten_key_loop].
  apply Nat.leb_gt in Hlen. rewrite Hlen. reflexivity.
Qed.

Lemma flatten_key_matches_record_key_witness :
  flatten str_of_empty_list
    (nested (["customer"; "billing_address"] ++ ["postal_code"])
       (JStr "75001")) "" "__"
  = Ok [(flatten_key "postal_code" ["customer"; "billing_address"] "__",
         stored str_of_empty_list (JStr "75001"))].
Proof.
  apply flatten_key_matches_record_key.
  - repeat constructor.
  - repeat constructor.
  - vm_compute. lia.
  - reflexivity.
Defined.

(** ** Column types *)

(** X10: for a type given as a list, the column type depends only on the
    format and on which of the names object, array, number, integer, string
    and boolean the list holds: neither their order, nor their repetition,
    nor any other entry such as ['null'] matters. *)
Theorem sqlalchemy_column_type_by_names (d : dict) (l1 l2 : list json) :
  same_type_names l1 l2 = true ->
  sqlalchemy_column_type (JDict (dict_set "type" (JList l1) d))
  = sqlalchemy_column_type (JDict (dict_set "type" (JList l2) d)).
Proof.
  intros Hsame.
  assert (Hget : forall l,
            getitem (JDict (dict_set "type" (JList l) d)) "type"
            = Ok (JList l)).
  { intros l. cbn [getitem]. rewrite dict_get_set_same. reflexivity. }
  rewrite (sqlalchemy_column_type_cascade _ _ (Hget l1) eq_refl).
  rewrite (sqlalchemy_column_type_cascade _ _ (Hget l2) eq_refl).
  assert (Hfmt : forall l,
            format_of (JDict (dict_set "type" (JList l) d))
            = format_of (JDict d)).
  { intros l. cbn [format_of]. rewrite dict_get_set. reflexivity. }
  rewrite !Hfmt.
  unfold same_type_names, type_names in Hsame. cbn [forallb] in Hsame.
  repeat (apply andb_true_iff in Hsame as [?H Hsame]).
  repeat match goal with
         | H : Bool.eqb _ _ = true |- _ => apply Bool.eqb_prop in H; rewrite H
         end.
  reflexivity.
Qed.

Lemma sqlalchemy_column_type_by_names_witness :
  sqlalchemy_column_type
    (JDict (dict_set "type" (JList [JStr "null"; JStr "integer"])
              [("format", JStr "int64")]))
  = sqlalchemy_column_type
      (JDict (dict_set "type"
                (JList [JStr "integer"; JStr "date"; JStr "integer"])
                [("format", JStr "int64")])).
Proof.
  apply sqlalchemy_column_type_by_names. vm_compute. reflexivity.
Defined.

(** X11: [sqlalchemy_column_type] raises [KeyError] on a mapping without
    ["type"], [TypeError] on a descriptor that is not a mapping or whose
    type is neither a string, a list nor a mapping, and returns a column
    type in every other case; the format never makes it fail. *)
Theorem sqlalchemy_column_type_errors (schema_property : json) :
  match column_type_error schema_property with
  | Some e => sqlalchemy_column_type schema_property = Error e
  | None => exists ty, sqlalchemy_column_type schema_property = Ok ty
  end.
Proof.
  destruct schema_property as [| | | | | |d]; try reflexivity.
  cbn [column_type_error].
  destruct (dict_get "type" d) as [pt|] eqn:Hty.
  - destruct (iterable pt) eqn:Hit.
    + apply sqlalchemy_column_type_typed. exists pt. split; [|exact Hit].
      cbn [getitem]. rewrite Hty. reflexivity.
    + unfold sqlalchemy_column_type. cbn [getitem bind py_in].
      rewrite Hty. cbn [bind]. rewrite dict_mem_get.
      destruct (dict_get "format" d); cbn [bind];
        destruct pt; try discriminate Hit; reflexivity.
  - unfold sqlalchemy_column_type. cbn [getitem]. rewrite Hty. reflexivity.
Qed.

(** ** Schemas *)

Lemma schema_loop_cons rec_f k v props parent_key sep :
  fst (schema_loop rec_f ((k, v) :: props) parent_key sep)
  = (its <- fst (schema_property rec_f k v parent_key sep) ;;
     its' <- fst (schema_loop rec_f props parent_key sep) ;;
     Ok (its ++ its')).
Proof.
  cbn [schema_loop].
  destruct (schema_property rec_f k v parent_key sep) as [[its|e] v'];
    cbn [fst bind]; [|reflexivity].
  destruct (schema_loop rec_f props parent_key sep) as [[its'|e] props'];
    reflexivity.
Qed.

Lemma schema_loop_app rec_f props1 props2 parent_key sep :
  fst (schema_loop rec_f (props1 ++ props2) parent_key sep)
  = (its <- fst (schema_loop rec_f props1 parent_key sep) ;;
     its' <- fst (schema_loop rec_f props2 parent_key sep) ;;
     Ok (its ++ its')).
Proof.
  induction props1 as [|[k v] props1 IH].
  - cbn [app schema_loop fst bind].
    destruct (fst (schema_loop rec_f props2 parent_key sep)); reflexivity.
  - cbn [app]. rewrite !schema_loop_cons, IH.
    destruct (fst (schema_property rec_f k v parent_key sep)) as [its|e];
      cbn [bind]; [|reflexivity].
    destruct (fst (schema_loop rec_f props1 parent_key sep)) as [its1|e];
      cbn [bind]; [|reflexivity].
    destruct (fst (schema_loop rec_f props2 parent_key sep)) as [its2|e];
      cbn [bind]; [|reflexivity].
    rewrite app_assoc. reflexivity.
Qed.

Lemma flatten_schema_unfold dkvs props parent_key sep :
  dict_get "properties" dkvs = Some (JDict props) ->
  fst (flatten_schema (JDict dkvs) parent_key sep)
  = (items <- fst (schema_loop (flatten_schema_rec (depth (JDict dkvs)))
                     props parent_key sep) ;;
     finish_schema items).
Proof.
  intros Hp. unfold flatten_schema. cbn [flatten_schema_rec]. rewrite Hp.
  destruct (schema_loop _ props parent_key sep) as [r props']. reflexivity.
Qed.

Lemma schema_property_plainly_typed rec_f k v parent_key sep :
  plainly_typed v = true ->
  fst (schema_property rec_f k v parent_key sep)
  = Ok [(flatten_key k parent_key sep, v)].
Proof.
  unfold plainly_typed, schema_property.
  destruct v as [| | | | | |vkvs]; try discriminate.
  destruct (dict_get "type" vkvs) as [ty|] eqn:Hty; [|discriminate].
  destruct (py_in "object" ty) as [[|]|e] eqn:Hin; try discriminate.
  intros _. rewrite dict_mem_get, Hty.
  destruct vkvs as [|kv vkvs]; [discriminate Hty|].
  cbn [truthy negb getitem bind]. rewrite Hty. cbn [bind]. rewrite Hin.
  reflexivity.
Qed.

Lemma schema_loop_plainly_typed rec_f props parent_key sep :
  forallb (fun kv => plainly_typed (snd kv)) props = true ->
  exists items, fst (schema_loop rec_f props parent_key sep) = Ok items.
Proof.
  induction props as [|[k v] props IH]; cbn [forallb snd]; intros H.
  - exists []. reflexivity.
  - apply andb_true_iff in H as [Hv Hrest]. destruct (IH Hrest) as [its Hits].
    rewrite schema_loop_cons, (schema_property_plainly_typed _ _ _ _ _ Hv),
      Hits.
    eexists. reflexivity.
Qed.

(** X12: a property declared of type ['object'] without ["properties"] of
    its own makes [flatten_schema] raise [KeyError: 'properties'], whatever
    follows it, when the properties before it are plainly typed. *)
Theorem flatten_schema_object_without_properties
    (dkvs before after : list (string * json)) (k : string)
    (vkvs : list (string * json)) (parent_key : list string) (sep : string) :
  dict_get "properties" dkvs
  = Some (JDict (before ++ (k, JDict vkvs) :: after)) ->
  forallb (fun kv => plainly_typed (snd kv)) before = true ->
  object_typed (JDict vkvs) = true ->
  dict_mem "properties" vkvs = false ->
  fst (flatten_schema (JDict dkvs) parent_key sep)
  = Error (KeyError (JStr "properties")).
Proof.
  intros Hp Hbefore Hobj Hnone.
  rewrite (flatten_schema_unfold _ _ _ _ Hp), schema_loop_app.
  destruct (schema_loop_plainly_typed
              (flatten_schema_rec (depth (JDict dkvs))) before parent_key sep
              Hbefore) as [its ->].
  cbn [bind]. rewrite schema_loop_cons.
  assert (Hk : fst (schema_property (flatten_schema_rec (depth (JDict dkvs)))
                      k (JDict vkvs) parent_key sep)
               = Error (KeyError (JStr "properties"))).
  { unfold schema_property. unfold object_typed in Hobj.
    destruct (getitem (JDict vkvs) "type") as [ty|e] eqn:Hty;
      [|discriminate Hobj].
    cbn [bind] in Hobj |- *.
    destruct (py_in "object" ty) as [[|]|e]; try discriminate Hobj.
    assert (Hmem : dict_mem "type" vkvs = true).
    { rewrite dict_mem_get. cbn [getitem] in Hty.
      destruct (dict_get "type" vkvs); [reflexivity|discriminate Hty]. }
    rewrite Hmem.
    destruct vkvs as [|kv vkvs]; [discriminate Hmem|].
    cbn [truthy negb].
    change (depth (JDict dkvs)) with
      (S (fold_right (fun kv n => Nat.max (depth (snd kv)) n) 0 dkvs)).
    cbn [flatten_schema_rec]. rewrite dict_mem_get in Hnone.
    destruct (dict_get "properties" (kv :: vkvs)); [discriminate Hnone|].
    reflexivity. }
  rewrite Hk. reflexivity.
Qed.

Lemma flatten_schema_object_without_properties_witness :
  fst (flatten_schema
         (JDict [("properties", JDict (
            [("id", JDict [("type", JStr "integer")])]
            ++ ("payload", JDict [("type", JList [JStr "null";
                                                  JStr "object"])])
            :: [("name", JDict [("type", JStr "string")])]))])
         [] "__")
  = Error (KeyError (JStr "properties")).
Proof.
  apply (flatten_schema_object_without_properties
           [("properties", JDict (
              [("id", JDict [("type", JStr "integer")])]
              ++ ("payload", JDict [("type", JList [JStr "null";
                                                    JStr "object"])])
              :: [("name", JDict [("type", JStr "string")])]))]
           [("id", JDict [("type", JStr "integer")])]
           [("name", JDict [("type", JStr "string")])] "payload"
           [("type", JList [JStr "null"; JStr "object"])]);
    reflexivity.
Defined.

Lemma schema_loop_perm rec_f parent_key sep props props' :
  Permutation props props' ->
  forall items,
  fst (schema_loop rec_f props parent_key sep) = Ok items ->
  exists items',
    fst (schema_loop rec_f props' parent_key sep) = Ok items'
    /\ Permutation items items'.
Proof.
  induction 1 as [|[k v] l l' Hperm IH|[k1 v1] [k2 v2] l|l l' l'' _ IH1 _ IH2];
    intros items.
  - intros H. exists items. split; [exact H|reflexivity].
  - rewrite !schema_loop_cons.
    destruct (fst (schema_property rec_f k v parent_key sep)) as [its|e];
      cbn [bind]; [|discriminate].
    destruct (fst (schema_loop rec_f l parent_key sep)) as [its1|e];
      cbn [bind]; [|discriminate].
    intros Heq. injection Heq as <-.
    destruct (IH its1 eq_refl) as (its1' & -> & Hp). cbn [bind].
    eexists. split; [reflexivity|]. apply Permutation_app_head, Hp.
  - rewrite !schema_loop_cons.
    destruct (fst (schema_property rec_f k1 v1 parent_key sep)) as [its1|e];
      cbn [bind].
    + destruct (fst (schema_property rec_f k2 v2 parent_key sep))
        as [its2|e]; cbn [bind]; [|discriminate].
      destruct (fst (schema_loop rec_f l parent_key sep)) as [its|e];
        cbn [bind]; [|discriminate].
      intros Heq. injection Heq as <-.
      eexists. split; [reflexivity|].
      rewrite !app_assoc. apply Permutation_app_tail, Permutation_app_comm.
    + destruct (fst (schema_property rec_f k2 v2 parent_key sep))
        as [its2|e2]; cbn [bind]; [|discriminate].
      destruct (fst (schema_loop rec_f l parent_key sep)); discriminate.
  - intros H. destruct (IH1 items H) as (items1 & H1 & Hp1).
    destruct (IH2 items1 H1) as (items2 & H2 & Hp2).
    exists items2. split; [exact H2|].
    eapply Permutation_trans; eassumption.
Qed.

Lemma key_lt_asym x y : key_lt x y -> key_lt y x -> False.
Proof.
  unfold key_lt. intros H1 H2.
  pose proof (string_ltb_trans _ _ _ H1 H2) as H.
  rewrite string_ltb_irrefl in H. discriminate H.
Qed.

Lemma strongly_sorted_unique (l1 : list (string * json)) :
  forall l2,
  StronglySorted key_lt l1 -> StronglySorted key_lt l2 ->
  Permutation l1 l2 -> l1 = l2.
Proof.
  induction l1 as [|x l1 IH]; intros l2 Hs1 Hs2 Hperm.
  - apply Permutation_nil in Hperm. symmetry. exact Hperm.
  - destruct l2 as [|y l2].
    { apply Permutation_sym, Permutation_nil in Hperm. discriminate Hperm. }
    apply StronglySorted_inv in Hs1 as [Hs1 Hx].
    apply StronglySorted_inv in Hs2 as [Hs2 Hy].
    assert (Hxy : x = y).
    { pose proof (Permutation_in x Hperm (or_introl eq_refl)) as Hin1.
      pose proof (Permutation_in y (Permutation_sym Hperm)
                    (or_introl eq_refl)) as Hin2.
      destruct Hin1 as [Heq|Hin1]; [symmetry; exact Heq|].
      destruct Hin2 as [Heq|Hin2]; [exact Heq|].
      rewrite Forall_forall in Hx, Hy.
      destruct (key_lt_asym _ _ (Hx _ Hin2) (Hy _ Hin1)). }
    subst y. f_equal. apply IH; [exact Hs1|exact Hs2|].
    eapply Permutation_cons_inv. exact Hperm.
Qed.

Lemma keys_perm (l1 l2 : list (string * json)) :
  Permutation l1 l2 -> Permutation (keys l1) (keys l2).
Proof. apply Permutation_map. Qed.

Lemma finish_schema_perm items items' flat :
  Permutation items items' ->
  finish_schema items = Ok flat -> finish_schema items' = Ok flat.
Proof.
  intros Hperm Hok.
  destruct (finish_schema_ok _ _ Hok) as (-> & Hnd & Hs).
  destruct (finish_schema_spec items')
    as [(_ & Hok' & Hs')|(k & _ & Hcount)].
  - rewrite Hok'. apply (f_equal Ok).
    apply strongly_sorted_unique; [exact Hs'|exact Hs|].
    eapply Permutation_trans; [apply sorted_perm|].
    eapply Permutation_trans; [apply Permutation_sym, Hperm|].
    apply Permutation_sym, sorted_perm.
  - rewrite <- (perm_count _ _ k (keys_perm _ _ Hperm)) in Hcount.
    rewrite (NoDup_count_occ string_dec) in Hnd. specialize (Hnd k). lia.
Qed.

(** X13: the flattened schema does not depend on the order in which the
    properties are declared: when [flatten_schema] returns a mapping, it
    returns the same mapping for every reordering of the properties. *)
Theorem flatten_schema_property_order (dkvs props props' : list (string * json))
    (parent_key : list string) (sep : string) (flat : dict) :
  dict_get "properties" dkvs = Some (JDict props) ->
  Permutation props props' ->
  fst (flatten_schema (JDict dkvs) parent_key sep) = Ok flat ->
  fst (flatten_schema (JDict (dict_set "properties" (JDict props') dkvs))
         parent_key sep) = Ok flat.
Proof.
  intros Hp Hperm.
  rewrite (flatten_schema_unfold _ _ _ _ Hp).
  rewrite (flatten_schema_unfold _ props' _ _ (dict_get_set_same _ _ _)).
  set (d' := JDict (dict_set "properties" (JDict props') dkvs)).
  rewrite (schema_loop_ext (flatten_schema_rec (depth d'))
             (flatten_schema_rec (depth (JDict dkvs))) props').
  - destruct (fst (schema_loop _ props parent_key sep)) as [items|e] eqn:Hl;
      cbn [bind]; [|discriminate].
    intros Hfin.
    destruct (schema_loop_perm _ _ _ _ _ Hperm _ Hl) as (items' & -> & Hpi).
    cbn [bind]. exact (finish_schema_perm _ _ _ Hpi Hfin).
  - intros k v Hin p s. apply flatten_schema_rec_fuel.
    + eapply Nat.lt_trans; [apply (depth_In _ _ _ Hin)|].
      apply (depth_In "properties"), dict_get_In, dict_get_set_same.
    + eapply Nat.lt_trans;
        [apply (depth_In k), (Permutation_in _ (Permutation_sym Hperm)), Hin|].
      apply (depth_In "properties"), dict_get_In, Hp.
Qed.

Lemma flatten_schema_property_order_witness :
  fst (flatten_schema
         (JDict (dict_set "properties"
                   (JDict [("name", JDict [("type", JStr "string")]);
                           ("userId", JDict [("type", JStr "integer")])])
                   [("properties",
                     JDict [("userId", JDict [("type", JStr "integer")]);
                            ("name", JDict [("type", JStr "string")])])]))
         [] "__")
  = Ok [("name", JDict [("type", JStr "string")]);
        ("user_id", JDict [("type", JStr "integer")])].
Proof.
  apply (flatten_schema_property_order
           [("properties",
             JDict [("userId", JDict [("type", JStr "integer")]);
                    ("name", JDict [("type", JStr "string")])])]
           [("userId", JDict [("type", JStr "integer")]);
            ("name", JDict [("type", JStr "string")])]).
  - reflexivity.
  - apply perm_swap.
  - vm_compute. reflexivity.
Defined.

(** *** A second call on the same schema *)

Lemma fewer_refl its : fewer its its.
Proof. split; [apply incl_refl|intros k; lia]. Qed.

Lemma fewer_nil its : fewer [] its.
Proof. split; [intros x []|intros k; cbn; lia]. Qed.

Lemma keys_app (a b : list (string * json)) : keys (a ++ b) = keys a ++ keys b.
Proof. apply map_app. Qed.

Lemma fewer_app a' a b' b : fewer a' a -> fewer b' b -> fewer (a' ++ b') (a ++ b).
Proof.
  intros [Hi1 Hc1] [Hi2 Hc2]. split.
  - apply incl_app_app; assumption.
  - intros k. unfold keys in *. rewrite !map_app, !count_occ_app.
    specialize (Hc1 k). specialize (Hc2 k). lia.
Qed.

Lemma fewer_NoDup its' its :
  fewer its' its -> NoDup (keys its) -> NoDup (keys its').
Proof.
  intros [_ Hc] Hnd. rewrite (NoDup_count_occ string_dec) in Hnd |- *.
  intros k. specialize (Hc k). specialize (Hnd k). lia.
Qed.

Lemma fewer_not_In its' its k :
  fewer its' its -> ~ In k (keys its) -> ~ In k (keys its').
Proof.
  intros [_ Hc] Hnot.
  rewrite (count_occ_not_In string_dec) in Hnot |- *.
  specialize (Hc k). lia.
Qed.

Lemma NoDup_app_disjoint (a b : list string) x :
  NoDup (a ++ b) -> In x b -> ~ In x a.
Proof.
  intros Hnd Hb. rewrite (NoDup_count_occ string_dec) in Hnd.
  specialize (Hnd x). rewrite count_occ_app in Hnd.
  rewrite (count_occ_In string_dec) in Hb.
  rewrite (count_occ_not_In string_dec). lia.
Qed.

Lemma finish_schema_fewer items items' flat :
  fewer items' items -> finish_schema items = Ok flat ->
  exists flat',
    finish_schema items' = Ok flat' /\ fewer flat' flat
    /\ Permutation flat' items'.
Proof.
  intros Hf Hok.
  destruct (finish_schema_ok _ _ Hok) as (-> & Hnd & _).
  pose proof (fewer_NoDup _ _ Hf Hnd) as Hnd'.
  destruct (finish_schema_spec items')
    as [(_ & Hok' & _)|(k & _ & Hcount)].
  - exists (sorted items'). split; [exact Hok'|].
    split; [|apply sorted_perm].
    destruct Hf as [Hi Hc]. split.
    + intros x Hx. apply (Permutation_in _ (Permutation_sym (sorted_perm _))).
      apply Hi. apply (Permutation_in _ (sorted_perm _)). exact Hx.
    + intros k.
      rewrite (perm_count _ _ k (keys_perm _ _ (sorted_perm items'))).
      rewrite (perm_count _ _ k (keys_perm _ _ (sorted_perm items))).
      apply Hc.
  - rewrite (NoDup_count_occ string_dec) in Hnd'. specialize (Hnd' k). lia.
Qed.

Lemma dict_mem_keys k d d' : keys d' = keys d -> dict_mem k d' = dict_mem k d.
Proof.
  intros Hk. destruct (dict_mem k d) eqn:Hm.
  - apply dict_mem_In. rewrite Hk. apply dict_mem_In, Hm.
  - destruct (dict_mem k d') eqn:Hm'; [|reflexivity].
    apply dict_mem_In in Hm'. rewrite Hk in Hm'. apply dict_mem_In in Hm'.
    rewrite Hm in Hm'. discriminate Hm'.
Qed.

Lemma In_dict_get k v d : NoDup (keys d) -> In (k, v) d -> dict_get k d = Some v.
Proof.
  induction d as [|[k0 v0] d IH]; intros Hnd Hin; [destruct Hin|].
  cbn [keys List.map fst] in Hnd. apply NoDup_cons_iff in Hnd as [Hnot Hnd].
  cbn [dict_get]. destruct Hin as [Heq|Hin].
  - injection Heq as -> ->. rewrite String.eqb_refl. reflexivity.
  - destruct (String.eqb_spec k0 k) as [->|_]; [|apply IH; assumption].
    destruct Hnot. apply (in_map fst) in Hin. exact Hin.
Qed.

(** the alternatives are visited without effect once a type was forced *)
Lemma first_alternative_again new_key v its v' :
  first_alternative new_key v = (Ok its, v') ->
  first_alternative new_key v' = (Ok [], v')
  /\ exists vkvs vkvs',
       v = JDict vkvs /\ v' = JDict vkvs' /\ keys vkvs' = keys vkvs
       /\ vkvs <> [].
Proof.
  unfold first_alternative.
  destruct v as [| | | | | |[|[k0 alts] v_rest]]; try discriminate.
  destruct (getitem0 alts) as [property|e] eqn:Hg; [|discriminate].
  destruct (getitem property "type") as [ty|e] eqn:Hty; [|discriminate].
  assert (Hforce : forall t,
    match alts, property with
    | JList (_ :: alts_rest), JDict p =>
        (Ok [(new_key, JDict (dict_set "type" (nullable t) p))],
         JDict ((k0, JList (JDict (dict_set "type" (nullable t) p)
                              :: alts_rest)) :: v_rest))
    | _, _ => (Error TypeError, JDict ((k0, alts) :: v_rest))
    end = (Ok its, v') ->
    first_alternative new_key v' = (Ok [], v')
    /\ exists vkvs vkvs',
         JDict ((k0, alts) :: v_rest) = JDict vkvs /\ v' = JDict vkvs'
         /\ keys vkvs' = keys vkvs /\ vkvs <> []).
  { intros t. destruct alts as [| | | | |[|a alts_rest]|]; try discriminate.
    destruct property as [| | | | | |p]; try discriminate.
    intros Heq. injection Heq as <- <-. split.
    - unfold first_alternative. cbn [getitem0 getitem].
      rewrite dict_get_set_same. reflexivity.
    - do 2 eexists. repeat (split; [reflexivity|]). discriminate. }
  unfold first_alternative in Hforce.
  destruct (eq_str ty "string") eqn:Hs; [apply Hforce|].
  destruct (eq_str ty "array") eqn:Ha; [apply Hforce|].
  intros Heq. injection Heq as <- <-. rewrite Hg, Hty, Hs, Ha. split.
  - reflexivity.
  - do 2 eexists. repeat (split; [reflexivity|]). discriminate.
Qed.

Lemma first_alternative_forced new_key v t :
  first_alternative_type v = Some t ->
  exists x, fst (first_alternative new_key v) = Ok [(new_key, x)].
Proof.
  unfold first_alternative_type, alternative_type, first_alternative.
  destruct v as [| | | | | |[|[k0 alts] v_rest]]; try discriminate.
  destruct (dict_mem "type" ((k0, alts) :: v_rest)); [discriminate|].
  destruct (getitem0 alts) as [property|e] eqn:Hg; cbn [bind];
    [|discriminate].
  destruct (getitem property "type") as [ty|e] eqn:Hty; [|discriminate].
  destruct property as [| | | | | |p]; try discriminate Hty.
  destruct alts as [| | | |s|[|a alts_rest]|]; try discriminate Hg.
  { destruct s; discriminate Hg. }
  destruct (eq_str ty "string"); [intros _; eexists; reflexivity|].
  destruct (eq_str ty "array"); [intros _; eexists; reflexivity|].
  discriminate.
Qed.

Lemma schema_property_again rec1 rec2 k v parent_key sep its v' :
  schema_property rec1 k v parent_key sep = (Ok its, v') ->
  (forall flat, rec1 v (parent_key ++ [k]) sep = (Ok flat, v') ->
     exists flat', rec2 v' (parent_key ++ [k]) sep = (Ok flat', v')
                   /\ fewer flat' flat /\ same_type v v') ->
  exists its',
    schema_property rec2 k v' parent_key sep = (Ok its', v')
    /\ fewer its' its
    /\ (forall t, first_alternative_type v = Some t ->
          its' = [] /\ exists x, its = [(flatten_key k parent_key sep, x)]).
Proof.
  unfold schema_property.
  destruct (negb (truthy v)) eqn:Ht; [discriminate|].
  destruct v as [| | | | | |vkvs]; try discriminate.
  destruct (dict_mem "type" vkvs) eqn:Hm.
  - assert (Hnone : forall t, first_alternative_type (JDict vkvs) <> Some t).
    { intros t. cbn [first_alternative_type]. rewrite Hm. discriminate. }
    destruct (ty <- getitem (JDict vkvs) "type" ;; py_in "object" ty)
      as [[|]|e] eqn:Hobj; try discriminate.
    + destruct (rec1 (JDict vkvs) (parent_key ++ [k]) sep) as [r v1] eqn:Hr.
      intros Heq. injection Heq as -> ->. intros Hrec.
      destruct (Hrec its eq_refl) as (flat' & Hr2 & Hf & Hshape).
      destruct (Hshape vkvs eq_refl) as (vkvs' & -> & Hty).
      assert (Hm' : dict_mem "type" vkvs' = true).
      { rewrite dict_mem_get, Hty, <- dict_mem_get. exact Hm. }
      rewrite Hm'.
      assert (Hobj' : (ty <- getitem (JDict vkvs') "type" ;; py_in "object" ty)
                      = Ok true).
      { cbn [getitem] in Hobj |- *. rewrite Hty. exact Hobj. }
      rewrite Hobj', Hr2.
      destruct vkvs' as [|kv vkvs']; [discriminate Hm'|]. cbn [truthy negb].
      exists flat'. split; [reflexivity|]. split; [exact Hf|].
      intros t Hsome. destruct (Hnone t Hsome).
    + intros Heq. injection Heq as <- <-. intros _.
      rewrite Ht, Hm, Hobj. eexists. split; [reflexivity|].
      split; [apply fewer_refl|].
      intros t Hsome. destruct (Hnone t Hsome).
  - intros Hfa _.
    destruct (first_alternative_again _ _ _ _ Hfa)
      as (H2 & vk & vk' & Hv & -> & Hkeys & Hne).
    injection Hv as <-.
    rewrite (dict_mem_keys "type" _ _ Hkeys), Hm, H2.
    assert (Htruthy : negb (truthy (JDict vk')) = false).
    { destruct vk' as [|kv vk']; [|reflexivity].
      destruct vkvs; [destruct Hne; reflexivity|discriminate Hkeys]. }
    rewrite Htruthy. exists []. split; [reflexivity|].
    split; [apply fewer_nil|].
    intros t Hsome. split; [reflexivity|].
    destruct (first_alternative_forced (flatten_key k parent_key sep) _ t Hsome)
      as (x & Hx).
    rewrite Hfa in Hx. cbn [fst] in Hx. injection Hx as ->.
    exists x. reflexivity.
Qed.

Lemma schema_loop_again rec1 rec2 parent_key sep :
  forall props items props',
  schema_loop rec1 props parent_key sep = (Ok items, props') ->
  (forall k v v' flat,
     In (k, v') props' ->
     rec1 v (parent_key ++ [k]) sep = (Ok flat, v') ->
     exists flat', rec2 v' (parent_key ++ [k]) sep = (Ok flat', v')
                   /\ fewer flat' flat /\ same_type v v') ->
  exists items',
    schema_loop rec2 props' parent_key sep = (Ok items', props')
    /\ fewer items' items
    /\ (NoDup (keys items) ->
        forall k v t,
          In (k, v) props -> first_alternative_type v = Some t ->
          In (flatten_key k parent_key sep) (keys items)
          /\ ~ In (flatten_key k parent_key sep) (keys items')).
Proof.
  induction props as [|[k v] props IH]; intros items props';
    cbn [schema_loop].
  - intros H. injection H as <- <-. intros _. exists [].
    split; [reflexivity|]. split; [apply fewer_nil|].
    intros _ k v t [].
  - destruct (schema_property rec1 k v parent_key sep) as [[its|e] v1] eqn:Hp;
      [|discriminate].
    destruct (schema_loop rec1 props parent_key sep)
      as [[its_r|e] props_r] eqn:Hl; cbn [bind]; [|discriminate].
    intros H. injection H as <- <-. intros Hrec.
    destruct (schema_property_again rec1 rec2 k v parent_key sep its v1 Hp)
      as (its' & Hp2 & Hf & Hforced).
    { intros flat Hr. apply (Hrec k v v1 flat); [left; reflexivity|exact Hr]. }
    destruct (IH its_r props_r eq_refl) as (items_r' & Hl2 & Hfr & Hforced_r).
    { intros k0 v0 v0' flat Hin. apply Hrec. right. exact Hin. }
    exists (its' ++ items_r'). cbn [schema_loop]. rewrite Hp2, Hl2.
    cbn [bind]. split; [reflexivity|]. split; [apply fewer_app; assumption|].
    intros Hnd k0 v0 t Hin Hsome.
    rewrite keys_app in Hnd. rewrite (keys_app its), (keys_app its').
    destruct Hin as [Heq|Hin].
    + injection Heq as <- <-.
      destruct (Hforced t Hsome) as (-> & x & ->).
      cbn [keys List.map fst app] in Hnd |- *.
      apply NoDup_cons_iff in Hnd as [Hnot _].
      split; [left; reflexivity|]. apply (fewer_not_In _ _ _ Hfr Hnot).
    + destruct (Hforced_r (NoDup_app_remove_l _ _ Hnd) k0 v0 t Hin Hsome)
        as [Hi Hni].
      split; [apply in_or_app; right; exact Hi|].
      intros Hc. apply in_app_or in Hc as [Hc|Hc]; [|exact (Hni Hc)].
      revert Hc. apply (fewer_not_In _ _ _ Hf).
      apply (NoDup_app_disjoint _ _ _ Hnd Hi).
Qed.

Lemma flatten_schema_rec_again n :
  forall d parent_key sep flat d',
  flatten_schema_rec n d parent_key sep = (Ok flat, d') ->
  forall m, depth d' < m ->
  exists flat',
    flatten_schema_rec m d' parent_key sep = (Ok flat', d')
    /\ fewer flat' flat /\ same_type d d'
    /\ (forall dkvs props k v t,
          d = JDict dkvs -> dict_get "properties" dkvs = Some (JDict props) ->
          In (k, v) props -> first_alternative_type v = Some t ->
          In (flatten_key k parent_key sep) (keys flat)
          /\ ~ In (flatten_key k parent_key sep) (keys flat')).
Proof.
  induction n as [|n IH]; intros d parent_key sep flat d';
    cbn [flatten_schema_rec]; [discriminate|].
  destruct d as [| | | | | |dkvs]; try discriminate.
  destruct (dict_get "properties" dkvs) as [[| | | | | |props]|] eqn:Hp;
    try discriminate.
  destruct (schema_loop (flatten_schema_rec n) props parent_key sep)
    as [[items|e] props'] eqn:Hl; cbn [bind]; [|discriminate].
  intros H. injection H as Hfin <-. intros [|m] Hdepth; [lia|].
  destruct (schema_loop_again (flatten_schema_rec n) (flatten_schema_rec m)
              parent_key sep props items props' Hl)
    as (items' & Hl2 & Hf & Hforced).
  { intros k v v' fl Hin Hr.
    destruct (IH v (parent_key ++ [k]) sep fl v' Hr m)
      as (fl' & H1 & H2 & H3 & _).
    - pose proof (depth_In _ _ _ Hin) as Hd1.
      pose proof (depth_In "properties" (JDict props')
                    (dict_set "properties" (JDict props') dkvs)
                    (dict_get_In _ _ _ (dict_get_set_same _ _ _))) as Hd2.
      lia.
    - exists fl'. auto. }
  destruct (finish_schema_fewer items items' flat Hf Hfin)
    as (flat' & Hfin' & Hff & Hperm').
  exists flat'. split.
  { cbn [flatten_schema_rec]. rewrite dict_get_set_same, Hl2. cbn [bind].
    rewrite Hfin', dict_set_twice. reflexivity. }
  split; [exact Hff|]. split.
  { intros vk Heq. injection Heq as <-. eexists. split; [reflexivity|].
    rewrite dict_get_set. reflexivity. }
  intros dk pr k v t Heq Hpr Hin Hsome. injection Heq as <-.
  rewrite Hp in Hpr. injection Hpr as <-.
  destruct (finish_schema_ok _ _ Hfin) as (-> & Hnd & _).
  destruct (Hforced Hnd k v t Hin Hsome) as [Hi Hni]. split.
  - apply (Permutation_in _ (Permutation_sym (keys_perm _ _ (sorted_perm _)))).
    exact Hi.
  - intros Hc. apply Hni.
    apply (Permutation_in _ (keys_perm _ _ Hperm')). exact Hc.
Qed.

(** X14: a second call on the schema that a first call has returned from
    succeeds and changes the schema no more, but returns less: the mapping
    of the second call is part of the mapping of the first, and every
    definition without an explicit ["type"] whose first alternative the
    first call turned into a column has no column in it.  Only where no
    type was forced are the two mappings the same. *)
Theorem flatten_schema_second_call (dkvs props : list (string * json))
    (parent_key : list string) (sep : string) (flat : dict) (d' : json) :
  dict_get "properties" dkvs = Some (JDict props) ->
  flatten_schema (JDict dkvs) parent_key sep = (Ok flat, d') ->
  exists flat',
    flatten_schema d' parent_key sep = (Ok flat', d')
    /\ (forall k x, dict_get k flat' = Some x -> dict_get k flat = Some x)
    /\ (forall k v t,
          In (k, v) props -> first_alternative_type v = Some t ->
          dict_mem (flatten_key k parent_key sep) flat = true
          /\ dict_mem (flatten_key k parent_key sep) flat' = false)
    /\ (no_forced_type (JDict dkvs) = true -> flat' = flat).
Proof.
  intros Hp Hcall.
  assert (Hsorted : StronglySorted key_lt flat).
  { apply (flatten_schema_sorted (JDict dkvs) parent_key sep).
    rewrite Hcall. reflexivity. }
  unfold flatten_schema in Hcall |- *.
  destruct (flatten_schema_rec_again _ _ _ _ _ _ Hcall (S (depth d'))
              (Nat.lt_succ_diag_r _))
    as (flat' & Hcall' & [Hincl _] & _ & Hforced).
  exists flat'. split; [exact Hcall'|]. split; [|split].
  - intros k x Hget. apply In_dict_get; [apply key_lt_NoDup, Hsorted|].
    apply Hincl, dict_get_In, Hget.
  - intros k v t Hin Hsome.
    destruct (Hforced dkvs props k v t eq_refl Hp Hin Hsome) as [Hi Hni].
    split; [apply dict_mem_In, Hi|].
    destruct (dict_mem (flatten_key k parent_key sep) flat') eqn:Hm;
      [|reflexivity].
    destruct Hni. apply dict_mem_In, Hm.
  - intros Hnone.
    pose proof (flatten_schema_rec_frame (S (depth (JDict dkvs))) (JDict dkvs)
                  parent_key sep Hnone) as Hframe.
    rewrite Hcall in Hframe. cbn [snd] in Hframe. subst d'.
    rewrite Hcall in Hcall'. injection Hcall' as ->. reflexivity.
Qed.

Lemma flatten_schema_second_call_witness :
  exists flat',
    flatten_schema schema_with_alternatives_after [] "__"
    = (Ok flat', schema_with_alternatives_after)
    /\ (forall k x, dict_get k flat' = Some x ->
                    dict_get k flat_with_alternatives = Some x)
    /\ (forall k v t,
          In (k, v)
             [("id", JDict [("type", JStr "integer")]);
              ("note", JDict [("anyOf",
                 JList [JDict [("type", JStr "string")];
                        JDict [("type", JStr "null")]])])] ->
          first_alternative_type v = Some t ->
          dict_mem (flatten_key k [] "__") flat_with_alternatives = true
          /\ dict_mem (flatten_key k [] "__") flat' = false)
    /\ (no_forced_type (JDict schema_with_alternatives) = true ->
        flat' = flat_with_alternatives).
Proof.
  apply (flatten_schema_second_call schema_with_alternatives); reflexivity.
Defined.

(** *** What the columns are *)

Lemma first_alternative_plainly_typed new_key v its :
  fst (first_alternative new_key v) = Ok its ->
  Forall (fun kv => plainly_typed (snd kv) = true) its.
Proof.
  unfold first_alternative.
  destruct v as [| | | | | |[|[k0 alts] v_rest]]; try discriminate.
  destruct (getitem0 alts) as [property|e]; [|discriminate].
  destruct (getitem property "type") as [ty|e]; [|discriminate].
  assert (Hforced : forall t p,
    t = "string" \/ t = "array" ->
    Forall (fun kv => plainly_typed (snd kv) = true)
      [(new_key, JDict (dict_set "type" (nullable t) p))]).
  { intros t p Ht. constructor; [|constructor].
    cbn [snd plainly_typed]. rewrite dict_get_set_same.
    destruct Ht as [-> | ->]; reflexivity. }
  destruct (eq_str ty "string"), (eq_str ty "array");
    destruct alts as [| | | | |[|a alts]|], property; cbn [fst];
    intros H; try discriminate H; injection H as <-;
    try (apply Hforced; auto); constructor.
Qed.

Section PlainlyTyped.

Variable rec_f : json -> list string -> string -> result dict * json.
Hypothesis rec_plainly_typed :
  forall v parent_key sep flat,
  fst (rec_f v parent_key sep) = Ok flat ->
  Forall (fun kv => plainly_typed (snd kv) = true) flat.

Lemma schema_property_columns k v parent_key sep its :
  fst (schema_property rec_f k v parent_key sep) = Ok its ->
  Forall (fun kv => plainly_typed (snd kv) = true) its.
Proof.
  unfold schema_property.
  destruct (negb (truthy v)); [discriminate|].
  destruct v as [| | | | | |vkvs]; try discriminate.
  destruct (dict_mem "type" vkvs).
  - cbn [getitem].
    destruct (dict_get "type" vkvs) as [ty|] eqn:Hty; cbn [bind];
      [|discriminate].
    destruct (py_in "object" ty) as [[|]|e] eqn:Hin; try discriminate.
    + destruct (rec_f (JDict vkvs) (parent_key ++ [k]) sep) as [r v'] eqn:Hr.
      cbn [fst]. intros ->.
      apply (rec_plainly_typed (JDict vkvs) (parent_key ++ [k]) sep).
      rewrite Hr. reflexivity.
    + cbn [fst]. intros H. injection H as <-.
      constructor; [|constructor]. cbn [snd plainly_typed].
      rewrite Hty, Hin. reflexivity.
  - apply first_alternative_plainly_typed.
Qed.

Lemma schema_loop_columns props parent_key sep :
  forall items,
  fst (schema_loop rec_f props parent_key sep) = Ok items ->
  Forall (fun kv => plainly_typed (snd kv) = true) items.
Proof.
  induction props as [|[k v] props IH]; intros items.
  - cbn [schema_loop fst]. intros H. injection H as <-. constructor.
  - rewrite schema_loop_cons.
    destruct (fst (schema_property rec_f k v parent_key sep)) as [its|e] eqn:Hp;
      cbn [bind]; [|discriminate].
    destruct (fst (schema_loop rec_f props parent_key sep)) as [its'|e];
      cbn [bind]; [|discriminate].
    intros H. injection H as <-. apply Forall_app. split.
    + apply (schema_property_columns k v parent_key sep), Hp.
    + apply IH. reflexivity.
Qed.

End PlainlyTyped.

Lemma flatten_schema_rec_columns fuel :
  forall d parent_key sep flat,
  fst (flatten_schema_rec fuel d parent_key sep) = Ok flat ->
  Forall (fun kv => plainly_typed (snd kv) = true) flat.
Proof.
  induction fuel as [|fuel IH]; intros d parent_key sep flat; [discriminate|].
  cbn [flatten_schema_rec].
  destruct d as [| | | | | |dkvs]; try discriminate.
  destruct (dict_get "properties" dkvs) as [[| | | | | |props]|];
    try discriminate.
  destruct (schema_loop (flatten_schema_rec fuel) props parent_key sep)
    as [[items|e] props'] eqn:Hloop; cbn [fst bind]; [|discriminate].
  intros H. apply finish_schema_ok in H as (-> & _ & _).
  rewrite sorted_perm.
  apply (schema_loop_columns (flatten_schema_rec fuel) IH props parent_key sep).
  rewrite Hloop. reflexivity.
Qed.

(** X15: no column that [flatten_schema] returns is of an object: every
    descriptor in the mapping is a mapping with a ["type"] that holds no
    ['object'], so that [sqlalchemy_column_type] never takes its first
    branch on a flattened schema. *)
Theorem flatten_schema_no_object_column (d : json) (parent_key : list string)
    (sep : string) (flat : dict) :
  fst (flatten_schema d parent_key sep) = Ok flat ->
  forall k x, In (k, x) flat ->
    plainly_typed x = true
    /\ exists pt, getitem x "type" = Ok pt /\ type_has "object" pt = false.
Proof.
  intros Hflat k x Hin.
  pose proof (flatten_schema_rec_columns _ _ _ _ _ Hflat) as Hall.
  rewrite Forall_forall in Hall. specialize (Hall _ Hin). cbn [snd] in Hall.
  split; [exact Hall|].
  unfold plainly_typed in Hall. destruct x as [| | | | | |vkvs]; try discriminate.
  destruct (dict_get "type" vkvs) as [ty|] eqn:Hty; [|discriminate].
  exists ty. cbn [getitem]. rewrite Hty. split; [reflexivity|].
  unfold type_has. destruct (py_in "object" ty) as [[|]|e];
    try discriminate; reflexivity.
Qed.

Lemma flatten_schema_no_object_column_witness :
  plainly_typed (JDict [("type", JStr "string")]) = true
  /\ exists pt, getitem (JDict [("type", JStr "string")]) "type" = Ok pt
                /\ type_has "object" pt = false.
Proof.
  apply (flatten_schema_no_object_column example_schema_typed [] "__"
           [("id", JDict [("type", JStr "integer")]);
            ("info__weather", JDict [("type", JStr "string")])]
           eq_refl "info__weather").
  right. left. reflexivity.
Defined.

Lemma first_alternative_unforced new_key vkvs its :
  dict_mem "type" vkvs = false ->
  fst (first_alternative new_key (JDict vkvs)) = Ok its ->
  first_alternative_type (JDict vkvs) = None -> its = [].
Proof.
  intros Hm. unfold first_alternative_type, alternative_type, first_alternative.
  rewrite Hm.
  destruct vkvs as [|[k0 alts] v_rest]; try discriminate.
  destruct (getitem0 alts) as [property|e]; cbn [bind]; [|discriminate].
  destruct (getitem property "type") as [ty|e]; [|discriminate].
  destruct (eq_str ty "string"); [discriminate|].
  destruct (eq_str ty "array"); [discriminate|].
  cbn [fst]. intros H. injection H as <-. reflexivity.
Qed.

(** X16: a definition without an explicit ["type"] whose first alternative
    is of a type other than ['string'] and ['array'] gives no column and no
    error: when [flatten_schema] returns a mapping, it is the mapping of the
    schema without that definition. *)
Theorem flatten_schema_drops_other_alternatives
    (dkvs before after : list (string * json)) (k : string)
    (vkvs : list (string * json)) (parent_key : list string) (sep : string)
    (flat : dict) :
  dict_get "properties" dkvs
  = Some (JDict (before ++ (k, JDict vkvs) :: after)) ->
  dict_mem "type" vkvs = false ->
  first_alternative_type (JDict vkvs) = None ->
  fst (flatten_schema (JDict dkvs) parent_key sep) = Ok flat ->
  fst (flatten_schema
         (JDict (dict_set "properties" (JDict (before ++ after)) dkvs))
         parent_key sep) = Ok flat.
Proof.
  intros Hp Hm Hnone.
  rewrite (flatten_schema_unfold _ _ _ _ Hp).
  rewrite (flatten_schema_unfold _ (before ++ after) _ _
             (dict_get_set_same _ _ _)).
  set (d' := JDict (dict_set "properties" (JDict (before ++ after)) dkvs)).
  rewrite (schema_loop_ext (flatten_schema_rec (depth d'))
             (flatten_schema_rec (depth (JDict dkvs))) (before ++ after)).
  - rewrite !schema_loop_app, schema_loop_cons.
    destruct (fst (schema_loop _ before parent_key sep)) as [its1|e];
      cbn [bind]; [|discriminate].
    destruct (fst (schema_property _ k (JDict vkvs) parent_key sep))
      as [its|e] eqn:Hprop; cbn [bind]; [|discriminate].
    assert (Hits : its = []).
    { revert Hprop. unfold schema_property. rewrite Hm.
      destruct (negb (truthy (JDict vkvs))); [discriminate|].
      intros Hfa. exact (first_alternative_unforced _ _ _ Hm Hfa Hnone). }
    subst its. cbn [app].
    destruct (fst (schema_loop _ after parent_key sep)) as [its2|e];
      cbn [bind]; [|discriminate].
    intros H. exact H.
  - intros k0 v Hin p s. apply flatten_schema_rec_fuel.
    + eapply Nat.lt_trans; [apply (depth_In _ _ _ Hin)|].
      apply (depth_In "properties"), dict_get_In, dict_get_set_same.
    + assert (Hin' : In (k0, v) (before ++ (k, JDict vkvs) :: after)).
      { apply in_app_or in Hin as [Hin|Hin]; apply in_or_app;
          [left|right; right]; exact Hin. }
      eapply Nat.lt_trans; [apply (depth_In _ _ _ Hin')|].
      apply (depth_In "properties"), dict_get_In, Hp.
Qed.

Lemma flatten_schema_drops_other_alternatives_witness :
  fst (flatten_schema
         (JDict (dict_set "properties"
                   (JDict ([("id", JDict [("type", JStr "integer")])]
                           ++ [("name", JDict [("type", JStr "string")])]))
                   schema_with_number_alternatives))
         [] "__")
  = Ok [("id", JDict [("type", JStr "integer")]);
        ("name", JDict [("type", JStr "string")])].
Proof.
  apply (flatten_schema_drops_other_alternatives
           schema_with_number_alternatives
           [("id", JDict [("type", JStr "integer")])]
           [("name", JDict [("type", JStr "string")])] "price"
           [("anyOf", JList [JDict [("type", JStr "number")];
                             JDict [("type", JStr "null")]])]);
    reflexivity.
Defined.

(** ** Tables *)

(** X17: [generate_sqlalchemy_table] raises exactly what [flatten_schema]
    raises on the schema, or else [ArgumentError] when the schema flattens
    with a blank name among the flattened names: on a schema that flattens,
    no column type fails, and [Table] refuses a blank name only. *)
Theorem generate_sqlalchemy_table_errors (stream : string)
    (key_properties : list string) (json_schema : json)
    (timestamp_column : option string) (e : exn) :
  generate_sqlalchemy_table stream key_properties json_schema timestamp_column
  = Error e
  <-> fst (flatten_schema json_schema [] "__") = Error e
      \/ (e = ArgumentError
          /\ exists flat_schema,
               fst (flatten_schema json_schema [] "__") = Ok flat_schema
               /\ In "" (keys flat_schema)).
Proof.
  destruct (fst (flatten_schema json_schema [] "__")) as [flat|e0] eqn:Hflat.
  - destruct (generate_sqlalchemy_table_new_Table stream key_properties
                json_schema timestamp_column flat Hflat)
      as (columns & extra & Ht & Hn & _ & _ & _ & Hextra).
    pose proof (blank_column_name columns extra flat timestamp_column
                  Hn Hextra) as Hblank.
    rewrite Ht. unfold sqlalchemy.new_Table.
    destruct (existsb (fun c => String.eqb (sqlalchemy.name c) "")
                (columns ++ extra)) eqn:Hex.
    + assert (Hin : In "" (keys flat)).
      { apply Hblank. apply existsb_exists in Hex as (c & Hc & Heq).
        apply String.eqb_eq in Heq. rewrite <- Heq. apply in_map, Hc. }
      split.
      * intros H. injection H as <-. right. split; [reflexivity|].
        exists flat. split; [reflexivity|exact Hin].
      * intros [H|(-> & _)]; [discriminate H|reflexivity].
    + split; [discriminate|].
      intros [H|(_ & flat' & Hf & Hin)]; [discriminate H|].
      injection Hf as <-. apply Hblank in Hin.
      apply in_map_iff in Hin as (c & Hc & Hin).
      assert (Hex' : existsb (fun c => String.eqb (sqlalchemy.name c) "")
                       (columns ++ extra) = true).
      { apply existsb_exists. exists c. split; [exact Hin|].
        rewrite Hc. reflexivity. }
      rewrite Hex' in Hex. discriminate Hex.
  - unfold generate_sqlalchemy_table. rewrite Hflat. cbn [bind]. split.
    + intros H. injection H as ->. left. reflexivity.
    + intros [H|(_ & flat & Hf & _)]; [|discriminate Hf].
      injection H as ->. reflexivity.
Qed.

(** X18: the columns of a table that [generate_sqlalchemy_table] returns
    have pairwise distinct names, the timestamp column included. *)
Theorem generate_sqlalchemy_table_distinct_names (stream : string)
    (key_properties : list string) (json_schema : json)
    (timestamp_column : option string) (table : sqlalchemy.Table) :
  generate_sqlalchemy_table stream key_properties json_schema timestamp_column
  = Ok table ->
  NoDup (List.map sqlalchemy.name (sqlalchemy.columns table)).
Proof.
  destruct (fst (flatten_schema json_schema [] "__")) as [flat|e0] eqn:Hflat.
  - destruct (generate_sqlalchemy_table_new_Table stream key_properties
                json_schema timestamp_column flat Hflat)
      as (columns & extra & Ht & Hn & _ & _ & _ & Hextra).
    pose proof (key_lt_NoDup _ (flatten_schema_sorted _ _ _ _ Hflat)) as Hnd.
    rewrite Ht. unfold sqlalchemy.new_Table.
    destruct (existsb _ (columns ++ extra)); [discriminate|].
    intros H. injection H as <-. cbn [sqlalchemy.columns].
    rewrite map_app, Hn.
    destruct Hextra as [(ts & _ & _ & Hnot & ->)|(_ & ->)].
    + cbn [List.map sqlalchemy.name].
      apply (Permutation_NoDup (Permutation_cons_append _ _)).
      constructor; [exact Hnot|exact Hnd].
    + cbn [List.map]. rewrite app_nil_r. exact Hnd.
  - unfold generate_sqlalchemy_table. rewrite Hflat. discriminate.
Qed.

Lemma generate_sqlalchemy_table_distinct_names_witness :
  NoDup (List.map sqlalchemy.name
           (sqlalchemy.columns
              (sqlalchemy.mkTable "weather"
                 [sqlalchemy.mkColumn "id" sqlalchemy.BigInteger true;
                  sqlalchemy.mkColumn "info__weather" sqlalchemy.String false;
                  sqlalchemy.mkColumn "_sdc_batched_at" sqlalchemy.TIMESTAMP
                    false]))).
Proof.
  apply (generate_sqlalchemy_table_distinct_names "weather" ["id"]
           example_schema_typed (Some "_sdc_batched_at")).
  reflexivity.
Defined.
